(** * Shoot private perpetuals: the client-side encryption protocol

    A shallow embedding of the TypeScript sources of the repository
    (src/lib/arcium-client.ts, src/lib/shoot-data-access.ts,
    src/components/trading/trading-dashboard.tsx and tests/shoot.ts)
    and the properties its specification states about them.

    Conventions of the embedding:
    - a JS [number] is an IEEE-754 binary64 value ([spec_float] with
      precision 53 and maximal exponent 1024), with the rounding of the
      arithmetic operators as the language defines it;
    - a [bigint] and a [BN] are unbounded integers of [Z];
    - a [Buffer] and a [Uint8Array] are lists of bytes, a [number[]] is a
      list of integers;
    - an exception is the [Throw] case of [result];
    - the mutable [this] of the client and the outside world (random
      source, ledger, clock, console, calls into the cipher) are threaded
      explicitly; every effect on the outside is recorded in a trace;
    - an [await] is sequential composition: interleavings of pending
      promises are outside the model. *)

From Stdlib Require Import ZArith List Bool Lia String Ascii Arith.
From Stdlib Require Import Floats.SpecFloat.
From Stdlib Require Import DecimalString Zpower.
From Stdlib Require Strings.Byte.
Import ListNotations.
Open Scope string_scope.
Open Scope Z_scope.

(* ================================================================== *)
(** ** JavaScript values *)
(* ================================================================== *)

Module Js.

(** *** Errors and results *)

Inductive error :=
| Error (msg : string)
| RangeError (msg : string).

Inductive result (A : Type) :=
| Ok (a : A)
| Throw (e : error).
Arguments Ok {A} a.
Arguments Throw {A} e.

Definition is_ok {A} (r : result A) : bool :=
  match r with Ok _ => true | Throw _ => false end.

(** *** Numbers: IEEE-754 binary64 *)

Definition number := spec_float.
Definition b64_prec : Z := 53.
Definition b64_emax : Z := 1024.

Definition mul : number -> number -> number := SFmul b64_prec b64_emax.
Definition sub : number -> number -> number := SFsub b64_prec b64_emax.
Definition div : number -> number -> number := SFdiv b64_prec b64_emax.
Definition neg : number -> number := SFopp.
Definition ltb : number -> number -> bool := SFltb.

(** The number denoted by the integer literal [z], and by [m * 2^e]. *)
Definition of_Z (z : Z) : number := binary_normalize b64_prec b64_emax z 0 false.
Definition dyadic (m e : Z) : number := binary_normalize b64_prec b64_emax m e false.

Definition zero : number := S754_zero false.

Definition is_finite (x : number) : bool :=
  match x with
  | S754_zero _ | S754_finite _ _ _ => true
  | S754_infinity _ | S754_nan => false
  end.

(** [x >= 0] as the language compares: not [NaN], and [-0] counts. *)
Definition nonneg (x : number) : bool :=
  match x with
  | S754_zero _ => true
  | S754_finite s _ _ | S754_infinity s => negb s
  | S754_nan => false
  end.

(** The integer part, rounded towards minus infinity, of a finite number. *)
Definition floorZ (x : number) : option Z :=
  match x with
  | S754_zero _ => Some 0
  | S754_finite s m e =>
      let v := if s then Z.neg m else Z.pos m in
      Some (if 0 <=? e then v * 2 ^ e else v / 2 ^ (- e))
  | S754_infinity _ | S754_nan => None
  end.

(** [Math.floor]: a number again; infinities, [NaN] and zeros are
    returned as they are, and a positive fraction gives [+0]. *)
Definition Math_floor (x : number) : number :=
  match x with
  | S754_finite s m e =>
      if 0 <=? e then x
      else binary_normalize b64_prec b64_emax
             ((if s then Z.neg m else Z.pos m) / 2 ^ (- e)) 0 s
  | _ => x
  end.

(** [BigInt(x)]: the integer [x] denotes, and a [RangeError] when [x] is
    not an integer (a fraction, an infinity or [NaN]). *)
Definition not_an_integer : string :=
  "The number cannot be converted to a BigInt because it is not an integer".

Definition BigInt (x : number) : result Z :=
  match x with
  | S754_zero _ => Ok 0
  | S754_finite s m e =>
      let v := if s then Z.neg m else Z.pos m in
      if 0 <=? e then Ok (v * 2 ^ e)
      else if v mod 2 ^ (- e) =? 0 then Ok (v / 2 ^ (- e))
      else Throw (RangeError not_an_integer)
  | S754_infinity _ | S754_nan => Throw (RangeError not_an_integer)
  end.

(** *** Bytes, typed arrays and big numbers *)

Definition bytes := list Byte.byte.

Definition Z_of_byte (b : Byte.byte) : Z := Z.of_N (Byte.to_N b).

Definition byte_of_Z (z : Z) : Byte.byte :=
  match Byte.of_N (Z.to_N (z mod 256)) with
  | Some b => b
  | None => Byte.x00
  end.

(** [new Uint8Array(xs)] for an array of integers: each one modulo 256;
    [new Uint8Array(undefined)] is empty. *)
Definition Uint8Array_of (xs : list Z) : bytes := map byte_of_Z xs.

(** [Array.from(u)] for a typed array. *)
Definition Array_from (u : bytes) : list Z := map Z_of_byte u.

(** [u.slice(a, b)] on a buffer, for [0 <= a <= b]. *)
Definition slice (a b : nat) (u : bytes) : bytes := firstn (b - a) (skipn a u).

(** [Buffer.from(s)] for an ASCII string. *)
Definition Buffer_from (s : string) : bytes := list_byte_of_string s.

(** [new BN(buffer, 'hex')]: bn.js reads an array of bytes big-endian,
    whatever the base given with it. *)
Definition BN_of_bytes (u : bytes) : Z :=
  fold_left (fun acc b => acc * 256 + Z_of_byte b) u 0.

(** [Buffer.from(u).toString("hex")] *)
Definition hex_digit (n : N) : ascii :=
  nth (N.to_nat n) (list_ascii_of_string "0123456789abcdef") "0"%char.

Definition hex_of_bytes (u : bytes) : string :=
  string_of_list_ascii
    (flat_map (fun b => [hex_digit (Byte.to_N b / 16); hex_digit (Byte.to_N b mod 16)]) u).

(** [String(n)] for a natural number and [bn.toString()]. *)
Definition string_of_nat (n : nat) : string := NilZero.string_of_uint (Nat.to_uint n).
Definition string_of_Z (z : Z) : string := NilZero.string_of_int (Z.to_int z).

End Js.

Import Js.

(* ================================================================== *)
(** ** Effects: a state and exception monad *)
(* ================================================================== *)

(** A computation over a state [S] that returns an [A] or throws. *)
Definition Eff (S A : Type) : Type := S -> result A * S.

Definition ret {S A} (a : A) : Eff S A := fun s => (Ok a, s).

Definition throw {S A} (e : error) : Eff S A := fun s => (Throw e, s).

Definition bind {S A B} (c : Eff S A) (k : A -> Eff S B) : Eff S B :=
  fun s =>
    match c s with
    | (Ok a, s') => k a s'
    | (Throw e, s') => (Throw e, s')
    end.

(** [try { c } catch (e) { h e }] *)
Definition try_catch {S A} (c : Eff S A) (h : error -> Eff S A) : Eff S A :=
  fun s =>
    match c s with
    | (Ok a, s') => (Ok a, s')
    | (Throw e, s') => h e s'
    end.

(** A pure value that may be an exception. *)
Definition lift {S A} (r : result A) : Eff S A := fun s => (r, s).

Definition gets {S A} (f : S -> A) : Eff S A := fun s => (Ok (f s), s).

Definition modify {S} (f : S -> S) : Eff S unit := fun s => (Ok tt, f s).

Declare Scope eff_scope.
Delimit Scope eff_scope with eff.
Notation "x <- c ;; k" := (bind c (fun x => k))
  (at level 61, c at next level, right associativity) : eff_scope.
Notation "c ;; k" := (bind c (fun _ => k))
  (at level 61, right associativity) : eff_scope.
Open Scope eff_scope.

(* ================================================================== *)
(** ** What the client is written against *)
(* ================================================================== *)

(** A [PublicKey] of the ledger, by its base58 text. *)
Definition PublicKey := string.

(** The functions of @solana/web3.js and @arcium-hq/client the client
    calls.  They are not part of the repository: the client is embedded
    over any implementation of them. *)
Record ArciumLib := {
  findProgramAddressSync : list bytes -> PublicKey -> PublicKey;
  x25519_getPublicKey : bytes -> bytes;
  x25519_getSharedSecret : bytes -> bytes -> result bytes;
  (** the order of the field the Rescue cipher works in *)
  field_order : Z;
  (** [new RescueCipher(secret).encrypt(plaintext, nonce)] *)
  rescue_encrypt : bytes -> list Z -> bytes -> result (list (list Z));
  (** [new RescueCipher(secret).decrypt(ciphertext, nonce)] *)
  rescue_decrypt : bytes -> list (list Z) -> bytes -> result (list Z)
}.

(** A ciphertext element: 32 integers that are bytes. *)
Definition ciphertext32 (c : list Z) : Prop :=
  List.length c = 32%nat /\ Forall (fun z => 0 <= z < 256) c.

Definition in_field (L : ArciumLib) (v : Z) : Prop := 0 <= v < field_order L.

(** The contract of the cipher (section 4.2 of the specification): with a
    16-byte nonce and values of the field it encrypts, one 32-byte element
    per value, and decryption under the same secret and nonce gives the
    values back. *)
Record cipher_contract (L : ArciumLib) : Prop := {
  field_has_bit : 1 < field_order L;
  encrypt_total : forall s vs n,
    List.length n = 16%nat -> Forall (in_field L) vs ->
    exists cts, rescue_encrypt L s vs n = Ok cts;
  encrypt_shape : forall s vs n cts,
    rescue_encrypt L s vs n = Ok cts ->
    List.length cts = List.length vs /\ Forall ciphertext32 cts;
  decrypt_encrypt : forall s vs n cts,
    List.length n = 16%nat -> Forall (in_field L) vs ->
    rescue_encrypt L s vs n = Ok cts ->
    rescue_decrypt L s cts n = Ok vs
}.

(** What [connection.getAccountInfo] answers for an address. *)
Inductive rpc_reply :=
| RpcFailure (e : error)
| NoAccount
| Account (data : bytes).

(** The effects of the client on the outside, in the order they happen. *)
Inductive event :=
| GetAccountInfo (address : PublicKey)
| ConsoleError (msg : string) (e : error)
| CipherEncrypt (secret : bytes) (plaintext : list Z) (nonce : bytes)
| CipherDecrypt (secret : bytes) (ciphertext : list (list Z)) (nonce : bytes)
| ToastInfo (title description : string)
| AwaitFinalization (offset : Z).

(** The outside world of a client: the tape of the secure random source
    and how far it has been read, the ledger, the clock, what
    [awaitComputationFinalization] answers for an offset, and the trace. *)
Record World := {
  entropy : nat -> Byte.byte;
  rng_pos : nat;
  ledger : PublicKey -> rpc_reply;
  now : Z;
  finalization : Z -> result string;
  trace : list event
}.

Definition emit (e : event) (w : World) : World :=
  {| entropy := entropy w; rng_pos := rng_pos w; ledger := ledger w;
     now := now w; finalization := finalization w;
     trace := (trace w ++ [e])%list |}.

Definition advance_rng (n : nat) (w : World) : World :=
  {| entropy := entropy w; rng_pos := (rng_pos w + n)%nat; ledger := ledger w;
     now := now w; finalization := finalization w;
     trace := trace w |}.

(** The next [n] bytes of the tape. *)
Definition tape (w : World) (n : nat) : bytes := map (entropy w) (seq (rng_pos w) n).

(* ================================================================== *)
(** ** src/lib/arcium-client.ts *)
(* ================================================================== *)

Inductive Side := Long | Short.

Record TradeParams := {
  tp_side : Side;
  tp_sizeUsd : number;
  tp_collateral : number;
  tp_entryPrice : number
}.

Record EncryptedTradeParams := {
  enc_side : bytes;
  enc_sizeUsd : bytes;
  enc_collateral : bytes;
  enc_entryPrice : bytes;
  enc_publicKey : bytes;
  enc_nonce : bytes
}.

Record EncryptedPosition := {
  ct_side : bytes;
  ct_sizeUsd : bytes;
  ct_collateral : bytes;
  ct_entryPrice : bytes;
  ct_leverage : bytes
}.

(** The fields are [bigint]s, and [None] where the destructuring of the
    decrypted array finds no element ([undefined]). *)
Record DecryptedPosition := {
  dp_side : option Z;
  dp_sizeUsd : option Z;
  dp_collateral : option Z;
  dp_entryPrice : option Z;
  dp_leverage : option Z
}.

(** The fields of the class; the connection is the [World]. *)
Record ArciumClient := {
  programId : PublicKey;
  mxePublicKey : option bytes;
  privateKey : bytes;
  publicKey : bytes
}.

(** A client and the world it runs in. *)
Record St := {
  this : ArciumClient;
  world : World
}.

Definition on_world (f : World -> World) (s : St) : St :=
  {| this := this s; world := f (world s) |}.

Definition set_mxePublicKey (k : bytes) (s : St) : St :=
  {| this := {| programId := programId (this s); mxePublicKey := Some k;
                privateKey := privateKey (this s); publicKey := publicKey (this s) |};
     world := world s |}.

(** [randomBytes(n)] of node's crypto. *)
Definition randomBytes (n : nat) : Eff St bytes :=
  fun s => (Ok (tape (world s) n), on_world (advance_rng n) s).

(** [connection.getAccountInfo(address)]: [null] is [None]. *)
Definition getAccountInfo (address : PublicKey) : Eff St (option bytes) :=
  fun s =>
    let s' := on_world (emit (GetAccountInfo address)) s in
    match ledger (world s) address with
    | RpcFailure e => (Throw e, s')
    | NoAccount => (Ok None, s')
    | Account data => (Ok (Some data), s')
    end.

Definition console_error (msg : string) (e : error) : Eff St unit :=
  modify (on_world (emit (ConsoleError msg e))).

Section Client.

Variable L : ArciumLib.

(** [new ArciumClient(connection, programId)]: an ephemeral x25519 key
    pair from 32 random bytes. *)
Definition new_ArciumClient (programId : PublicKey) (w : World) : St :=
  let sk := tape w 32 in
  {| this := {| programId := programId; mxePublicKey := None;
                privateKey := sk; publicKey := x25519_getPublicKey L sk |};
     world := advance_rng 32 w |}.

(** [createArciumClient(connection, programId)] *)
Definition createArciumClient (programId : PublicKey) (w : World) : St :=
  new_ArciumClient programId w.

Definition getMXEPublicKey : Eff St bytes :=
  cached <- gets (fun s => mxePublicKey (this s)) ;;
  match cached with
  | Some key => ret key
  | None =>
      try_catch
        (pid <- gets (fun s => programId (this s)) ;;
         let mxeConfigPda := findProgramAddressSync L [Buffer_from "mxe_config"] pid in
         accountInfo <- getAccountInfo mxeConfigPda ;;
         match accountInfo with
         | None => throw (Error "MXE config account not found")
         | Some data =>
             let key := slice 8 40 data in
             modify (set_mxePublicKey key) ;;
             ret key
         end)
        (fun error =>
           console_error "Failed to fetch MXE public key:" error ;;
           throw (Error "Could not initialize Arcium encryption"))
  end.

(** [cipher.encrypt(plaintext, nonce)] for the cipher of [secret]. *)
Definition cipher_encrypt (secret : bytes) (plaintext : list Z) (nonce : bytes)
  : Eff St (list (list Z)) :=
  modify (on_world (emit (CipherEncrypt secret plaintext nonce))) ;;
  lift (rescue_encrypt L secret plaintext nonce).

(** [cipher.decrypt(ciphertext, nonce)] for the cipher of [secret]. *)
Definition cipher_decrypt (secret : bytes) (ciphertext : list (list Z)) (nonce : bytes)
  : Eff St (list Z) :=
  modify (on_world (emit (CipherDecrypt secret ciphertext nonce))) ;;
  lift (rescue_decrypt L secret ciphertext nonce).

(** [BigInt(Math.floor(x * 1_000_000))] *)
Definition scale6 (x : number) : result Z :=
  BigInt (Math_floor (Js.mul x (Js.of_Z 1000000))).

(** [BigInt(side === 'long' ? 1 : 0)] *)
Definition side_code (side : Side) : Z :=
  match side with Long => 1 | Short => 0 end.

(** [new Uint8Array(cipher.encrypt([v], nonce)[0])] *)
Definition encrypt_field (secret : bytes) (v : Z) (nonce : bytes) : Eff St bytes :=
  cts <- cipher_encrypt secret [v] nonce ;;
  ret (Uint8Array_of (nth 0 cts [])).

Definition encryptTradeParams (params : TradeParams) : Eff St EncryptedTradeParams :=
  mxePublicKey <- getMXEPublicKey ;;
  sk <- gets (fun s => privateKey (this s)) ;;
  sharedSecret <- lift (x25519_getSharedSecret L sk mxePublicKey) ;;
  nonce <- randomBytes 16 ;;
  let sideBigInt := side_code (tp_side params) in
  sizeUsdBigInt <- lift (scale6 (tp_sizeUsd params)) ;;
  collateralBigInt <- lift (scale6 (tp_collateral params)) ;;
  entryPriceBigInt <- lift (scale6 (tp_entryPrice params)) ;;
  encryptedSide <- encrypt_field sharedSecret sideBigInt nonce ;;
  encryptedSize <- encrypt_field sharedSecret sizeUsdBigInt nonce ;;
  encryptedCollateral <- encrypt_field sharedSecret collateralBigInt nonce ;;
  encryptedEntryPrice <- encrypt_field sharedSecret entryPriceBigInt nonce ;;
  pk <- gets (fun s => publicKey (this s)) ;;
  ret {| enc_side := encryptedSide;
         enc_sizeUsd := encryptedSize;
         enc_collateral := encryptedCollateral;
         enc_entryPrice := encryptedEntryPrice;
         enc_publicKey := pk;
         enc_nonce := nonce |}.

(** [const [v] = cipher.decrypt([Array.from(c)], nonce)] *)
Definition decrypt_field (secret : bytes) (c : bytes) (nonce : bytes) : Eff St (option Z) :=
  vs <- cipher_decrypt secret [Array_from c] nonce ;;
  ret (hd_error vs).

Definition decryptPosition (encryptedData : EncryptedPosition) (nonce : bytes)
  : Eff St DecryptedPosition :=
  mxePublicKey <- getMXEPublicKey ;;
  sk <- gets (fun s => privateKey (this s)) ;;
  sharedSecret <- lift (x25519_getSharedSecret L sk mxePublicKey) ;;
  side <- decrypt_field sharedSecret (ct_side encryptedData) nonce ;;
  sizeUsd <- decrypt_field sharedSecret (ct_sizeUsd encryptedData) nonce ;;
  collateral <- decrypt_field sharedSecret (ct_collateral encryptedData) nonce ;;
  entryPrice <- decrypt_field sharedSecret (ct_entryPrice encryptedData) nonce ;;
  leverage <- decrypt_field sharedSecret (ct_leverage encryptedData) nonce ;;
  ret {| dp_side := side;
         dp_sizeUsd := sizeUsd;
         dp_collateral := collateral;
         dp_entryPrice := entryPrice;
         dp_leverage := leverage |}.

(** [awaitComputationFinalization(provider, offset, programId, commitment)] *)
Definition awaitComputation (computationOffset : Z) : Eff St string :=
  modify (on_world (emit (AwaitFinalization computationOffset))) ;;
  r <- gets (fun s => finalization (world s) computationOffset) ;;
  lift r.

Definition generateComputationOffset : Eff St Z :=
  b <- randomBytes 8 ;;
  ret (BN_of_bytes b).

End Client.

(* ================================================================== *)
(** ** src/lib/shoot-data-access.ts *)
(* ================================================================== *)

Record OpenPositionResult := {
  or_queueSignature : string;
  or_finalizeSignature : string;
  or_computationOffset : string
}.

Record ClosePositionResult := {
  cr_queueSignature : string;
  cr_finalizeSignature : string
}.

Definition toast_info (title description : string) : Eff St unit :=
  modify (on_world (emit (ToastInfo title description))).

Section DataAccess.

Variable L : ArciumLib.

(** The [mutationFn] of [useOpenPosition]; [ready] is the truth of
    [program && wallet.publicKey && arciumClient]. *)
Definition openPosition_mutationFn (ready : bool) (params : TradeParams)
  : Eff St OpenPositionResult :=
  if negb ready then throw (Error "Wallet not connected or Arcium not initialized")
  else
    computationOffset <- generateComputationOffset ;;
    encrypted <- encryptTradeParams L params ;;
    t <- gets (fun s => now (world s)) ;;
    let placeholderSignature := "pending-deployment-" ++ string_of_Z t in
    toast_info "Position queued" "Waiting for MPC computation..." ;;
    try_catch
      (finalizeSignature <- awaitComputation computationOffset ;;
       ret {| or_queueSignature := placeholderSignature;
              or_finalizeSignature := finalizeSignature;
              or_computationOffset := string_of_Z computationOffset |})
      (fun error =>
         console_error "Computation failed:" error ;;
         throw error).

(** The [mutationFn] of [useClosePosition]. *)
Definition closePosition_mutationFn (ready : bool) : Eff St ClosePositionResult :=
  if negb ready then throw (Error "Wallet not connected or Arcium not initialized")
  else
    computationOffset <- generateComputationOffset ;;
    t <- gets (fun s => now (world s)) ;;
    let placeholderSignature := "pending-deployment-" ++ string_of_Z t in
    toast_info "Closing position" "Waiting for MPC computation..." ;;
    try_catch
      (finalizeSignature <- awaitComputation computationOffset ;;
       ret {| cr_queueSignature := placeholderSignature;
              cr_finalizeSignature := finalizeSignature |})
      (fun error =>
         console_error "Failed to close position:" error ;;
         throw error).

End DataAccess.

(* ================================================================== *)
(** ** src/components/trading/trading-dashboard.tsx *)
(* ================================================================== *)

Record Position := {
  pos_id : string;
  pos_side : Side;
  pos_size : number;
  pos_collateral : number;
  pos_leverage : number;
  pos_entryPrice : number;
  pos_currentPrice : number;
  pos_liquidationPrice : number;
  pos_pnl : number;
  pos_pnlPercent : number;
  pos_isEncrypted : bool;
  pos_timestamp : number
}.

(** The [pnl] of the effect that follows the market price: unary minus
    binds tighter than the product. *)
Definition position_pnl (marketPrice : number) (pos : Position) : number :=
  let priceDiff := Js.sub marketPrice (pos_entryPrice pos) in
  match pos_side pos with
  | Long => Js.mul (Js.div priceDiff (pos_entryPrice pos)) (pos_size pos)
  | Short => Js.mul (Js.neg (Js.div priceDiff (pos_entryPrice pos))) (pos_size pos)
  end.

Definition update_position (marketPrice : number) (pos : Position) : Position :=
  let pnl := position_pnl marketPrice pos in
  let pnlPercent := Js.mul (Js.div pnl (pos_collateral pos)) (Js.of_Z 100) in
  {| pos_id := pos_id pos;
     pos_side := pos_side pos;
     pos_size := pos_size pos;
     pos_collateral := pos_collateral pos;
     pos_leverage := pos_leverage pos;
     pos_entryPrice := pos_entryPrice pos;
     pos_currentPrice := marketPrice;
     pos_liquidationPrice := pos_liquidationPrice pos;
     pos_pnl := pnl;
     pos_pnlPercent := pnlPercent;
     pos_isEncrypted := pos_isEncrypted pos;
     pos_timestamp := pos_timestamp pos |}.

(** [setPositions((prev) => prev.map(...))] *)
Definition update_positions (marketPrice : number) (prev : list Position) : list Position :=
  map (update_position marketPrice) prev.

(* ================================================================== *)
(** ** tests/shoot.ts: the set-up of the suite *)
(* ================================================================== *)

(** What [getMXEPublicKey(provider, programId)] of @arcium-hq/client does
    at one call: a key, [null], or an exception. *)
Inductive mxe_outcome :=
| KeyReady (key : bytes)
| KeyMissing
| FetchFails (e : error).

Inductive test_event :=
| FetchMXEKey
| ConsoleLog (msg : string)
| SetTimeout (ms : Z).

(** The world of the suite: what the cluster answers at the n-th fetch of
    its key, the number of fetches made, and the trace. *)
Record TestWorld := {
  mxe_outcomes : nat -> mxe_outcome;
  mxe_calls : nat;
  test_trace : list test_event
}.

Definition test_emit (e : test_event) (w : TestWorld) : TestWorld :=
  {| mxe_outcomes := mxe_outcomes w; mxe_calls := mxe_calls w;
     test_trace := (test_trace w ++ [e])%list |}.

Definition console_log (msg : string) : Eff TestWorld unit :=
  modify (test_emit (ConsoleLog msg)).

(** [await new Promise((resolve) => setTimeout(resolve, ms))] *)
Definition sleep (ms : Z) : Eff TestWorld unit :=
  modify (test_emit (SetTimeout ms)).

(** [getMXEPublicKey(provider, programId)] of the library. *)
Definition lib_getMXEPublicKey : Eff TestWorld (option bytes) :=
  fun w =>
    let w' := {| mxe_outcomes := mxe_outcomes w; mxe_calls := S (mxe_calls w);
                 test_trace := (test_trace w ++ [FetchMXEKey])%list |} in
    match mxe_outcomes w (mxe_calls w) with
    | KeyReady key => (Ok (Some key), w')
    | KeyMissing => (Ok None, w')
    | FetchFails e => (Throw e, w')
    end.

(** The loop of [getMXEPublicKeyWithRetry], entered at [attempt] with
    [remaining = maxRetries + 1 - attempt] turns left; leaving the loop is
    the [throw] that follows it. *)
Fixpoint retry_loop (remaining attempt maxRetries : nat) (retryDelayMs : Z)
  : Eff TestWorld bytes :=
  match remaining with
  | O =>
      throw (Error ("Failed to fetch MXE public key after "
                    ++ string_of_nat maxRetries ++ " attempts"))
  | S remaining' =>
      got <- try_catch lib_getMXEPublicKey
               (fun error =>
                  console_log ("Attempt " ++ string_of_nat attempt ++ "/"
                               ++ string_of_nat maxRetries
                               ++ " failed to fetch MXE public key") ;;
                  ret None) ;;
      match got with
      | Some key => ret key
      | None =>
          (if (attempt <? maxRetries)%nat then sleep retryDelayMs else ret tt) ;;
          retry_loop remaining' (S attempt) maxRetries retryDelayMs
      end
  end.

Definition getMXEPublicKeyWithRetry (maxRetries : nat) (retryDelayMs : Z)
  : Eff TestWorld bytes :=
  retry_loop maxRetries 1 maxRetries retryDelayMs.

(** The fields of the Arcium environment the suite reads. *)
Record ArciumEnv := {
  arciumClusterPubkey : PublicKey;
  mxeProgramId : PublicKey
}.

Definition fallback_env (programId : PublicKey) : ArciumEnv :=
  {| arciumClusterPubkey := "2E4qQsaFWEWFbyKRDEaK2bAWQLFnk9MDRv6PCpViArmN";
     mxeProgramId := programId |}.

(** The [try { arciumEnv = getArciumEnv() } catch (e) { ... }] of the
    [before] hook; [getArciumEnv] is what the call evaluates to. *)
Definition load_arciumEnv (getArciumEnv : result ArciumEnv) (programId : PublicKey)
  : Eff TestWorld ArciumEnv :=
  try_catch (lift getArciumEnv)
    (fun e =>
       console_log "Failed to load Arcium env via getArciumEnv, using fallback values" ;;
       ret (fallback_env programId)).

(** The Arcium part of the [before] hook: the environment, then the key of
    the cluster with 20 attempts 2000 ms apart. *)
Definition before_arcium (getArciumEnv : result ArciumEnv) (programId : PublicKey)
  : Eff TestWorld (ArciumEnv * bytes) :=
  arciumEnv <- load_arciumEnv getArciumEnv programId ;;
  console_log "Fetching MXE public key..." ;;
  mxePublicKey <- getMXEPublicKeyWithRetry 20 2000 ;;
  console_log ("MXE public key: " ++ hex_of_bytes mxePublicKey) ;;
  ret (arciumEnv, mxePublicKey).

(* ================================================================== *)
(** ** The outputs of the PnL computation, from the specification *)
(* ================================================================== *)

(** Modelled from the spec: the [calculate_pnl] circuit and the event that
    reports its outputs are not under src/.  Section 4.4 gives the outputs
    as the pair profit and loss, "exactly one of profit/loss is non-zero;
    both zero is valid when at parity": the pair of a signed PnL. *)
Definition profit_loss (pnl : number) : number * number :=
  if Js.ltb Js.zero pnl then (pnl, Js.zero)
  else if Js.ltb pnl Js.zero then (Js.zero, Js.neg pnl)
  else (Js.zero, Js.zero).

Definition profit (pnl : number) : number := fst (profit_loss pnl).
Definition loss (pnl : number) : number := snd (profit_loss pnl).

(* ================================================================== *)
(** ** A concrete library and world, to run the client *)
(* ================================================================== *)

Module Toy.

(** [n] bytes of [v], least significant first, and back. *)
Fixpoint to_le (n : nat) (v : Z) : list Z :=
  match n with
  | O => []
  | S n' => (v mod 256) :: to_le n' (v / 256)
  end.

Fixpoint of_le (l : list Z) : Z :=
  match l with
  | [] => 0
  | b :: l' => b + 256 * of_le l'
  end.

Definition order : Z := 2 ^ 255 - 19.

(** A one-time pad over the integers modulo [order]. *)
Definition pad (secret nonce : bytes) : Z :=
  (BN_of_bytes secret + BN_of_bytes nonce) mod order.

Definition encrypt (secret : bytes) (vs : list Z) (nonce : bytes)
  : result (list (list Z)) :=
  Ok (map (fun v => to_le 32 ((v + pad secret nonce) mod order)) vs).

Definition decrypt (secret : bytes) (cts : list (list Z)) (nonce : bytes)
  : result (list Z) :=
  Ok (map (fun c => (of_le c - pad secret nonce) mod order) cts).

Definition lib : ArciumLib :=
  {| findProgramAddressSync := fun seeds pid => pid ++ "/" ++ string_of_list_byte (List.concat seeds);
     x25519_getPublicKey := fun sk => sk;
     x25519_getSharedSecret := fun sk pk => Ok (sk ++ pk)%list;
     field_order := order;
     rescue_encrypt := encrypt;
     rescue_decrypt := decrypt |}.

Definition program : PublicKey := "Bv3Fb9VjzjWGfX18QTUcVycAfeLoQ5zZN6vv2g3cTZxp".

(** A ledger with the MXE account in place: 8 bytes of discriminator,
    then the 32 bytes of the key. *)
Definition account_data : bytes := map (fun i => byte_of_Z (Z.of_nat i)) (seq 100 40).

Definition ledger_ready : PublicKey -> rpc_reply :=
  fun address =>
    if String.eqb address (program ++ "/mxe_config") then Account account_data else NoAccount.

Definition ledger_empty : PublicKey -> rpc_reply := fun _ => NoAccount.

Definition world_with (ledger : PublicKey -> rpc_reply) : World :=
  {| entropy := fun i => byte_of_Z (Z.of_nat i * 37 + 11);
     rng_pos := 0;
     ledger := ledger;
     now := 1700000000000;
     finalization := fun _ => Ok "signature";
     trace := [] |}.

Definition client_ready : St := createArciumClient lib program (world_with ledger_ready).
Definition client_empty : St := createArciumClient lib program (world_with ledger_empty).

(** 1000, 100 and 142.5: the parameters of the demonstration. *)
Definition params : TradeParams :=
  {| tp_side := Long;
     tp_sizeUsd := Js.of_Z 1000;
     tp_collateral := Js.of_Z 100;
     tp_entryPrice := Js.dyadic 285 (-1) |}.

(** The demonstration run: the ciphertexts and the state after it. *)
Definition after : St := snd (encryptTradeParams lib params client_ready).

Definition enc : EncryptedTradeParams :=
  match fst (encryptTradeParams lib params client_ready) with
  | Ok e => e
  | Throw _ =>
      {| enc_side := []; enc_sizeUsd := []; enc_collateral := [];
         enc_entryPrice := []; enc_publicKey := []; enc_nonce := [] |}
  end.

Definition test_world (outcomes : nat -> mxe_outcome) : TestWorld :=
  {| mxe_outcomes := outcomes; mxe_calls := 0; test_trace := [] |}.

(** A position of $1000 entered at $100. *)
Definition position (side : Side) : Position :=
  {| pos_id := "pos-1"; pos_side := side;
     pos_size := Js.of_Z 1000;
     pos_collateral := Js.of_Z 100; pos_leverage := Js.of_Z 10;
     pos_entryPrice := Js.of_Z 100; pos_currentPrice := Js.of_Z 100;
     pos_liquidationPrice := Js.of_Z 90; pos_pnl := Js.zero;
     pos_pnlPercent := Js.zero; pos_isEncrypted := true;
     pos_timestamp := Js.of_Z 1700000000000 |}.

End Toy.

(* ================================================================== *)
(** ** Observations on traces and runs *)
(* ================================================================== *)

(** Two calls into the cipher with one secret and one nonce and
    different plaintexts. *)
Definition nonce_reused (tr : list event) : Prop :=
  exists secret nonce p1 p2,
    In (CipherEncrypt secret p1 nonce) tr /\
    In (CipherEncrypt secret p2 nonce) tr /\
    p1 <> p2.

Definition is_encrypt (e : event) : bool :=
  match e with CipherEncrypt _ _ _ => true | _ => false end.

Definition is_fetch (e : event) : bool :=
  match e with GetAccountInfo _ => true | _ => false end.

(** The calls into the cipher, and the number of reads of the ledger. *)
Definition encrypt_calls (tr : list event) : list event := filter is_encrypt tr.
Definition fetch_count (tr : list event) : nat := List.length (filter is_fetch tr).

(** The pauses of a trace of the suite, and its number of fetches. *)
Definition sleeps (tr : list test_event) : list Z :=
  flat_map (fun e => match e with SetTimeout ms => [ms] | _ => [] end) tr.

Definition fetches (tr : list test_event) : nat :=
  List.length (filter (fun e => match e with FetchMXEKey => true | _ => false end) tr).

(** What can happen to a client after it was made: a call of one of its
    methods, or the ledger changing under it. *)
Inductive step :=
| CallGetMXEPublicKey
| CallEncryptTradeParams (params : TradeParams)
| CallDecryptPosition (data : EncryptedPosition) (nonce : bytes)
| CallGenerateComputationOffset
| CallAwaitComputation (offset : Z)
| LedgerBecomes (l : PublicKey -> rpc_reply).

Definition set_ledger (l : PublicKey -> rpc_reply) (w : World) : World :=
  {| entropy := entropy w; rng_pos := rng_pos w; ledger := l;
     now := now w; finalization := finalization w; trace := trace w |}.

Definition do_step (L : ArciumLib) (st : step) (s : St) : St :=
  match st with
  | CallGetMXEPublicKey => snd (getMXEPublicKey L s)
  | CallEncryptTradeParams params => snd (encryptTradeParams L params s)
  | CallDecryptPosition data nonce => snd (decryptPosition L data nonce s)
  | CallGenerateComputationOffset => snd (generateComputationOffset s)
  | CallAwaitComputation offset => snd (awaitComputation offset s)
  | LedgerBecomes l => on_world (set_ledger l) s
  end.

Definition do_steps (L : ArciumLib) (sts : list step) (s : St) : St :=
  fold_left (fun s st => do_step L st s) sts s.

(** The offsets the client has waited on, in the order of the calls of
    [awaitComputationFinalization]. *)
Definition awaited (tr : list event) : list Z :=
  flat_map (fun e => match e with AwaitFinalization offset => [offset] | _ => [] end) tr.

(** What a component does with its client: it submits the opening or the
    closing of a position (wallet connected, client there), or calls one
    of the methods. *)
Inductive action :=
| SubmitOpen (params : TradeParams)
| SubmitClose
| Method (st : step).

Definition act (L : ArciumLib) (a : action) (s : St) : St :=
  match a with
  | SubmitOpen params => snd (openPosition_mutationFn L true params s)
  | SubmitClose => snd (closePosition_mutationFn true s)
  | Method st => do_step L st s
  end.

Definition act_all (L : ArciumLib) (l : list action) (s : St) : St :=
  fold_left (fun s a => act L a s) l s.

(** Nothing was waited on between [s] and [s'], and the answers of the
    cluster are the same. *)
Definition no_await (s s' : St) : Prop :=
  finalization (world s') = finalization (world s) /\
  awaited (trace (world s')) = awaited (trace (world s)).

(** The ciphertexts of [encryptTradeParams] as a position to decrypt,
    with a ciphertext for the leverage. *)
Definition as_position (enc : EncryptedTradeParams) (leverage : bytes) : EncryptedPosition :=
  {| ct_side := enc_side enc;
     ct_sizeUsd := enc_sizeUsd enc;
     ct_collateral := enc_collateral enc;
     ct_entryPrice := enc_entryPrice enc;
     ct_leverage := leverage |}.

(** The address the client reads the key of the cluster from. *)
Definition mxeConfigPda (L : ArciumLib) (s : St) : PublicKey :=
  findProgramAddressSync L [Buffer_from "mxe_config"] (programId (this s)).

(** The secret a client shares with the cluster once it holds its key. *)
Definition shared_secret (L : ArciumLib) (c : ArciumClient) : option bytes :=
  match mxePublicKey c with
  | Some k =>
      match x25519_getSharedSecret L (privateKey c) k with
      | Ok secret => Some secret
      | Throw _ => None
      end
  | None => None
  end.

(** The four calls into the cipher of one [encryptTradeParams]. *)
Definition four_calls (secret nonce : bytes) (a b c d : Z) : list event :=
  [CipherEncrypt secret [a] nonce; CipherEncrypt secret [b] nonce;
   CipherEncrypt secret [c] nonce; CipherEncrypt secret [d] nonce].

Definition same_keys (c c' : ArciumClient) : Prop :=
  programId c' = programId c /\ privateKey c' = privateKey c /\ publicKey c' = publicKey c.

(** [w'] is [w] after the events [evs]. *)
Definition extends (w w' : World) (evs : list event) : Prop :=
  entropy w' = entropy w /\ ledger w' = ledger w /\ now w' = now w /\
  finalization w' = finalization w /\ trace w' = (trace w ++ evs)%list.

(** What every step keeps: the keys of the client, a key of the cluster
    once it is cached (and then no further read of the ledger), the tape
    of the random source, which is only read forward. *)
Definition evolves (s s' : St) : Prop :=
  same_keys (this s) (this s') /\
  (forall k, mxePublicKey (this s) = Some k ->
     mxePublicKey (this s') = Some k /\
     fetch_count (trace (world s')) = fetch_count (trace (world s))) /\
  entropy (world s') = entropy (world s) /\
  (rng_pos (world s) <= rng_pos (world s'))%nat.

(** The sign bit is clear, and the number is not [NaN]. *)
Definition sign_plus (x : number) : bool :=
  match x with
  | S754_zero s | S754_finite s _ _ | S754_infinity s => negb s
  | S754_nan => false
  end.

(** [x] is a double: its mantissa and exponent are those of binary64. *)
Definition valid (x : number) : bool := valid_binary b64_prec b64_emax x.

Definition leb : number -> number -> bool := SFleb.

(** A finite double in units of 2^-1074, the smallest positive double: an
    integer, for a double of binary64. *)
Definition units (x : number) : Z :=
  match x with
  | S754_finite s m e => (if s then Z.neg m else Z.pos m) * 2 ^ (e + 1074)
  | _ => 0
  end.

(** [a] units are what three roundings make of the quotient [n / d] of
    units: [n / d * (1 - 2^-52)^3 - 1 <= a <= n / d * (1 + 2^-52)^3 + 1],
    for [d] above zero. *)
Definition three_roundings (a n d : Z) : Prop :=
  (2 ^ 52 - 1) ^ 3 * n <= 2 ^ 156 * d * (a + 1) /\
  2 ^ 156 * d * (a - 1) <= (2 ^ 52 + 1) ^ 3 * n.

(** [x] is not zero and at least [2^(k-1)] in absolute value. *)
Definition mag_ge (k : Z) (x : number) : Prop :=
  match x with
  | S754_finite _ m e => k <= Zdigits2 (Z.pos m) + e
  | S754_infinity _ => True
  | _ => False
  end.

Definition is_ready (o : mxe_outcome) : bool :=
  match o with KeyReady _ => true | _ => false end.

(** The error [getMXEPublicKeyWithRetry] ends with. *)
Definition exhausted (maxRetries : nat) : error :=
  Error ("Failed to fetch MXE public key after " ++ string_of_nat maxRetries ++ " attempts").

(* ================================================================== *)
(** ** Further observations on the client *)
(* ================================================================== *)

Definition is_account (r : rpc_reply) : bool :=
  match r with Account _ => true | _ => false end.

(** What a failed read of the account of the cluster is caught with. *)
Definition fetch_failure (r : rpc_reply) : error :=
  match r with
  | RpcFailure e => e
  | _ => Error "MXE config account not found"
  end.

Definition is_decrypt (e : event) : bool :=
  match e with CipherDecrypt _ _ _ => true | _ => false end.

Definition decrypt_calls (tr : list event) : list event := filter is_decrypt tr.

(** The five calls into the cipher of one [decryptPosition]. *)
Definition five_calls (secret nonce : bytes) (data : EncryptedPosition) : list event :=
  [CipherDecrypt secret [Array_from (ct_side data)] nonce;
   CipherDecrypt secret [Array_from (ct_sizeUsd data)] nonce;
   CipherDecrypt secret [Array_from (ct_collateral data)] nonce;
   CipherDecrypt secret [Array_from (ct_entryPrice data)] nonce;
   CipherDecrypt secret [Array_from (ct_leverage data)] nonce].

Definition is_await (e : event) : bool :=
  match e with AwaitFinalization _ => true | _ => false end.

Definition is_toast (e : event) : bool :=
  match e with ToastInfo _ _ => true | _ => false end.

(* ================================================================== *)
(** * Properties *)
(* ================================================================== *)

(** ** The rounding of binary64 *)

Lemma iter_pos_iter {A} (f : A -> A) (p : positive) (x : A) :
  iter_pos f p x = Pos.iter f x p.
Proof.
  revert x; induction p as [p IH | p IH |]; intros x; simpl.
  - rewrite !IH. rewrite !Pos.iter_swap. reflexivity.
  - rewrite !IH. reflexivity.
  - reflexivity.
Qed.

Lemma shr_1_m (r : shr_record) :
  0 <= shr_m r -> shr_m (shr_1 r) = shr_m r / 2.
Proof.
  destruct r as [m b s]; simpl; intros Hm.
  rewrite <- Z.div2_div.
  destruct m as [| [p | p |] | p]; simpl; try reflexivity; lia.
Qed.

Lemma shr_iter_m (p : positive) (r : shr_record) :
  0 <= shr_m r -> shr_m (iter_pos shr_1 p r) = shr_m r / 2 ^ Z.pos p.
Proof.
  intros Hm. rewrite iter_pos_iter.
  induction p as [| p IH] using Pos.peano_ind.
  - simpl Pos.iter. rewrite shr_1_m by assumption. reflexivity.
  - rewrite Pos.iter_succ, shr_1_m.
    + rewrite IH, Z.div_div by lia.
      rewrite Pos2Z.inj_succ, Z.pow_succ_r by lia.
      f_equal; lia.
    + rewrite IH. apply Z.div_pos; lia.
Qed.

Lemma shr_record_of_loc_m m l : shr_m (shr_record_of_loc m l) = m.
Proof. destruct l as [| []]; reflexivity. Qed.

(** The mantissa and the exponent after the shift of [shr_fexp]. *)
Lemma shr_fexp_spec (m e : Z) (l : location) :
  0 <= m ->
  let n := fexp b64_prec b64_emax (Zdigits2 m + e) - e in
  shr_m (fst (shr_fexp b64_prec b64_emax m e l)) = (if 0 <? n then m / 2 ^ n else m) /\
  snd (shr_fexp b64_prec b64_emax m e l) = (if 0 <? n then e + n else e).
Proof.
  intros Hm n. unfold shr_fexp. fold n.
  destruct n as [| p | p]; simpl.
  - split; [apply shr_record_of_loc_m | reflexivity].
  - split; [| reflexivity].
    rewrite shr_iter_m; rewrite shr_record_of_loc_m; [reflexivity | assumption].
  - split; [apply shr_record_of_loc_m | reflexivity].
Qed.

Lemma Zdigits2_log2 (m : Z) : 0 < m -> Zdigits2 m = Z.log2 m + 1.
Proof.
  destruct m as [| p | p]; try lia. intros _. simpl.
  induction p as [p IH | p IH |]; simpl in *; try reflexivity;
    rewrite Pos2Z.inj_succ, IH; destruct p; simpl; lia.
Qed.

Lemma Zdigits2_bounds (m : Z) :
  0 < m -> 2 ^ (Zdigits2 m - 1) <= m < 2 ^ Zdigits2 m.
Proof.
  intros Hm. rewrite Zdigits2_log2 by assumption.
  replace (Z.log2 m + 1 - 1) with (Z.log2 m) by lia.
  apply Z.log2_spec; assumption.
Qed.

Lemma Zdigits2_nonneg (m : Z) : 0 <= Zdigits2 m.
Proof. destruct m; simpl; lia. Qed.

Lemma round_nearest_even_bounds m l :
  m <= round_nearest_even m l <= m + 1.
Proof.
  destruct l as [| []]; simpl; try lia.
  destruct (Z.even m); lia.
Qed.

(** After the first shift the mantissa has at most 53 bits. *)
Lemma shr_fexp_small (m e : Z) (l : location) :
  0 <= m ->
  0 <= shr_m (fst (shr_fexp b64_prec b64_emax m e l)) < 2 ^ 53.
Proof.
  intros Hm.
  destruct (shr_fexp_spec m e l Hm) as [-> _].
  assert (H53 : 0 < 2 ^ 53) by (apply Z.pow_pos_nonneg; lia).
  destruct (Z.eq_dec m 0) as [-> | Hnz].
  { destruct (0 <? _); [rewrite Zdiv_0_l |]; lia. }
  assert (Hpos : 0 < m) by lia.
  pose proof (Zdigits2_bounds m Hpos) as [_ Hlt].
  pose proof (Zdigits2_nonneg m) as Hd.
  set (d := Zdigits2 m) in *.
  unfold fexp, b64_prec, b64_emax, emin.
  destruct (Z.ltb_spec 0 (Z.max (d + e - 53) (3 - 1024 - 53) - e)) as [Hn | Hn].
  - set (n := Z.max (d + e - 53) (3 - 1024 - 53) - e) in *.
    split; [apply Z.div_pos; lia |].
    apply Z.div_lt_upper_bound; [lia |].
    rewrite <- Z.pow_add_r by lia.
    eapply Z.lt_le_trans; [exact Hlt |].
    apply Z.pow_le_mono_r; lia.
  - split; [lia |].
    eapply Z.lt_le_trans; [exact Hlt |].
    apply Z.pow_le_mono_r; lia.
Qed.

(** The mantissa after the second shift, which absorbs the carry of the
    rounding, has at most 53 bits again. *)
Lemma shr_fexp_carry (m e : Z) :
  0 <= m <= 2 ^ 53 ->
  0 <= shr_m (fst (shr_fexp b64_prec b64_emax m e loc_Exact)) < 2 ^ 53.
Proof.
  intros [Hm Hle].
  assert (H53 : 2 ^ 53 = 9007199254740992) by reflexivity.
  destruct (Z.eq_dec m (2 ^ 53)) as [-> | Hne].
  - destruct (shr_fexp_spec (2 ^ 53) e loc_Exact) as [-> _]; [lia |].
    replace (Zdigits2 (2 ^ 53)) with 54 by reflexivity.
    unfold fexp, b64_prec, b64_emax, emin.
    destruct (Z.ltb_spec 0 (Z.max (54 + e - 53) (3 - 1024 - 53) - e)) as [Hn | Hn]; [| lia].
    set (n := Z.max (54 + e - 53) (3 - 1024 - 53) - e) in *.
    split; [apply Z.div_pos; lia |].
    apply Z.div_lt_upper_bound; [apply Z.pow_pos_nonneg; lia |].
    assert (2 ^ 1 <= 2 ^ n) by (apply Z.pow_le_mono_r; lia).
    change (2 ^ 1) with 2 in *. nia.
  - pose proof (shr_fexp_small m e loc_Exact Hm) as Hs.
    destruct (shr_fexp_spec m e loc_Exact Hm) as [Heq _].
    rewrite Heq in *.
    destruct (0 <? _); lia.
Qed.

Lemma binary_round_aux_cases (sx : bool) (mx ex : Z) (lx : location) :
  0 <= mx ->
  let r := binary_round_aux b64_prec b64_emax sx mx ex lx in
  r = S754_zero sx \/ r = S754_infinity sx \/
  exists m e, r = S754_finite sx m e /\ Z.pos m < 2 ^ 53.
Proof.
  intros Hm r. subst r. unfold binary_round_aux.
  pose proof (shr_fexp_small mx ex lx Hm) as H1.
  destruct (shr_fexp b64_prec b64_emax mx ex lx) as [mrs' e'].
  simpl fst in H1.
  pose proof (round_nearest_even_bounds (shr_m mrs') (loc_of_shr_record mrs')) as H2.
  set (m2 := round_nearest_even (shr_m mrs') (loc_of_shr_record mrs')) in *.
  pose proof (shr_fexp_carry m2 e') as H3.
  destruct (shr_fexp b64_prec b64_emax m2 e' loc_Exact) as [mrs'' e''].
  simpl fst in H3.
  assert (H4 : 0 <= shr_m mrs'' < 2 ^ 53) by (apply H3; lia).
  destruct (shr_m mrs'') as [| m | m].
  - left; reflexivity.
  - destruct (e'' <=? b64_emax - b64_prec).
    + right; right. exists m, e''. split; [reflexivity | lia].
    + right; left; reflexivity.
  - lia.
Qed.

(** A mantissa that is in place is left as it is. *)
Lemma binary_round_aux_canonical (s : bool) (m : positive) (e : Z) :
  fexp b64_prec b64_emax (Zdigits2 (Z.pos m) + e) = e ->
  e <= b64_emax - b64_prec ->
  binary_round_aux b64_prec b64_emax s (Z.pos m) e loc_Exact = S754_finite s m e.
Proof.
  intros Hc He. unfold binary_round_aux, shr_fexp.
  rewrite Hc, Z.sub_diag. cbn [shr shr_record_of_loc shr_m loc_of_shr_record round_nearest_even].
  rewrite Hc, Z.sub_diag. cbn [shr shr_record_of_loc shr_m].
  apply Z.leb_le in He. rewrite He. reflexivity.
Qed.

Lemma shift_pos_digits (k m : positive) :
  Zdigits2 (Z.pos (shift_pos k m)) = Zdigits2 (Z.pos m) + Z.pos k.
Proof.
  rewrite !Zdigits2_log2 by lia.
  rewrite shift_pos_correct, Z.pow_pos_fold, Z.mul_comm.
  rewrite Z.log2_mul_pow2 by lia. lia.
Qed.

(** An integer of at most 53 bits is a number, and [BigInt] reads it back. *)
Lemma BigInt_binary_normalize (z : Z) (s : bool) :
  Z.abs z < 2 ^ 53 ->
  BigInt (binary_normalize b64_prec b64_emax z 0 s) = Ok z.
Proof.
  intros Hz.
  assert (Hgen : forall (sg : bool) (p : positive), Z.pos p < 2 ^ 53 ->
            BigInt (binary_round b64_prec b64_emax sg p 0)
            = Ok (if sg then Z.neg p else Z.pos p)).
  { clear. intros sg p Hp.
    pose proof (Zdigits2_bounds (Z.pos p) ltac:(lia)) as [Hlo _].
    pose proof (Zdigits2_nonneg (Z.pos p)) as Hd0.
    assert (Hd1 : 1 <= Zdigits2 (Z.pos p)) by (simpl; lia).
    assert (Hd : Zdigits2 (Z.pos p) <= 53).
    { destruct (Z.le_gt_cases (Zdigits2 (Z.pos p)) 53) as [|Hgt]; [assumption|].
      exfalso.
      assert (2 ^ 53 <= 2 ^ (Zdigits2 (Z.pos p) - 1)) by (apply Z.pow_le_mono_r; lia).
      lia. }
    unfold binary_round.
    change (Z.pos (digits2_pos p)) with (Zdigits2 (Z.pos p)).
    set (d := Zdigits2 (Z.pos p)) in *.
    assert (Hf : fexp b64_prec b64_emax (d + 0) = d - 53).
    { unfold fexp, emin, b64_prec, b64_emax. lia. }
    rewrite Hf. unfold shl_align.
    destruct (d - 53 - 0) as [| k | k] eqn:Hk; try lia.
    - rewrite binary_round_aux_canonical.
      + simpl. rewrite Z.mul_1_r. destruct sg; reflexivity.
      + fold d. rewrite Hf. lia.
      + unfold b64_emax, b64_prec. lia.
    - change (Pos.iter xO p k) with (shift_pos k p).
      rewrite binary_round_aux_canonical.
      + unfold BigInt.
        assert (Hneg : d - 53 < 0) by lia.
        apply Z.leb_gt in Hneg. rewrite Hneg.
        replace (- (d - 53)) with (Z.pos k) by lia.
        assert (Hv : (if sg then Z.neg (shift_pos k p) else Z.pos (shift_pos k p))
                     = (if sg then Z.neg p else Z.pos p) * 2 ^ Z.pos k).
        { pose proof (shift_pos_correct k p) as Hs. rewrite Z.pow_pos_fold in Hs.
          destruct sg; [rewrite <- !Pos2Z.opp_pos, Hs | rewrite Hs]; ring. }
        rewrite Hv.
        rewrite Z.mod_mul by (apply Z.pow_nonzero; lia).
        rewrite Z.eqb_refl.
        rewrite Z.div_mul by (apply Z.pow_nonzero; lia).
        reflexivity.
      + rewrite shift_pos_digits. fold d.
        unfold fexp, emin, b64_prec, b64_emax. lia.
      + unfold b64_emax, b64_prec. lia. }
  destruct z as [| p | p]; simpl.
  - reflexivity.
  - apply (Hgen false p). lia.
  - apply (Hgen true p). lia.
Qed.

(** [BigInt(Math.floor(y))] is the integer part of a finite [y] whose
    mantissa has at most 53 bits. *)
Lemma BigInt_Math_floor (y : number) (z : Z) :
  (forall s m e, y = S754_finite s m e -> Z.pos m < 2 ^ 53) ->
  floorZ y = Some z ->
  BigInt (Math_floor y) = Ok z.
Proof.
  intros Hy Hz. destruct y as [s | s | | s m e]; simpl in *; try discriminate.
  - injection Hz as <-. reflexivity.
  - injection Hz as <-.
    destruct (Z.leb_spec 0 e) as [He | He].
    + simpl. apply Z.leb_le in He. rewrite He. reflexivity.
    + apply BigInt_binary_normalize.
      specialize (Hy s m e eq_refl).
      assert (Hp : 0 < 2 ^ (- e)) by (apply Z.pow_pos_nonneg; lia).
      assert (H1 : 1 <= 2 ^ (- e)) by lia.
      destruct s.
      * assert (Z.neg m <= Z.neg m / 2 ^ (- e)).
        { apply Z.div_le_lower_bound; [lia | nia]. }
        assert (Z.neg m / 2 ^ (- e) < 0) by (apply Z.div_lt_upper_bound; lia).
        lia.
      * assert (0 <= Z.pos m / 2 ^ (- e)) by (apply Z.div_pos; lia).
        assert (Z.pos m / 2 ^ (- e) <= Z.pos m).
        { apply Z.div_le_upper_bound; [lia | nia]. }
        lia.
Qed.

(** ** Signs in binary64 *)

Lemma binary_round_aux_plus (mx ex : Z) (lx : location) :
  0 <= mx -> sign_plus (binary_round_aux b64_prec b64_emax false mx ex lx) = true.
Proof.
  intros Hm.
  destruct (binary_round_aux_cases false mx ex lx Hm) as [-> | [-> | (m & e & -> & _)]];
    reflexivity.
Qed.

Lemma binary_round_aux_opp (s : bool) (mx ex : Z) (lx : location) :
  binary_round_aux b64_prec b64_emax (negb s) mx ex lx
  = SFopp (binary_round_aux b64_prec b64_emax s mx ex lx).
Proof.
  unfold binary_round_aux.
  destruct (shr_fexp b64_prec b64_emax mx ex lx) as [mrs' e'].
  destruct (shr_fexp b64_prec b64_emax _ e' loc_Exact) as [mrs'' e''].
  destruct (shr_m mrs''); try reflexivity.
  destruct (e'' <=? b64_emax - b64_prec); reflexivity.
Qed.

(** The sign of a product goes with the sign of its factor. *)
Lemma mul_neg_l (x y : number) : Js.mul (Js.neg x) y = Js.neg (Js.mul x y).
Proof.
  unfold Js.mul, Js.neg.
  destruct x as [sx | sx | | sx mx ex], y as [sy | sy | | sy my ey]; cbn [SFmul SFopp];
    try reflexivity; try (rewrite <- negb_xorb_l; reflexivity).
  rewrite <- negb_xorb_l. apply binary_round_aux_opp.
Qed.

Lemma mul_plus (x y : number) (my : positive) (ey : Z) :
  sign_plus x = true -> y = S754_finite false my ey ->
  sign_plus (Js.mul x y) = true.
Proof.
  intros Hx ->. unfold Js.mul.
  destruct x as [sx | sx | | sx mx ex]; cbn [SFmul sign_plus] in *; try discriminate;
    destruct sx; try discriminate; try reflexivity.
  apply binary_round_aux_plus. lia.
Qed.

Lemma div_plus (x y : number) (my : positive) (ey : Z) :
  sign_plus x = true -> y = S754_finite false my ey ->
  sign_plus (Js.div x y) = true.
Proof.
  intros Hx ->. unfold Js.div.
  destruct x as [sx | sx | | sx mx ex]; cbn [SFdiv sign_plus] in *; try discriminate;
    destruct sx; try discriminate; try reflexivity.
  unfold SFdiv_core_binary.
  match goal with
  | |- context [Z.div_eucl ?a ?b] =>
      pose proof (Z_div_mod a b ltac:(lia)) as Hdiv;
      assert (Ha : 0 <= a);
      [| destruct (Z.div_eucl a b) as [q r] ]
  end.
  { destruct (_ - _ - _) as [| p | p]; try lia. rewrite Z.shiftl_mul_pow2 by lia.
    apply Z.mul_nonneg_nonneg; [lia | apply Z.pow_nonneg; lia]. }
  cbn [xorb]. apply binary_round_aux_plus.
  destruct Hdiv as [Heq Hr]. nia.
Qed.

(** ** Magnitudes in binary64 *)

Lemma Zdigits2_pos (m : Z) : 0 < m -> 0 < Zdigits2 m.
Proof. destruct m; simpl; lia. Qed.

Lemma Zdigits2_mono (a b : Z) : 0 < a -> a <= b -> Zdigits2 a <= Zdigits2 b.
Proof.
  intros Ha Hab. rewrite !Zdigits2_log2 by lia.
  pose proof (Z.log2_le_mono a b Hab). lia.
Qed.

Lemma Zdigits2_mul_pow2 (m n : Z) :
  0 < m -> 0 <= n -> Zdigits2 (m * 2 ^ n) = Zdigits2 m + n.
Proof.
  intros Hm Hn.
  assert (0 < 2 ^ n) by (apply Z.pow_pos_nonneg; lia).
  rewrite !Zdigits2_log2 by nia. rewrite Z.log2_mul_pow2 by lia. lia.
Qed.

Lemma Zdigits2_mul_ge (a b : Z) :
  0 < a -> 0 < b -> Zdigits2 a + Zdigits2 b - 1 <= Zdigits2 (a * b).
Proof.
  intros Ha Hb. rewrite !Zdigits2_log2 by nia.
  pose proof (Z.log2_mul_below a b Ha Hb). lia.
Qed.

Lemma Zdigits2_ge (m k : Z) : 0 < m -> 0 <= k -> 2 ^ k <= m -> k + 1 <= Zdigits2 m.
Proof.
  intros Hm Hk H. rewrite Zdigits2_log2 by lia.
  apply Z.log2_le_pow2 in H; lia.
Qed.

Lemma Zdigits2_div_pow2 (m n : Z) :
  0 < m -> 0 <= n < Zdigits2 m ->
  0 < m / 2 ^ n /\ Zdigits2 (m / 2 ^ n) = Zdigits2 m - n.
Proof.
  intros Hm Hn.
  pose proof (Zdigits2_bounds m Hm) as [Hlo _].
  assert (Hp : 0 < 2 ^ n) by (apply Z.pow_pos_nonneg; lia).
  assert (Hq : 0 < m / 2 ^ n).
  { apply Z.div_str_pos. split; [lia |].
    eapply Z.le_trans; [| exact Hlo]. apply Z.pow_le_mono_r; lia. }
  split; [exact Hq |].
  rewrite !Zdigits2_log2 by lia.
  rewrite <- Z.shiftr_div_pow2 by lia.
  rewrite Z.log2_shiftr by lia.
  rewrite Zdigits2_log2 in Hn by lia. lia.
Qed.

(** A quotient has at least the digits its terms differ by. *)
Lemma Zdigits2_quot_ge (a b : Z) :
  0 < a -> 0 < b -> Zdigits2 b < Zdigits2 a ->
  0 < a / b /\ Zdigits2 a - Zdigits2 b <= Zdigits2 (a / b).
Proof.
  intros Ha Hb Hd.
  pose proof (Zdigits2_bounds a Ha) as [Hlo _].
  pose proof (Zdigits2_bounds b Hb) as [_ Hhi].
  set (k := Zdigits2 a - 1 - Zdigits2 b) in *.
  assert (Hk : 0 <= k) by (unfold k; lia).
  assert (Hq : 2 ^ k <= a / b).
  { apply Z.div_le_lower_bound; [lia |].
    assert (Hsplit : 2 ^ (Zdigits2 a - 1) = 2 ^ Zdigits2 b * 2 ^ k).
    { rewrite <- Z.pow_add_r; [f_equal; unfold k; lia | | lia].
      apply Zdigits2_nonneg. }
    assert (0 < 2 ^ k) by (apply Z.pow_pos_nonneg; lia).
    nia. }
  assert (0 < 2 ^ k) by (apply Z.pow_pos_nonneg; lia).
  split; [lia |].
  pose proof (Zdigits2_ge (a / b) k ltac:(lia) Hk Hq). unfold k in *. lia.
Qed.

Lemma emin64 : emin b64_prec b64_emax = -1074.
Proof. reflexivity. Qed.

(** A shift to the exponent of the format keeps a mantissa that is large
    enough positive, and keeps its magnitude. *)
Lemma shr_fexp_mag (m e : Z) (l : location) :
  0 < m -> -1074 < Zdigits2 m + e ->
  0 < shr_m (fst (shr_fexp b64_prec b64_emax m e l)) /\
  Zdigits2 (shr_m (fst (shr_fexp b64_prec b64_emax m e l)))
  + snd (shr_fexp b64_prec b64_emax m e l) = Zdigits2 m + e.
Proof.
  intros Hm Hmag.
  destruct (shr_fexp_spec m e l ltac:(lia)) as [-> ->].
  pose proof (Zdigits2_pos m Hm) as Hd.
  unfold fexp. rewrite emin64. unfold b64_prec.
  destruct (Z.ltb_spec 0 (Z.max (Zdigits2 m + e - 53) (-1074) - e)) as [Hn | Hn].
  - destruct (Zdigits2_div_pow2 m (Z.max (Zdigits2 m + e - 53) (-1074) - e) Hm ltac:(lia))
      as [Hq Hdq].
    split; [exact Hq | lia].
  - split; [exact Hm | reflexivity].
Qed.

(** What the rounding of a positive mantissa of magnitude above the
    smallest exponent gives: not zero, and no smaller a magnitude. *)
Lemma binary_round_aux_mag (s : bool) (mx ex : Z) (lx : location) :
  0 < mx -> -1074 < Zdigits2 mx + ex ->
  let r := binary_round_aux b64_prec b64_emax s mx ex lx in
  r = S754_infinity s \/
  exists m e, r = S754_finite s m e /\ Zdigits2 mx + ex <= Zdigits2 (Z.pos m) + e.
Proof.
  intros Hm Hmag r. subst r. unfold binary_round_aux.
  pose proof (shr_fexp_mag mx ex lx Hm Hmag) as [H1 M1].
  destruct (shr_fexp b64_prec b64_emax mx ex lx) as [mrs' e'].
  cbn [fst snd] in H1, M1.
  pose proof (round_nearest_even_bounds (shr_m mrs') (loc_of_shr_record mrs')) as H2.
  set (m2 := round_nearest_even (shr_m mrs') (loc_of_shr_record mrs')) in *.
  assert (Hm2 : 0 < m2) by lia.
  pose proof (Zdigits2_mono (shr_m mrs') m2 H1 ltac:(lia)) as Hd2.
  pose proof (shr_fexp_mag m2 e' loc_Exact Hm2 ltac:(lia)) as [H3 M3].
  destruct (shr_fexp b64_prec b64_emax m2 e' loc_Exact) as [mrs'' e''].
  cbn [fst snd] in H3, M3.
  destruct (shr_m mrs'') as [| m | m]; try lia.
  destruct (e'' <=? b64_emax - b64_prec).
  - right. exists m, e''. split; [reflexivity | lia].
  - left; reflexivity.
Qed.

Lemma valid_finite (s : bool) (m : positive) (e : Z) :
  valid (S754_finite s m e) = true ->
  -1074 <= e <= 971 /\ Zdigits2 (Z.pos m) <= 53 /\
  (-1074 < e -> Zdigits2 (Z.pos m) = 53).
Proof.
  unfold valid, valid_binary, bounded, canonical_mantissa.
  intros H. apply andb_true_iff in H as [Hc Hb].
  apply Z.eqb_eq in Hc. apply Z.leb_le in Hb.
  unfold fexp in Hc. rewrite emin64 in Hc. unfold b64_prec, b64_emax in *.
  change (Z.pos (digits2_pos m)) with (Zdigits2 (Z.pos m)) in Hc. lia.
Qed.

Lemma mul_mag (x y : number) (k : Z) (my : positive) (ey : Z) :
  sign_plus x = true -> mag_ge k x -> y = S754_finite false my ey ->
  -1074 < k + (Zdigits2 (Z.pos my) + ey) - 1 ->
  sign_plus (Js.mul x y) = true /\
  mag_ge (k + (Zdigits2 (Z.pos my) + ey) - 1) (Js.mul x y).
Proof.
  intros Hx Hk -> Hmag. unfold Js.mul.
  destruct x as [sx | sx | | sx mx ex]; cbn [SFmul sign_plus mag_ge] in *;
    try contradiction; destruct sx; try discriminate; cbn [xorb].
  - split; [reflexivity | exact I].
  - pose proof (Zdigits2_mul_ge (Z.pos mx) (Z.pos my) ltac:(lia) ltac:(lia)) as Hd.
    change (Z.pos mx * Z.pos my) with (Z.pos (mx * my)) in Hd.
    destruct (binary_round_aux_mag false (Z.pos (mx * my)) (ex + ey) loc_Exact
                ltac:(lia) ltac:(lia)) as [-> | (m & e & -> & Hm)].
    + split; [reflexivity | exact I].
    + split; [reflexivity | cbn [mag_ge]; lia].
Qed.

Lemma div_mag (x y : number) (k : Z) (my : positive) (ey : Z) :
  sign_plus x = true -> mag_ge k x -> y = S754_finite false my ey ->
  -1074 < k - (Zdigits2 (Z.pos my) + ey) ->
  sign_plus (Js.div x y) = true /\
  mag_ge (k - (Zdigits2 (Z.pos my) + ey)) (Js.div x y).
Proof.
  intros Hx Hk -> Hmag. unfold Js.div.
  destruct x as [sx | sx | | sx mx ex]; cbn [SFdiv sign_plus mag_ge] in *;
    try contradiction; destruct sx; try discriminate; cbn [xorb].
  - split; [reflexivity | exact I].
  - unfold SFdiv_core_binary.
    set (d1 := Zdigits2 (Z.pos mx)) in *. set (d2 := Zdigits2 (Z.pos my)) in *.
    set (e' := Z.min (fexp b64_prec b64_emax (d1 + ex - (d2 + ey))) (ex - ey)).
    pose proof (Zdigits2_pos (Z.pos mx) ltac:(lia)) as Hd1. fold d1 in Hd1.
    pose proof (Zdigits2_pos (Z.pos my) ltac:(lia)) as Hd2. fold d2 in Hd2.
    assert (He' : 0 <= ex - ey - e' /\ d2 < d1 + (ex - ey - e')).
    { subst e'. unfold fexp. rewrite emin64. unfold b64_prec. lia. }
    set (sh := ex - ey - e') in *.
    set (m' := match sh with
               | 0 => Z.pos mx
               | Z.pos _ => Z.shiftl (Z.pos mx) sh
               | Z.neg _ => 0
               end).
    assert (Hm' : m' = Z.pos mx * 2 ^ sh).
    { subst m'. destruct sh as [| p | p] eqn:Hsh;
        [ change (2 ^ 0) with 1; lia
        | rewrite Z.shiftl_mul_pow2 by lia; reflexivity
        | lia ]. }
    assert (Hpos' : 0 < m').
    { rewrite Hm'. apply Z.mul_pos_pos; [lia | apply Z.pow_pos_nonneg; lia]. }
    assert (Hdm : Zdigits2 m' = d1 + sh).
    { rewrite Hm'. apply Zdigits2_mul_pow2; lia. }
    destruct (Zdigits2_quot_ge m' (Z.pos my) Hpos' ltac:(lia) ltac:(fold d2; lia))
      as [Hq Hdq].
    fold d2 in Hdq.
    pose proof (Z_div_mod m' (Z.pos my) ltac:(lia)) as Hdiv.
    unfold Z.div in Hq, Hdq.
    destruct (Z.div_eucl m' (Z.pos my)) as [q r]. cbn [fst] in Hq, Hdq.
    destruct (binary_round_aux_mag false q e' (new_location (Z.pos my) r)
                Hq ltac:(subst sh; lia)) as [-> | (m & e & -> & Hm)].
    + split; [reflexivity | exact I].
    + split; [reflexivity | cbn [mag_ge]; subst sh; lia].
Qed.

Lemma shl_align_spec (m : positive) (e e' : Z) :
  Z.pos (fst (shl_align m e e')) = Z.pos m * 2 ^ (Z.max 0 (e - e')) /\
  snd (shl_align m e e') = Z.min e e'.
Proof.
  unfold shl_align.
  destruct (e' - e) as [| d | d] eqn:Hd; cbn [fst snd].
  - replace (Z.max 0 (e - e')) with 0 by lia. change (2 ^ 0) with 1. lia.
  - replace (Z.max 0 (e - e')) with 0 by lia. change (2 ^ 0) with 1. lia.
  - change (Pos.iter xO m d) with (shift_pos d m).
    rewrite shift_pos_correct, Z.pow_pos_fold.
    replace (Z.max 0 (e - e')) with (Z.pos d) by lia. lia.
Qed.

(** Rounding a positive integer times a power of two, as addition and
    subtraction do at the end. *)
Lemma binary_round_mag (p : positive) (e : Z) :
  -1074 < Zdigits2 (Z.pos p) + e ->
  sign_plus (binary_round b64_prec b64_emax false p e) = true /\
  mag_ge (Zdigits2 (Z.pos p) + e) (binary_round b64_prec b64_emax false p e).
Proof.
  intros Hmag. unfold binary_round.
  pose proof (shl_align_spec p e (fexp b64_prec b64_emax (Z.pos (digits2_pos p) + e)))
    as [Hv He].
  destruct (shl_align p e _) as [mz ez]. cbn [fst snd] in Hv, He.
  assert (Hd : Zdigits2 (Z.pos mz) + ez = Zdigits2 (Z.pos p) + e).
  { rewrite Hv, Zdigits2_mul_pow2 by lia. lia. }
  destruct (binary_round_aux_mag false (Z.pos mz) ez loc_Exact ltac:(lia) ltac:(lia))
    as [-> | (m & e0 & -> & Hm)].
  - split; [reflexivity | exact I].
  - split; [reflexivity | cbn [mag_ge]; lia].
Qed.

(** The difference of two doubles, the larger first: positive, and at
    least one unit of the exponent of the smaller. *)
Lemma sub_mag (mm me : positive) (em ee : Z) :
  valid (S754_finite false mm em) = true ->
  valid (S754_finite false me ee) = true ->
  Js.ltb (S754_finite false me ee) (S754_finite false mm em) = true ->
  sign_plus (Js.sub (S754_finite false mm em) (S754_finite false me ee)) = true /\
  mag_ge (1 + ee) (Js.sub (S754_finite false mm em) (S754_finite false me ee)).
Proof.
  intros Vm Ve Hlt.
  destruct (valid_finite _ _ _ Vm) as (Hem & Hdm & Hnm).
  destruct (valid_finite _ _ _ Ve) as (Hee & Hde & _).
  assert (Hcmp : ee < em \/ (ee = em /\ Z.pos me < Z.pos mm)).
  { unfold Js.ltb, SFltb, SFcompare in Hlt.
    destruct (Z.compare_spec ee em) as [Heq | Hl | Hg]; try discriminate.
    - right. split; [exact Heq |].
      change (Pos.compare_cont Eq me mm) with (Pos.compare me mm) in Hlt.
      destruct (Pos.compare_spec me mm); try discriminate. lia.
    - left; exact Hl. }
  unfold Js.sub, SFsub. cbn [cond_Zopp].
  pose proof (shl_align_spec mm em (Z.min em ee)) as [Hvm _].
  pose proof (shl_align_spec me ee (Z.min em ee)) as [Hve _].
  set (D := Z.pos (fst (shl_align mm em (Z.min em ee)))
            - Z.pos (fst (shl_align me ee (Z.min em ee)))).
  assert (HD : 0 < D).
  { subst D. rewrite Hvm, Hve.
    destruct Hcmp as [Hl | [-> Hl]].
    - replace (Z.max 0 (ee - Z.min em ee)) with 0 by lia.
      replace (Z.max 0 (em - Z.min em ee)) with (em - ee) by lia.
      change (2 ^ 0) with 1.
      pose proof (Zdigits2_bounds (Z.pos mm) ltac:(lia)) as [Hlo _].
      pose proof (Zdigits2_bounds (Z.pos me) ltac:(lia)) as [_ Hhi].
      rewrite (Hnm ltac:(lia)) in Hlo. change (2 ^ (53 - 1)) with 4503599627370496 in Hlo.
      assert (Z.pos me < 2 ^ 53).
      { eapply Z.lt_le_trans; [exact Hhi |]. apply Z.pow_le_mono_r; lia. }
      change (2 ^ 53) with 9007199254740992 in *.
      assert (2 ^ 1 <= 2 ^ (em - ee)) by (apply Z.pow_le_mono_r; lia).
      change (2 ^ 1) with 2 in *. nia.
    - replace (Z.max 0 (em - Z.min em em)) with 0 by lia. change (2 ^ 0) with 1. lia. }
  replace (Z.min em ee) with ee in * by lia.
  destruct D as [| p | p]; try lia. cbn [binary_normalize].
  pose proof (Zdigits2_pos (Z.pos p) ltac:(lia)) as Hp.
  destruct (binary_round_mag p ee ltac:(lia)) as [Hs Hm].
  split; [exact Hs |].
  destruct (binary_round b64_prec b64_emax false p ee); cbn [mag_ge] in *;
    try contradiction; try exact I. lia.
Qed.

(** ** Scaling by six decimals *)

Lemma million : Js.of_Z 1000000 = S754_finite false 8589934592000000 (-33).
Proof. reflexivity. Qed.

(** [BigInt(Math.floor(x * 1_000_000))] for a non-negative [x] whose
    product is finite: the integer part of the product, not negative. *)
Lemma scale6_finite (x : number) :
  nonneg x = true ->
  is_finite (Js.mul x (Js.of_Z 1000000)) = true ->
  exists v, scale6 x = Ok v /\ floorZ (Js.mul x (Js.of_Z 1000000)) = Some v /\ 0 <= v.
Proof.
  intros Hx Hfin. unfold scale6. rewrite million in *.
  destruct x as [s | s | | s m e]; simpl in Hx; try discriminate.
  - exists 0. repeat split; solve [reflexivity | lia].
  - destruct s; try discriminate.
    unfold Js.mul, SFmul in *. cbn [xorb] in *.
    set (mx := Z.pos (m * 8589934592000000)) in *.
    destruct (binary_round_aux_cases false mx (e + -33) loc_Exact) as [Hr | [Hr | (m' & e' & Hr & Hm')]];
      [subst mx; lia | | | ]; rewrite Hr in *.
    + exists 0. repeat split; solve [reflexivity | lia].
    + discriminate.
    + assert (Hfl : exists v, floorZ (S754_finite false m' e') = Some v /\ 0 <= v).
      { unfold floorZ. eexists; split; [reflexivity |]. cbv beta zeta.
        destruct (Z.leb_spec 0 e').
        - apply Z.mul_nonneg_nonneg; [lia | apply Z.pow_nonneg; lia].
        - apply Z.div_pos; [lia | apply Z.pow_pos_nonneg; lia]. }
      destruct Hfl as (v & Hv & Hv0). exists v. repeat split; try assumption.
      apply BigInt_Math_floor; [| assumption].
      intros s0 m0 e0 Heq. injection Heq as <- <- <-. assumption.
Qed.

(** Beyond the range of binary64 the product is [Infinity], and [BigInt]
    throws. *)
Lemma scale6_overflow :
  scale6 (Js.dyadic 1 1023) = Throw (RangeError not_an_integer).
Proof. reflexivity. Qed.

Lemma scale6_examples :
  scale6 (Js.of_Z 1000) = Ok 1000000000 /\
  scale6 (Js.of_Z 100) = Ok 100000000 /\
  scale6 (Js.dyadic 285 (-1)) = Ok 142500000.
Proof. repeat split; reflexivity. Qed.

(** The product is the one of binary64, rounded to the nearest double
    before [Math.floor] sees it: for the double nearest to 4.35, which is
    [4897664594765414 * 2^-50], the product rounds to 4350000 while the
    exact product lies just below it. *)
Remark scale6_rounds :
  scale6 (Js.dyadic 4897664594765414 (-50)) = Ok 4350000 /\
  (4897664594765414 * 1000000) / 2 ^ 50 = 4349999.
Proof. split; reflexivity. Qed.

(** ** The key of the cluster *)

Lemma getMXEPublicKey_cached (L : ArciumLib) (s : St) (k : bytes) :
  mxePublicKey (this s) = Some k ->
  getMXEPublicKey L s = (Ok k, s).
Proof.
  intros Hk. unfold getMXEPublicKey, bind, gets. rewrite Hk. reflexivity.
Qed.

Lemma getMXEPublicKey_fetch (L : ArciumLib) (s : St) :
  mxePublicKey (this s) = None ->
  let s' := on_world (emit (GetAccountInfo (mxeConfigPda L s))) s in
  let failed e :=
    (Throw (Error "Could not initialize Arcium encryption"),
     on_world (emit (ConsoleError "Failed to fetch MXE public key:" e)) s') in
  getMXEPublicKey L s =
  match ledger (world s) (mxeConfigPda L s) with
  | Account data => (Ok (slice 8 40 data), set_mxePublicKey (slice 8 40 data) s')
  | NoAccount => failed (Error "MXE config account not found")
  | RpcFailure e => failed e
  end.
Proof.
  intros Hk. unfold getMXEPublicKey, bind, gets. rewrite Hk.
  unfold try_catch, bind, gets, getAccountInfo, mxeConfigPda.
  destruct (ledger (world s) _); reflexivity.
Qed.

(** A fetch of the key leaves the keys of the client and the random
    source alone, reads the ledger at most once and does not call the
    cipher; when it returns a key, the key is cached. *)
Lemma getMXEPublicKey_frame (L : ArciumLib) (s s0 : St) (r : result bytes) :
  getMXEPublicKey L s = (r, s0) ->
  same_keys (this s) (this s0) /\
  rng_pos (world s0) = rng_pos (world s) /\
  (forall k, r = Ok k -> mxePublicKey (this s0) = Some k) /\
  (forall e, r = Throw e -> mxePublicKey (this s0) = None) /\
  exists pre,
    extends (world s) (world s0) pre /\
    encrypt_calls pre = [] /\
    (fetch_count pre <= 1)%nat /\
    (mxePublicKey (this s) <> None -> pre = []).
Proof.
  intros H. destruct (mxePublicKey (this s)) as [k |] eqn:Hk.
  - rewrite (getMXEPublicKey_cached L s k Hk) in H. injection H as <- <-.
    repeat split; try congruence.
    exists []. unfold extends. rewrite app_nil_r. repeat split; auto.
  - rewrite (getMXEPublicKey_fetch L s Hk) in H.
    destruct (ledger (world s) (mxeConfigPda L s)); injection H as <- <-;
      (split; [unfold same_keys; simpl; auto |]);
      (split; [reflexivity |]);
      (split; [intros k' Hk'; try discriminate; injection Hk' as <-; reflexivity |]);
      (split; [intros e' He'; try discriminate; simpl; assumption |]);
      eexists; unfold extends; simpl; rewrite <- ?app_assoc;
      (repeat split; try reflexivity; simpl; try lia; congruence).
Qed.

(** ** What a successful [encryptTradeParams] has done *)

Lemma encryptTradeParams_inv (L : ArciumLib) (params : TradeParams) (s s1 : St)
      (enc : EncryptedTradeParams) :
  encryptTradeParams L params s = (Ok enc, s1) ->
  exists k s0 secret vsize vcoll vprice c1 c2 c3 c4,
    getMXEPublicKey L s = (Ok k, s0) /\
    x25519_getSharedSecret L (privateKey (this s0)) k = Ok secret /\
    scale6 (tp_sizeUsd params) = Ok vsize /\
    scale6 (tp_collateral params) = Ok vcoll /\
    scale6 (tp_entryPrice params) = Ok vprice /\
    let nonce := tape (world s0) 16 in
    let side := side_code (tp_side params) in
    rescue_encrypt L secret [side] nonce = Ok c1 /\
    rescue_encrypt L secret [vsize] nonce = Ok c2 /\
    rescue_encrypt L secret [vcoll] nonce = Ok c3 /\
    rescue_encrypt L secret [vprice] nonce = Ok c4 /\
    enc = {| enc_side := Uint8Array_of (nth 0 c1 []);
             enc_sizeUsd := Uint8Array_of (nth 0 c2 []);
             enc_collateral := Uint8Array_of (nth 0 c3 []);
             enc_entryPrice := Uint8Array_of (nth 0 c4 []);
             enc_publicKey := publicKey (this s0);
             enc_nonce := nonce |} /\
    this s1 = this s0 /\
    rng_pos (world s1) = (rng_pos (world s0) + 16)%nat /\
    extends (world s0) (world s1) (four_calls secret nonce side vsize vcoll vprice).
Proof.
  unfold encryptTradeParams. unfold bind at 1.
  destruct (getMXEPublicKey L s) as [[k | e] s0] eqn:Hk; [| discriminate].
  cbv [bind gets lift randomBytes encrypt_field cipher_encrypt modify ret].
  destruct (x25519_getSharedSecret L (privateKey (this s0)) k) as [secret | e] eqn:Hs;
    [| discriminate].
  destruct (scale6 (tp_sizeUsd params)) as [vsize | e] eqn:H1; [| discriminate].
  destruct (scale6 (tp_collateral params)) as [vcoll | e] eqn:H2; [| discriminate].
  destruct (scale6 (tp_entryPrice params)) as [vprice | e] eqn:H3; [| discriminate].
  destruct (rescue_encrypt L secret [side_code (tp_side params)] (tape (world s0) 16))
    as [c1 | e] eqn:E1; [| discriminate].
  destruct (rescue_encrypt L secret [vsize] (tape (world s0) 16))
    as [c2 | e] eqn:E2; [| discriminate].
  destruct (rescue_encrypt L secret [vcoll] (tape (world s0) 16))
    as [c3 | e] eqn:E3; [| discriminate].
  destruct (rescue_encrypt L secret [vprice] (tape (world s0) 16))
    as [c4 | e] eqn:E4; [| discriminate].
  intros H. injection H as <- <-.
  exists k, s0, secret, vsize, vcoll, vprice, c1, c2, c3, c4.
  repeat split; try assumption; try reflexivity.
  simpl. rewrite <- !app_assoc. reflexivity.
Qed.

(** ** Bytes *)

Lemma Z_of_byte_range (b : Byte.byte) : 0 <= Z_of_byte b < 256.
Proof.
  unfold Z_of_byte. pose proof (Byte.to_N_bounded b). lia.
Qed.

Lemma Z_of_byte_of_Z (z : Z) : 0 <= z < 256 -> Z_of_byte (byte_of_Z z) = z.
Proof.
  intros Hz. unfold Z_of_byte, byte_of_Z.
  rewrite Z.mod_small by assumption.
  pose proof (Byte.to_of_N_option_map (Z.to_N z)) as H.
  destruct (Byte.of_N (Z.to_N z)) as [b |]; simpl in H.
  - destruct (N.leb_spec (Z.to_N z) 255); [| discriminate].
    injection H as ->. lia.
  - destruct (N.leb_spec (Z.to_N z) 255); [discriminate | lia].
Qed.

Lemma Array_from_Uint8Array_of (c : list Z) :
  Forall (fun z => 0 <= z < 256) c -> Array_from (Uint8Array_of c) = c.
Proof.
  unfold Array_from, Uint8Array_of. induction 1 as [| z c Hz _ IH]; simpl.
  - reflexivity.
  - rewrite Z_of_byte_of_Z by assumption. rewrite IH. reflexivity.
Qed.

Lemma tape_length (w : World) (n : nat) : List.length (tape w n) = n.
Proof. unfold tape. rewrite length_map, length_seq. reflexivity. Qed.

(** ** Decryption of what was encrypted *)

(** One field: the ciphertext [encrypt_field] stores decrypts, under the
    secret and the nonce it was made with, to the value. *)
Lemma field_roundtrip (L : ArciumLib) (HL : cipher_contract L)
      (secret nonce : bytes) (v : Z) (cts : list (list Z)) :
  List.length nonce = 16%nat ->
  in_field L v ->
  rescue_encrypt L secret [v] nonce = Ok cts ->
  rescue_decrypt L secret [Array_from (Uint8Array_of (nth 0 cts []))] nonce = Ok [v].
Proof.
  intros Hn Hv Henc.
  destruct (encrypt_shape L HL _ _ _ _ Henc) as [Hlen Hshape].
  destruct cts as [| ct [| ? ?]]; try discriminate.
  simpl nth. inversion Hshape as [| ? ? [_ Hbytes] _]; subst.
  rewrite Array_from_Uint8Array_of by assumption.
  apply (decrypt_encrypt L HL); auto.
Qed.

Lemma decryptPosition_run (L : ArciumLib) (s : St) (k secret : bytes)
      (data : EncryptedPosition) (nonce : bytes) (v1 v2 v3 v4 v5 : list Z) :
  mxePublicKey (this s) = Some k ->
  x25519_getSharedSecret L (privateKey (this s)) k = Ok secret ->
  rescue_decrypt L secret [Array_from (ct_side data)] nonce = Ok v1 ->
  rescue_decrypt L secret [Array_from (ct_sizeUsd data)] nonce = Ok v2 ->
  rescue_decrypt L secret [Array_from (ct_collateral data)] nonce = Ok v3 ->
  rescue_decrypt L secret [Array_from (ct_entryPrice data)] nonce = Ok v4 ->
  rescue_decrypt L secret [Array_from (ct_leverage data)] nonce = Ok v5 ->
  fst (decryptPosition L data nonce s) =
  Ok {| dp_side := hd_error v1; dp_sizeUsd := hd_error v2;
        dp_collateral := hd_error v3; dp_entryPrice := hd_error v4;
        dp_leverage := hd_error v5 |}.
Proof.
  intros Hk Hs H1 H2 H3 H4 H5.
  unfold decryptPosition. unfold bind at 1.
  rewrite (getMXEPublicKey_cached L s k Hk).
  cbv [bind gets lift decrypt_field cipher_decrypt modify ret]. cbn [this on_world].
  rewrite Hs, H1, H2, H3, H4, H5. reflexivity.
Qed.

(** The side of a decrypted position is decided by the first decryption. *)
Lemma decryptPosition_side (L : ArciumLib) (s : St) (k secret : bytes)
      (data : EncryptedPosition) (nonce : bytes) (v1 : list Z) (pos : DecryptedPosition) :
  mxePublicKey (this s) = Some k ->
  x25519_getSharedSecret L (privateKey (this s)) k = Ok secret ->
  rescue_decrypt L secret [Array_from (ct_side data)] nonce = Ok v1 ->
  fst (decryptPosition L data nonce s) = Ok pos ->
  dp_side pos = hd_error v1.
Proof.
  intros Hk Hs H1.
  unfold decryptPosition. unfold bind at 1.
  rewrite (getMXEPublicKey_cached L s k Hk).
  cbv [bind gets lift decrypt_field cipher_decrypt modify ret]. cbn [this on_world].
  rewrite Hs, H1.
  repeat match goal with
         | |- context [match rescue_decrypt ?a ?b ?c ?d with _ => _ end] =>
             destruct (rescue_decrypt a b c d); try discriminate
         end.
  intros H. injection H as <-. reflexivity.
Qed.

Lemma encrypt_then_decrypt (L : ArciumLib) (HL : cipher_contract L)
      (params : TradeParams) (s s1 : St) (enc : EncryptedTradeParams) :
  encryptTradeParams L params s = (Ok enc, s1) ->
  exists k secret vsize vcoll vprice,
    mxePublicKey (this s1) = Some k /\
    x25519_getSharedSecret L (privateKey (this s1)) k = Ok secret /\
    scale6 (tp_sizeUsd params) = Ok vsize /\
    scale6 (tp_collateral params) = Ok vcoll /\
    scale6 (tp_entryPrice params) = Ok vprice /\
    enc_nonce enc = tape (world s) 16 /\
    (in_field L (side_code (tp_side params)) ->
     rescue_decrypt L secret [Array_from (enc_side enc)] (enc_nonce enc)
     = Ok [side_code (tp_side params)]) /\
    (in_field L vsize ->
     rescue_decrypt L secret [Array_from (enc_sizeUsd enc)] (enc_nonce enc) = Ok [vsize]) /\
    (in_field L vcoll ->
     rescue_decrypt L secret [Array_from (enc_collateral enc)] (enc_nonce enc) = Ok [vcoll]) /\
    (in_field L vprice ->
     rescue_decrypt L secret [Array_from (enc_entryPrice enc)] (enc_nonce enc) = Ok [vprice]).
Proof.
  intros H.
  destruct (encryptTradeParams_inv L params s s1 enc H)
    as (k & s0 & secret & vsize & vcoll & vprice & c1 & c2 & c3 & c4 &
        Hk & Hs & H1 & H2 & H3 & E1 & E2 & E3 & E4 & -> & Hthis & Hrng & Hext).
  destruct (getMXEPublicKey_frame L s s0 (Ok k) Hk)
    as (_ & Hpos & Hcache & _ & pre & (Hent & _) & _).
  assert (Htape : tape (world s0) 16 = tape (world s) 16).
  { unfold tape. rewrite Hent, Hpos. reflexivity. }
  exists k, secret, vsize, vcoll, vprice. rewrite Hthis. simpl.
  repeat split; auto;
    intros Hin; apply (field_roundtrip L HL); auto using tape_length.
Qed.

(** ** The demonstration library keeps the contract of the cipher *)

Lemma to_le_length (n : nat) (v : Z) : List.length (Toy.to_le n v) = n.
Proof. revert v; induction n; intros v; simpl; [reflexivity | rewrite IHn; reflexivity]. Qed.

Lemma to_le_bytes (n : nat) (v : Z) : Forall (fun z => 0 <= z < 256) (Toy.to_le n v).
Proof.
  revert v; induction n; intros v; simpl; constructor.
  - apply Z.mod_pos_bound; lia.
  - apply IHn.
Qed.

Lemma of_le_to_le (n : nat) (v : Z) :
  Toy.of_le (Toy.to_le n v) = v mod 256 ^ Z.of_nat n.
Proof.
  revert v; induction n as [| n IH]; intros v.
  - simpl. rewrite Z.mod_1_r. reflexivity.
  - cbn [Toy.to_le Toy.of_le]. rewrite IH.
    rewrite Nat2Z.inj_succ, Z.pow_succ_r by lia.
    rewrite Z.rem_mul_r by (try apply Z.pow_pos_nonneg; lia).
    reflexivity.
Qed.

Lemma toy_contract : cipher_contract Toy.lib.
Proof.
  assert (Hord : Toy.order = 57896044618658097711785492504343953926634992332820282019728792003956564819949)
    by reflexivity.
  assert (H256 : 256 ^ Z.of_nat 32 = 115792089237316195423570985008687907853269984665640564039457584007913129639936)
    by reflexivity.
  constructor; cbn [Toy.lib field_order rescue_encrypt rescue_decrypt].
  - rewrite Hord. lia.
  - intros s vs n _ _. eexists; reflexivity.
  - intros s vs n cts H. unfold Toy.encrypt in H.
    assert (Hc : cts = map (fun v => Toy.to_le 32 ((v + Toy.pad s n) mod Toy.order)) vs)
      by congruence.
    subst cts. clear H. split.
    + apply length_map.
    + apply Forall_forall. intros c Hc. apply in_map_iff in Hc as (v & <- & _).
      split; [apply to_le_length | apply to_le_bytes].
  - intros s vs n cts _ Hvs H. unfold Toy.encrypt in H.
    assert (Hc : cts = map (fun v => Toy.to_le 32 ((v + Toy.pad s n) mod Toy.order)) vs)
      by congruence.
    subst cts. clear H. unfold Toy.decrypt. f_equal. rewrite map_map.
    rewrite <- (map_id vs) at 2. apply map_ext_in. intros v Hv.
    rewrite Forall_forall in Hvs. specialize (Hvs v Hv). unfold in_field in Hvs.
    cbn [Toy.lib field_order] in Hvs.
    rewrite of_le_to_le.
    assert (Hm : 0 <= (v + Toy.pad s n) mod Toy.order < Toy.order)
      by (apply Z.mod_pos_bound; lia).
    rewrite (Z.mod_small _ (256 ^ Z.of_nat 32)) by lia.
    rewrite Zminus_mod_idemp_l.
    replace (v + Toy.pad s n - Toy.pad s n) with v by ring.
    apply Z.mod_small. assumption.
Qed.

Lemma toy_run :
  encryptTradeParams Toy.lib Toy.params Toy.client_ready = (Ok Toy.enc, Toy.after).
Proof. vm_compute. reflexivity. Qed.

(** What [scale6] returns is the integer part of the product. *)
Lemma scale6_floor (x : number) (v : Z) :
  nonneg x = true ->
  scale6 x = Ok v ->
  floorZ (Js.mul x (Js.of_Z 1000000)) = Some v /\ 0 <= v.
Proof.
  intros Hx Hv.
  destruct (is_finite (Js.mul x (Js.of_Z 1000000))) eqn:Hfin.
  - destruct (scale6_finite x Hx Hfin) as (v' & Hv' & Hfl & Hpos).
    rewrite Hv in Hv'. injection Hv' as <-. split; assumption.
  - unfold scale6 in Hv.
    destruct (Js.mul x (Js.of_Z 1000000)); simpl in *; discriminate.
Qed.

(** The events of a successful [encryptTradeParams]: at most a read of the
    ledger, then the four calls into the cipher. *)
Lemma encryptTradeParams_trace (L : ArciumLib) (params : TradeParams) (s s1 : St)
      (enc : EncryptedTradeParams) :
  encryptTradeParams L params s = (Ok enc, s1) ->
  exists pre secret vsize vcoll vprice,
    scale6 (tp_sizeUsd params) = Ok vsize /\
    scale6 (tp_collateral params) = Ok vcoll /\
    scale6 (tp_entryPrice params) = Ok vprice /\
    encrypt_calls pre = [] /\
    enc_nonce enc = tape (world s) 16 /\
    rng_pos (world s1) = (rng_pos (world s) + 16)%nat /\
    trace (world s1) =
      (trace (world s) ++ pre
       ++ four_calls secret (enc_nonce enc) (side_code (tp_side params)) vsize vcoll vprice)%list.
Proof.
  intros H.
  destruct (encryptTradeParams_inv L params s s1 enc H)
    as (k & s0 & secret & vsize & vcoll & vprice & c1 & c2 & c3 & c4 &
        Hk & Hs & H1 & H2 & H3 & E1 & E2 & E3 & E4 & -> & Hthis & Hrng & Hext).
  destruct (getMXEPublicKey_frame L s s0 (Ok k) Hk)
    as (_ & Hpos & _ & _ & pre & (Hent & _ & _ & _ & Htr) & Hpre & _).
  destruct Hext as (_ & _ & _ & _ & Htr1).
  assert (Htape : tape (world s0) 16 = tape (world s) 16).
  { unfold tape. rewrite Hent, Hpos. reflexivity. }
  exists pre, secret, vsize, vcoll, vprice. cbn [enc_nonce].
  rewrite Htr1, Htr, Htape, Hrng, Hpos, <- app_assoc.
  repeat split; auto.
Qed.

Lemma shared_secret_intro (L : ArciumLib) (c : ArciumClient) (k secret : bytes) :
  mxePublicKey c = Some k ->
  x25519_getSharedSecret L (privateKey c) k = Ok secret ->
  shared_secret L c = Some secret.
Proof. intros Hk Hs. unfold shared_secret. rewrite Hk, Hs. reflexivity. Qed.

Lemma shared_secret_elim (L : ArciumLib) (c : ArciumClient) (secret : bytes) :
  shared_secret L c = Some secret ->
  exists k, mxePublicKey c = Some k /\ x25519_getSharedSecret L (privateKey c) k = Ok secret.
Proof.
  unfold shared_secret. destruct (mxePublicKey c) as [k |]; [| discriminate].
  destruct (x25519_getSharedSecret L (privateKey c) k) eqn:Hs; [| discriminate].
  intros H. injection H as <-. exists k. split; [reflexivity | assumption].
Qed.

(** The calls into the cipher of any [encryptTradeParams], returning or
    not: the first ones of the four, after the conversions succeeded. *)
Lemma encryptTradeParams_events (L : ArciumLib) (params : TradeParams) (s s1 : St)
      (r : result EncryptedTradeParams) :
  encryptTradeParams L params s = (r, s1) ->
  exists pre calls,
    trace (world s1) = (trace (world s) ++ pre ++ calls)%list /\
    encrypt_calls pre = [] /\
    (calls = [] \/
     exists secret vsize vcoll vprice n,
       scale6 (tp_sizeUsd params) = Ok vsize /\
       scale6 (tp_collateral params) = Ok vcoll /\
       scale6 (tp_entryPrice params) = Ok vprice /\
       calls = firstn n (four_calls secret (tape (world s) 16)
                           (side_code (tp_side params)) vsize vcoll vprice)).
Proof.
  unfold encryptTradeParams. unfold bind at 1.
  destruct (getMXEPublicKey L s) as [[k | e] s0] eqn:Hk.
  2: { intros H. injection H as <- <-.
       destruct (getMXEPublicKey_frame L s s0 _ Hk)
         as (_ & _ & _ & _ & pre & (_ & _ & _ & _ & Htr) & Hpre & _).
       exists pre, []. rewrite app_nil_r. repeat split; auto. }
  destruct (getMXEPublicKey_frame L s s0 _ Hk)
    as (_ & Hpos & _ & _ & pre & (Hent & _ & _ & _ & Htr) & Hpre & _).
  assert (Htape : tape (world s0) 16 = tape (world s) 16).
  { unfold tape. rewrite Hent, Hpos. reflexivity. }
  cbv [bind gets lift randomBytes encrypt_field cipher_encrypt modify ret].
  rewrite Htape.
  destruct (x25519_getSharedSecret L (privateKey (this s0)) k) as [secret | e];
    [| intros H; injection H as <- <-; exists pre, []; rewrite app_nil_r; auto].
  destruct (scale6 (tp_sizeUsd params)) as [vsize | e];
    [| intros H; injection H as <- <-; exists pre, []; rewrite app_nil_r; auto].
  destruct (scale6 (tp_collateral params)) as [vcoll | e];
    [| intros H; injection H as <- <-; exists pre, []; rewrite app_nil_r; auto].
  destruct (scale6 (tp_entryPrice params)) as [vprice | e];
    [| intros H; injection H as <- <-; exists pre, []; rewrite app_nil_r; auto].
  set (calls := four_calls secret (tape (world s) 16) (side_code (tp_side params))
                  vsize vcoll vprice).
  assert (Hfin : forall n w,
             trace w = (trace (world s0) ++ firstn n calls)%list ->
             exists pre0 calls0,
               trace w = (trace (world s) ++ pre0 ++ calls0)%list /\
               encrypt_calls pre0 = [] /\
               (calls0 = [] \/
                exists secret0 vsize0 vcoll0 vprice0 n0,
                  Ok vsize = Ok vsize0 /\ Ok vcoll = Ok vcoll0 /\ Ok vprice = Ok vprice0 /\
                  calls0 = firstn n0 (four_calls secret0 (tape (world s) 16)
                                        (side_code (tp_side params))
                                        vsize0 vcoll0 vprice0))).
  { intros n w Hw. exists pre, (firstn n calls).
    rewrite Hw, Htr, <- app_assoc. repeat split; auto.
    right. exists secret, vsize, vcoll, vprice, n. repeat split. }
  destruct (rescue_encrypt L secret [side_code (tp_side params)] _);
    [| intros H; injection H as <- <-; apply (Hfin 1%nat); reflexivity].
  destruct (rescue_encrypt L secret [vsize] _);
    [| intros H; injection H as <- <-; apply (Hfin 2%nat);
       cbn; rewrite <- !app_assoc; reflexivity].
  destruct (rescue_encrypt L secret [vcoll] _);
    [| intros H; injection H as <- <-; apply (Hfin 3%nat);
       cbn; rewrite <- !app_assoc; reflexivity].
  destruct (rescue_encrypt L secret [vprice] _);
    intros H; injection H as <- <-; apply (Hfin 4%nat);
    cbn; rewrite <- !app_assoc; reflexivity.
Qed.

(** With the key of the cluster at hand, a shared secret, and values that
    are finite and within the field, [encryptTradeParams] returns. *)
Lemma encryptTradeParams_returns (L : ArciumLib) (HL : cipher_contract L)
      (params : TradeParams) (s : St) (secret : bytes) :
  shared_secret L (this s) = Some secret ->
  (forall x, In x [tp_sizeUsd params; tp_collateral params; tp_entryPrice params] ->
             nonneg x = true /\
             exists v, floorZ (Js.mul x (Js.of_Z 1000000)) = Some v /\ v < field_order L) ->
  exists enc, fst (encryptTradeParams L params s) = Ok enc.
Proof.
  intros Hsec Hvals.
  destruct (shared_secret_elim L _ _ Hsec) as (k & Hk & Hs).
  assert (Hscale : forall x,
             In x [tp_sizeUsd params; tp_collateral params; tp_entryPrice params] ->
             exists v, scale6 x = Ok v /\ in_field L v).
  { intros x Hx. destruct (Hvals x Hx) as (Hn & v & Hfl & Hlt).
    assert (Hfin : is_finite (Js.mul x (Js.of_Z 1000000)) = true).
    { destruct (Js.mul x (Js.of_Z 1000000)); try discriminate; reflexivity. }
    destruct (scale6_finite x Hn Hfin) as (v' & Hv' & Hfl' & Hpos).
    rewrite Hfl in Hfl'. injection Hfl' as <-.
    exists v. split; [exact Hv' | split; lia]. }
  destruct (Hscale _ (or_introl eq_refl)) as (v1 & H1 & F1).
  destruct (Hscale _ (or_intror (or_introl eq_refl))) as (v2 & H2 & F2).
  destruct (Hscale _ (or_intror (or_intror (or_introl eq_refl)))) as (v3 & H3 & F3).
  pose proof (field_has_bit L HL) as Hbit.
  assert (F0 : in_field L (side_code (tp_side params))).
  { unfold in_field. destruct (tp_side params); cbn; lia. }
  unfold encryptTradeParams. unfold bind at 1.
  rewrite (getMXEPublicKey_cached L s k Hk).
  cbv [bind gets lift randomBytes encrypt_field cipher_encrypt modify ret].
  rewrite Hs, H1, H2, H3.
  pose proof (tape_length (world s) 16) as Hlen.
  destruct (encrypt_total L HL secret [side_code (tp_side params)] (tape (world s) 16) Hlen
              ltac:(constructor; [assumption | constructor])) as (c0 & ->).
  destruct (encrypt_total L HL secret [v1] (tape (world s) 16) Hlen
              ltac:(constructor; [assumption | constructor])) as (c1 & ->).
  destruct (encrypt_total L HL secret [v2] (tape (world s) 16) Hlen
              ltac:(constructor; [assumption | constructor])) as (c2 & ->).
  destruct (encrypt_total L HL secret [v3] (tape (world s) 16) Hlen
              ltac:(constructor; [assumption | constructor])) as (c3 & ->).
  eexists. reflexivity.
Qed.

Lemma encrypt_calls_app (tr tr' : list event) :
  encrypt_calls (tr ++ tr') = (encrypt_calls tr ++ encrypt_calls tr')%list.
Proof. apply filter_app. Qed.

Lemma encrypt_calls_none (tr : list event) (secret nonce : bytes) (p : list Z) :
  encrypt_calls tr = [] -> ~ In (CipherEncrypt secret p nonce) tr.
Proof.
  intros Hnone Hin.
  assert (H : In (CipherEncrypt secret p nonce) (encrypt_calls tr))
    by (apply filter_In; split; [exact Hin | reflexivity]).
  rewrite Hnone in H. exact H.
Qed.

Lemma In_firstn {A} (n : nat) (l : list A) (x : A) : In x (firstn n l) -> In x l.
Proof.
  intros H. rewrite <- (firstn_skipn n l). apply in_or_app. left. exact H.
Qed.

(** C1. For trade parameters that are not negative, the ciphertexts of
    [encryptTradeParams] decrypt, in [decryptPosition] of the same client
    (the same shared secret) with the nonce of the encryption, to exactly
    the scaled values that were encrypted, for values within the range of
    the field of the cipher, whatever the world has become meanwhile; and
    for such values a client that holds the key of the cluster does get
    its ciphertexts. *)
Theorem encrypt_decrypt_roundtrip (L : ArciumLib) (HL : cipher_contract L)
        (params : TradeParams) (s : St) :
  nonneg (tp_sizeUsd params) = true ->
  nonneg (tp_collateral params) = true ->
  nonneg (tp_entryPrice params) = true ->
  (forall (s1 : St) (enc : EncryptedTradeParams),
     encryptTradeParams L params s = (Ok enc, s1) ->
     exists secret vsize vcoll vprice,
       shared_secret L (this s1) = Some secret /\
       scale6 (tp_sizeUsd params) = Ok vsize /\
       scale6 (tp_collateral params) = Ok vcoll /\
       scale6 (tp_entryPrice params) = Ok vprice /\
       (vsize < field_order L -> vcoll < field_order L -> vprice < field_order L ->
        forall (w2 : World) (leverage : bytes) (lv : list Z),
          rescue_decrypt L secret [Array_from leverage] (enc_nonce enc) = Ok lv ->
          fst (decryptPosition L (as_position enc leverage) (enc_nonce enc)
                 {| this := this s1; world := w2 |})
          = Ok {| dp_side := Some (side_code (tp_side params));
                  dp_sizeUsd := Some vsize;
                  dp_collateral := Some vcoll;
                  dp_entryPrice := Some vprice;
                  dp_leverage := hd_error lv |})) /\
  (forall secret : bytes,
     shared_secret L (this s) = Some secret ->
     (forall x, In x [tp_sizeUsd params; tp_collateral params; tp_entryPrice params] ->
                exists v, floorZ (Js.mul x (Js.of_Z 1000000)) = Some v /\ v < field_order L) ->
     exists enc, fst (encryptTradeParams L params s) = Ok enc).
Proof.
  intros N1 N2 N3. split.
  - intros s1 enc H.
    destruct (encrypt_then_decrypt L HL params s s1 enc H)
      as (k & secret & vsize & vcoll & vprice & Hk & Hs & H1 & H2 & H3 & _ &
          D0 & D1 & D2 & D3).
    exists secret, vsize, vcoll, vprice.
    split; [eapply shared_secret_intro; eassumption |].
    repeat (split; [assumption |]).
    intros F1 F2 F3 w2 leverage lv Hlv.
    pose proof (field_has_bit L HL) as Hbit.
    destruct (scale6_floor _ _ N1 H1) as [_ P1].
    destruct (scale6_floor _ _ N2 H2) as [_ P2].
    destruct (scale6_floor _ _ N3 H3) as [_ P3].
    rewrite (decryptPosition_run L _ k secret _ _ [side_code (tp_side params)]
               [vsize] [vcoll] [vprice] lv); auto.
    + apply D0. unfold in_field. destruct (tp_side params); simpl; lia.
    + apply D1. unfold in_field. lia.
    + apply D2. unfold in_field. lia.
    + apply D3. unfold in_field. lia.
  - intros secret Hsec Hvals.
    apply (encryptTradeParams_returns L HL params s secret Hsec).
    intros x Hx. split; [| apply Hvals; exact Hx].
    destruct Hx as [<- | [<- | [<- | []]]]; assumption.
Qed.

Lemma encrypt_decrypt_roundtrip_witness :
  fst (decryptPosition Toy.lib (as_position Toy.enc (enc_side Toy.enc))
         (enc_nonce Toy.enc) Toy.after)
  = Ok {| dp_side := Some 1;
          dp_sizeUsd := Some 1000000000;
          dp_collateral := Some 100000000;
          dp_entryPrice := Some 142500000;
          dp_leverage := Some 1 |}.
Proof.
  destruct (encrypt_decrypt_roundtrip Toy.lib toy_contract Toy.params
              Toy.client_ready eq_refl eq_refl eq_refl) as [Hrt _].
  destruct (Hrt Toy.after Toy.enc toy_run)
    as (secret & vsize & vcoll & vprice & Hsec & H1 & H2 & H3 & Hdec).
  vm_compute in Hsec. injection Hsec as <-.
  vm_compute in H1. injection H1 as <-.
  vm_compute in H2. injection H2 as <-.
  vm_compute in H3. injection H3 as <-.
  apply (Hdec eq_refl eq_refl eq_refl (world Toy.after) (enc_side Toy.enc) [1]).
  vm_compute. reflexivity.
Defined.

(** With the key of the cluster there (cached, or on the ledger), a shared
    secret, and values that are finite and within the field, a cipher that
    keeps its contract is called four times and [encryptTradeParams]
    returns. *)
Lemma encryptTradeParams_submits (L : ArciumLib) (HL : cipher_contract L)
      (params : TradeParams) (s : St) (k secret : bytes) (vsize vcoll vprice : Z) :
  fst (getMXEPublicKey L s) = Ok k ->
  x25519_getSharedSecret L (privateKey (this s)) k = Ok secret ->
  scale6 (tp_sizeUsd params) = Ok vsize ->
  scale6 (tp_collateral params) = Ok vcoll ->
  scale6 (tp_entryPrice params) = Ok vprice ->
  in_field L vsize -> in_field L vcoll -> in_field L vprice ->
  exists enc pre,
    fst (encryptTradeParams L params s) = Ok enc /\
    encrypt_calls pre = [] /\
    trace (world (snd (encryptTradeParams L params s)))
    = (trace (world s) ++ pre
       ++ four_calls secret (tape (world s) 16) (side_code (tp_side params))
            vsize vcoll vprice)%list.
Proof.
  intros Hk Hs H1 H2 H3 F1 F2 F3.
  destruct (getMXEPublicKey L s) as [r s0] eqn:Hrun. cbn [fst] in Hk. subst r.
  destruct (getMXEPublicKey_frame L s s0 (Ok k) Hrun)
    as ((_ & K2 & _) & Hpos & _ & _ & pre & (Hent & _ & _ & _ & Htr) & Hpre & _).
  assert (Htape : tape (world s0) 16 = tape (world s) 16).
  { unfold tape. rewrite Hent, Hpos. reflexivity. }
  pose proof (field_has_bit L HL) as Hbit.
  assert (F0 : in_field L (side_code (tp_side params))).
  { unfold in_field. destruct (tp_side params); cbn; lia. }
  pose proof (tape_length (world s) 16) as Hlen.
  destruct (encrypt_total L HL secret [side_code (tp_side params)] (tape (world s) 16) Hlen
              ltac:(constructor; [assumption | constructor])) as (c0 & E0).
  destruct (encrypt_total L HL secret [vsize] (tape (world s) 16) Hlen
              ltac:(constructor; [assumption | constructor])) as (c1 & E1).
  destruct (encrypt_total L HL secret [vcoll] (tape (world s) 16) Hlen
              ltac:(constructor; [assumption | constructor])) as (c2 & E2).
  destruct (encrypt_total L HL secret [vprice] (tape (world s) 16) Hlen
              ltac:(constructor; [assumption | constructor])) as (c3 & E3).
  assert (Hall : encryptTradeParams L params s
                 = (Ok {| enc_side := Uint8Array_of (nth 0 c0 []);
                          enc_sizeUsd := Uint8Array_of (nth 0 c1 []);
                          enc_collateral := Uint8Array_of (nth 0 c2 []);
                          enc_entryPrice := Uint8Array_of (nth 0 c3 []);
                          enc_publicKey := publicKey (this s0);
                          enc_nonce := tape (world s) 16 |},
                    on_world (emit (CipherEncrypt secret [vprice] (tape (world s) 16)))
                      (on_world (emit (CipherEncrypt secret [vcoll] (tape (world s) 16)))
                         (on_world (emit (CipherEncrypt secret [vsize] (tape (world s) 16)))
                            (on_world
                               (emit (CipherEncrypt secret [side_code (tp_side params)]
                                        (tape (world s) 16)))
                               (on_world (advance_rng 16) s0)))))).
  { unfold encryptTradeParams. unfold bind at 1. rewrite Hrun.
    cbv [bind gets lift randomBytes encrypt_field cipher_encrypt modify ret].
    rewrite K2, Hs, H1, H2, H3, Htape, E0, E1, E2, E3. reflexivity. }
  rewrite Hall. cbn [fst snd world on_world emit advance_rng trace].
  eexists. exists pre. split; [reflexivity |]. split; [exact Hpre |].
  rewrite Htr, <- !app_assoc. reflexivity.
Qed.

(** C3. For trade parameters that are not negative, each of the three
    conversions [BigInt(Math.floor(x * 1_000_000))] whose product is
    finite returns the integer part of the product, a non-negative
    integer.  Every plaintext a call of [encryptTradeParams] submits to the
    cipher, whether the call returns or throws on the way, is one such
    integer or the code of the side, and a call that returns has submitted
    exactly these four, in this order.  With the key of the cluster at
    hand and a cipher that keeps its contract, the call does return, for
    values within the field: every value is scaled by six decimals and
    submitted. *)
Theorem plaintexts_scaled (L : ArciumLib) (params : TradeParams) (s : St) :
  nonneg (tp_sizeUsd params) = true ->
  nonneg (tp_collateral params) = true ->
  nonneg (tp_entryPrice params) = true ->
  (forall x,
     In x [tp_sizeUsd params; tp_collateral params; tp_entryPrice params] ->
     is_finite (Js.mul x (Js.of_Z 1000000)) = true ->
     exists v, scale6 x = Ok v /\
               floorZ (Js.mul x (Js.of_Z 1000000)) = Some v /\ 0 <= v) /\
  (forall (r : result EncryptedTradeParams) (s1 : St),
     encryptTradeParams L params s = (r, s1) ->
     exists new,
       trace (world s1) = (trace (world s) ++ new)%list /\
       (forall secret p nonce,
          In (CipherEncrypt secret p nonce) new ->
          exists v, p = [v] /\ 0 <= v /\
            (v = side_code (tp_side params) \/
             exists x,
               In x [tp_sizeUsd params; tp_collateral params; tp_entryPrice params] /\
               floorZ (Js.mul x (Js.of_Z 1000000)) = Some v)) /\
       (forall enc, r = Ok enc ->
          exists secret vsize vcoll vprice,
            floorZ (Js.mul (tp_sizeUsd params) (Js.of_Z 1000000)) = Some vsize /\
            floorZ (Js.mul (tp_collateral params) (Js.of_Z 1000000)) = Some vcoll /\
            floorZ (Js.mul (tp_entryPrice params) (Js.of_Z 1000000)) = Some vprice /\
            encrypt_calls new =
              four_calls secret (enc_nonce enc) (side_code (tp_side params))
                vsize vcoll vprice)) /\
  (cipher_contract L ->
   forall (k secret : bytes) (vsize vcoll vprice : Z),
     fst (getMXEPublicKey L s) = Ok k ->
     x25519_getSharedSecret L (privateKey (this s)) k = Ok secret ->
     floorZ (Js.mul (tp_sizeUsd params) (Js.of_Z 1000000)) = Some vsize ->
     floorZ (Js.mul (tp_collateral params) (Js.of_Z 1000000)) = Some vcoll ->
     floorZ (Js.mul (tp_entryPrice params) (Js.of_Z 1000000)) = Some vprice ->
     vsize < field_order L -> vcoll < field_order L -> vprice < field_order L ->
     exists enc new,
       fst (encryptTradeParams L params s) = Ok enc /\
       trace (world (snd (encryptTradeParams L params s)))
       = (trace (world s) ++ new)%list /\
       encrypt_calls new =
         four_calls secret (tape (world s) 16) (side_code (tp_side params))
           vsize vcoll vprice).
Proof.
  intros N1 N2 N3.
  assert (Hnn : forall x,
             In x [tp_sizeUsd params; tp_collateral params; tp_entryPrice params] ->
             nonneg x = true).
  { intros x [<- | [<- | [<- | []]]]; assumption. }
  split; [| split].
  - intros x Hx Hfin. apply scale6_finite; [apply Hnn; exact Hx | exact Hfin].
  - intros r s1 H.
    destruct (encryptTradeParams_events L params s s1 r H)
      as (pre & calls & Htr & Hpre & Hcalls).
    exists (pre ++ calls)%list. split; [exact Htr |]. split.
    + intros secret p nonce Hin. apply in_app_or in Hin.
      destruct Hin as [Hin | Hin]; [destruct (encrypt_calls_none _ _ _ _ Hpre Hin) |].
      destruct Hcalls as [-> | (sec & vsize & vcoll & vprice & n & H1 & H2 & H3 & ->)];
        [destruct Hin |].
      destruct (scale6_floor _ _ N1 H1) as [F1 P1].
      destruct (scale6_floor _ _ N2 H2) as [F2 P2].
      destruct (scale6_floor _ _ N3 H3) as [F3 P3].
      apply In_firstn in Hin.
      destruct Hin as [E | [E | [E | [E | []]]]]; injection E as _ <- _;
        eexists; (split; [reflexivity |]).
      * split; [destruct (tp_side params); cbn; lia | left; reflexivity].
      * split; [exact P1 | right; eexists; split; [| exact F1]; cbn; tauto].
      * split; [exact P2 | right; eexists; split; [| exact F2]; cbn; tauto].
      * split; [exact P3 | right; eexists; split; [| exact F3]; cbn; tauto].
    + intros enc ->.
      destruct (encryptTradeParams_trace L params s s1 enc H)
        as (pre' & secret & vsize & vcoll & vprice & H1 & H2 & H3 & Hpre' & _ & _ & Htr').
      rewrite Htr in Htr'. apply app_inv_head in Htr'.
      destruct (scale6_floor _ _ N1 H1) as [F1 _].
      destruct (scale6_floor _ _ N2 H2) as [F2 _].
      destruct (scale6_floor _ _ N3 H3) as [F3 _].
      exists secret, vsize, vcoll, vprice. repeat (split; [assumption |]).
      rewrite Htr', encrypt_calls_app, Hpre'. reflexivity.
  - intros HL k secret vsize vcoll vprice Hk Hs F1 F2 F3 B1 B2 B3.
    assert (Hscale : forall x v,
               In x [tp_sizeUsd params; tp_collateral params; tp_entryPrice params] ->
               floorZ (Js.mul x (Js.of_Z 1000000)) = Some v ->
               scale6 x = Ok v /\ 0 <= v).
    { intros x v Hx Hfl.
      assert (Hfin : is_finite (Js.mul x (Js.of_Z 1000000)) = true).
      { destruct (Js.mul x (Js.of_Z 1000000)); try discriminate; reflexivity. }
      destruct (scale6_finite x (Hnn x Hx) Hfin) as (v' & Hv' & Hfl' & Hpos).
      rewrite Hfl in Hfl'. injection Hfl' as <-. split; assumption. }
    destruct (Hscale _ _ (or_introl eq_refl) F1) as [H1 P1].
    destruct (Hscale _ _ (or_intror (or_introl eq_refl)) F2) as [H2 P2].
    destruct (Hscale _ _ (or_intror (or_intror (or_introl eq_refl))) F3) as [H3 P3].
    destruct (encryptTradeParams_submits L HL params s k secret vsize vcoll vprice
                Hk Hs H1 H2 H3 (conj P1 B1) (conj P2 B2) (conj P3 B3))
      as (enc & pre & Hok & Hpre & Htr).
    exists enc, (pre ++ four_calls secret (tape (world s) 16) (side_code (tp_side params))
                         vsize vcoll vprice)%list.
    split; [exact Hok |]. split; [exact Htr |].
    rewrite encrypt_calls_app, Hpre. reflexivity.
Qed.

Lemma plaintexts_scaled_witness :
  scale6 (Js.dyadic 128001 (-7)) = Ok 1000007812 /\
  exists enc new secret,
    fst (encryptTradeParams Toy.lib
           {| tp_side := Long; tp_sizeUsd := Js.dyadic 128001 (-7);
              tp_collateral := Js.of_Z 100; tp_entryPrice := Js.dyadic 285 (-1) |}
           Toy.client_ready) = Ok enc /\
    trace (world (snd (encryptTradeParams Toy.lib
           {| tp_side := Long; tp_sizeUsd := Js.dyadic 128001 (-7);
              tp_collateral := Js.of_Z 100; tp_entryPrice := Js.dyadic 285 (-1) |}
           Toy.client_ready)))
    = (trace (world Toy.client_ready) ++ new)%list /\
    encrypt_calls new =
      four_calls secret (tape (world Toy.client_ready) 16) 1
        1000007812 100000000 142500000.
Proof.
  destruct (plaintexts_scaled Toy.lib
              {| tp_side := Long; tp_sizeUsd := Js.dyadic 128001 (-7);
                 tp_collateral := Js.of_Z 100; tp_entryPrice := Js.dyadic 285 (-1) |}
              Toy.client_ready eq_refl eq_refl eq_refl) as (Hconv & _ & Hsub).
  split.
  - destruct (Hconv (Js.dyadic 128001 (-7))) as (v & Hv & Hfl & _);
      [left; reflexivity | reflexivity |].
    vm_compute in Hfl. injection Hfl as <-. exact Hv.
  - destruct (Hsub toy_contract (slice 8 40 Toy.account_data)
                (tape (Toy.world_with Toy.ledger_ready) 32
                 ++ slice 8 40 Toy.account_data)%list
                1000007812 100000000 142500000)
      as (enc & new & Hok & Htr & Hcalls);
      try (vm_compute; reflexivity).
    exists enc, new, (tape (Toy.world_with Toy.ledger_ready) 32
                      ++ slice 8 40 Toy.account_data)%list.
    split; [exact Hok |]. split; [exact Htr | exact Hcalls].
Defined.

(** C10. The side is encrypted as the integer 1 for a long and 0 for a
    short position, and [decryptPosition] gives the side back under the
    same encoding. *)
Theorem side_encoding (L : ArciumLib) (HL : cipher_contract L)
        (params : TradeParams) (s s1 : St) (enc : EncryptedTradeParams) :
  encryptTradeParams L params s = (Ok enc, s1) ->
  side_code Long = 1 /\ side_code Short = 0 /\
  (exists pre secret b c d,
     encrypt_calls pre = [] /\
     trace (world s1) =
       (trace (world s) ++ pre
        ++ four_calls secret (enc_nonce enc)
             (match tp_side params with Long => 1 | Short => 0 end) b c d)%list) /\
  (forall (w2 : World) (data : EncryptedPosition) (pos : DecryptedPosition),
     ct_side data = enc_side enc ->
     fst (decryptPosition L data (enc_nonce enc) {| this := this s1; world := w2 |})
     = Ok pos ->
     dp_side pos = Some (match tp_side params with Long => 1 | Short => 0 end)).
Proof.
  intros H. split; [reflexivity |]. split; [reflexivity |]. split.
  - destruct (encryptTradeParams_trace L params s s1 enc H)
      as (pre & secret & vsize & vcoll & vprice & _ & _ & _ & Hpre & _ & _ & Htr).
    exists pre, secret, vsize, vcoll, vprice. split; [assumption |].
    rewrite Htr. destruct (tp_side params); reflexivity.
  - intros w2 data pos Hside Hpos.
    destruct (encrypt_then_decrypt L HL params s s1 enc H)
      as (k & secret & vsize & vcoll & vprice & Hk & Hs & _ & _ & _ & _ & D0 & _).
    pose proof (field_has_bit L HL) as Hbit.
    rewrite (decryptPosition_side L {| this := this s1; world := w2 |} k secret data
               (enc_nonce enc) [side_code (tp_side params)] pos);
      [ destruct (tp_side params); reflexivity | exact Hk | exact Hs | | exact Hpos ].
    rewrite Hside. apply D0. unfold in_field. destruct (tp_side params); simpl; lia.
Qed.

Lemma side_encoding_witness :
  exists pos,
    fst (decryptPosition Toy.lib (as_position Toy.enc (enc_side Toy.enc))
           (enc_nonce Toy.enc) Toy.after) = Ok pos /\
    dp_side pos = Some 1.
Proof.
  eexists. split.
  - vm_compute. reflexivity.
  - pose proof (side_encoding Toy.lib toy_contract Toy.params Toy.client_ready
                  Toy.after Toy.enc toy_run) as (_ & _ & _ & Hdec).
    apply (Hdec (world Toy.after) (as_position Toy.enc (enc_side Toy.enc)));
      vm_compute; reflexivity.
Defined.

(** ** What every step of a client keeps *)

Lemma fetch_count_app (tr tr' : list event) :
  fetch_count (tr ++ tr') = (fetch_count tr + fetch_count tr')%nat.
Proof. unfold fetch_count. rewrite filter_app, length_app. reflexivity. Qed.

Lemma evolves_refl (s : St) : evolves s s.
Proof. unfold evolves, same_keys. repeat split; auto. Qed.

Lemma evolves_trans (s1 s2 s3 : St) : evolves s1 s2 -> evolves s2 s3 -> evolves s1 s3.
Proof.
  intros ((A1 & A2 & A3) & B & C & D) ((A1' & A2' & A3') & B' & C' & D').
  unfold evolves, same_keys. repeat split; try congruence; try lia.
  - destruct (B k H) as [Hk _]. destruct (B' k Hk) as [Hk' _]. exact Hk'.
  - destruct (B k H) as [Hk E]. destruct (B' k Hk) as [_ E']. congruence.
Qed.

Lemma evolves_emit (e : event) (s : St) :
  is_fetch e = false -> evolves s (on_world (emit e) s).
Proof.
  intros He. unfold evolves, same_keys. simpl. repeat split; auto.
  rewrite fetch_count_app. unfold fetch_count at 2. simpl. rewrite He. simpl. lia.
Qed.

Lemma evolves_advance (n : nat) (s : St) : evolves s (on_world (advance_rng n) s).
Proof. unfold evolves, same_keys. simpl. repeat split; auto. lia. Qed.

Lemma evolves_ledger (l : PublicKey -> rpc_reply) (s : St) :
  evolves s (on_world (set_ledger l) s).
Proof. unfold evolves, same_keys. simpl. repeat split; auto. Qed.

Lemma getMXEPublicKey_evolves (L : ArciumLib) (s : St) :
  evolves s (snd (getMXEPublicKey L s)).
Proof.
  destruct (getMXEPublicKey L s) as [r s0] eqn:H. simpl.
  destruct (getMXEPublicKey_frame L s s0 r H)
    as (K & Hpos & _ & _ & pre & (Hent & _ & _ & _ & Htr) & _ & _ & Hpre).
  unfold evolves. split; [exact K |]. split; [| split; [exact Hent | lia]].
  intros k Hk.
  rewrite (getMXEPublicKey_cached L s k Hk) in H. injection H as <- <-.
  split; [exact Hk | reflexivity].
Qed.

Ltac evolve :=
  repeat first
    [ apply evolves_refl
    | apply getMXEPublicKey_evolves
    | eapply evolves_trans; [| apply evolves_emit; reflexivity]
    | eapply evolves_trans; [| apply evolves_advance] ].

(** Case analysis on the innermost call a computation is waiting for. *)
Ltac step_through :=
  repeat match goal with
         | |- context [match ?x with _ => _ end] =>
             lazymatch x with
             | context [match _ with _ => _ end] => fail
             | _ => destruct x
             end
         end.

Lemma encryptTradeParams_evolves (L : ArciumLib) (params : TradeParams) (s : St) :
  evolves s (snd (encryptTradeParams L params s)).
Proof.
  unfold encryptTradeParams. unfold bind at 1.
  pose proof (getMXEPublicKey_evolves L s) as H0.
  destruct (getMXEPublicKey L s) as [[k | e] s0]; simpl in H0; [| exact H0].
  cbv [bind gets lift randomBytes encrypt_field cipher_encrypt modify ret].
  step_through; cbn [snd]; (eapply evolves_trans; [exact H0 |]); evolve.
Qed.

Lemma decryptPosition_evolves (L : ArciumLib) (data : EncryptedPosition) (nonce : bytes)
      (s : St) :
  evolves s (snd (decryptPosition L data nonce s)).
Proof.
  unfold decryptPosition. unfold bind at 1.
  pose proof (getMXEPublicKey_evolves L s) as H0.
  destruct (getMXEPublicKey L s) as [[k | e] s0]; simpl in H0; [| exact H0].
  cbv [bind gets lift decrypt_field cipher_decrypt modify ret].
  step_through; cbn [snd]; (eapply evolves_trans; [exact H0 |]); evolve.
Qed.

Lemma do_step_evolves (L : ArciumLib) (st : step) (s : St) :
  evolves s (do_step L st s).
Proof.
  destruct st; cbn [do_step].
  - apply getMXEPublicKey_evolves.
  - apply encryptTradeParams_evolves.
  - apply decryptPosition_evolves.
  - unfold generateComputationOffset, bind, randomBytes, ret. cbn [snd]. evolve.
  - unfold awaitComputation. cbv [bind gets lift modify]. 
    step_through; cbn [snd]; evolve.
  - apply evolves_ledger.
Qed.

Lemma do_steps_evolves (L : ArciumLib) (sts : list step) (s : St) :
  evolves s (do_steps L sts s).
Proof.
  unfold do_steps. revert s. induction sts as [| st sts IH]; intros s; simpl.
  - apply evolves_refl.
  - eapply evolves_trans; [apply do_step_evolves | apply IH].
Qed.

(** C5. Once [getMXEPublicKey] has returned the key of the cluster, the
    key is cached: whatever the client is asked next and however the
    ledger changes, [getMXEPublicKey] returns that same key, the state is
    left as it is and the ledger is not read again.  The call that
    fetched it read the ledger at most once. *)
Theorem key_cached (L : ArciumLib) (s s1 : St) (k : bytes) :
  getMXEPublicKey L s = (Ok k, s1) ->
  (fetch_count (trace (world s1)) <= fetch_count (trace (world s)) + 1)%nat /\
  mxePublicKey (this s1) = Some k /\
  forall sts : list step,
    getMXEPublicKey L (do_steps L sts s1) = (Ok k, do_steps L sts s1) /\
    fetch_count (trace (world (do_steps L sts s1))) = fetch_count (trace (world s1)).
Proof.
  intros H.
  destruct (getMXEPublicKey_frame L s s1 (Ok k) H)
    as (_ & _ & Hc & _ & pre & (_ & _ & _ & _ & Htr) & _ & Hpre & _).
  specialize (Hc k eq_refl).
  split; [rewrite Htr, fetch_count_app; lia |]. split; [exact Hc |].
  intros sts.
  destruct (do_steps_evolves L sts s1) as (_ & Hk & _).
  destruct (Hk k Hc) as [Hk' Hf].
  split; [apply getMXEPublicKey_cached; exact Hk' | exact Hf].
Qed.

Lemma key_cached_witness :
  let s1 := snd (getMXEPublicKey Toy.lib Toy.client_ready) in
  let s2 := do_steps Toy.lib
              [LedgerBecomes Toy.ledger_empty; CallEncryptTradeParams Toy.params;
               CallGenerateComputationOffset] s1 in
  getMXEPublicKey Toy.lib s2 = (Ok (slice 8 40 Toy.account_data), s2) /\
  fetch_count (trace (world s2)) = 1%nat.
Proof.
  intros s1 s2.
  assert (H : getMXEPublicKey Toy.lib Toy.client_ready
              = (Ok (slice 8 40 Toy.account_data), s1)) by (vm_compute; reflexivity).
  destruct (key_cached Toy.lib Toy.client_ready s1 _ H) as (_ & _ & Hs).
  destruct (Hs [LedgerBecomes Toy.ledger_empty; CallEncryptTradeParams Toy.params;
                CallGenerateComputationOffset]) as [H1 H2].
  split; [exact H1 |]. fold s2 in H2. rewrite H2. vm_compute. reflexivity.
Defined.

(** ** One nonce for the four fields *)

Lemma nonce_reused_in_call (L : ArciumLib) (params : TradeParams) (s s1 : St)
      (enc : EncryptedTradeParams) (vsize : Z) :
  encryptTradeParams L params s = (Ok enc, s1) ->
  scale6 (tp_sizeUsd params) = Ok vsize ->
  vsize <> side_code (tp_side params) ->
  nonce_reused (trace (world s1)).
Proof.
  intros H Hv Hne.
  destruct (encryptTradeParams_trace L params s s1 enc H)
    as (pre & secret & vsize' & vcoll & vprice & H1 & _ & _ & _ & _ & _ & Htr).
  rewrite Hv in H1. injection H1 as <-.
  exists secret, (enc_nonce enc), [side_code (tp_side params)], [vsize].
  rewrite Htr. repeat split.
  - apply in_or_app; right. apply in_or_app; right. left; reflexivity.
  - apply in_or_app; right. apply in_or_app; right. right; left; reflexivity.
  - congruence.
Qed.

(** C2, as the code has it: the call for 1000, 100 and 142.5 gives the
    cipher the plaintexts 1 and 1000000000 under one secret and one nonce. *)
Lemma nonce_reused_across_fields : nonce_reused (trace (world Toy.after)).
Proof.
  apply (nonce_reused_in_call Toy.lib Toy.params Toy.client_ready Toy.after Toy.enc
           1000000000 toy_run).
  - reflexivity.
  - discriminate.
Qed.

(** C2, amended. A call of [encryptTradeParams] draws one nonce of 16
    bytes from the random source and uses that one nonce, under one
    secret, for its four calls into the cipher; the nonce is fresh for the
    call: a later call of the same client reads its nonce further on the
    tape of the random source. *)
Theorem one_nonce_per_call (L : ArciumLib) (params : TradeParams) (s s1 : St)
        (enc : EncryptedTradeParams) :
  encryptTradeParams L params s = (Ok enc, s1) ->
  enc_nonce enc = map (entropy (world s)) (seq (rng_pos (world s)) 16) /\
  rng_pos (world s1) = (rng_pos (world s) + 16)%nat /\
  (exists pre secret a b c d,
     encrypt_calls pre = [] /\
     trace (world s1) =
       (trace (world s) ++ pre ++ four_calls secret (enc_nonce enc) a b c d)%list) /\
  (forall (sts : list step) (params' : TradeParams) (enc' : EncryptedTradeParams)
          (s2 : St),
     encryptTradeParams L params' (do_steps L sts s1) = (Ok enc', s2) ->
     exists p', (rng_pos (world s) + 16 <= p')%nat /\
                enc_nonce enc' = map (entropy (world s)) (seq p' 16)).
Proof.
  intros H.
  destruct (encryptTradeParams_trace L params s s1 enc H)
    as (pre & secret & vsize & vcoll & vprice & _ & _ & _ & Hpre & Hn & Hrng & Htr).
  split; [exact Hn |]. split; [exact Hrng |]. split.
  - exists pre, secret, (side_code (tp_side params)), vsize, vcoll, vprice.
    split; assumption.
  - intros sts params' enc' s2 H'.
    destruct (encryptTradeParams_trace L params' _ s2 enc' H')
      as (_ & _ & _ & _ & _ & _ & _ & _ & _ & Hn' & _ & _).
    destruct (do_steps_evolves L sts s1) as (_ & _ & Hent & Hpos).
    destruct (encryptTradeParams_evolves L params s) as (_ & _ & Hent1 & _).
    rewrite H in Hent1. cbn [snd] in Hent1.
    exists (rng_pos (world (do_steps L sts s1))). split; [lia |].
    rewrite Hn'. unfold tape. rewrite Hent, Hent1. reflexivity.
Qed.

Lemma one_nonce_per_call_witness :
  enc_nonce Toy.enc = map (entropy (world Toy.client_ready)) (seq 32 16) /\
  rng_pos (world Toy.after) = 48%nat.
Proof.
  destruct (one_nonce_per_call Toy.lib Toy.params Toy.client_ready Toy.after Toy.enc toy_run)
    as (Hn & Hp & _).
  split; [exact Hn | exact Hp].
Defined.

(** ** Computation offsets *)

Lemma BN_fold (u : bytes) (a : Z) :
  fold_left (fun acc b => acc * 256 + Z_of_byte b) u a
  = a * 256 ^ Z.of_nat (List.length u) + BN_of_bytes u.
Proof.
  unfold BN_of_bytes. revert a. induction u as [| b u IH]; intros a.
  - simpl. lia.
  - cbn [fold_left List.length]. rewrite IH, (IH (0 * 256 + Z_of_byte b)).
    rewrite Nat2Z.inj_succ, Z.pow_succ_r by lia. ring.
Qed.

Lemma BN_cons (b : Byte.byte) (u : bytes) :
  BN_of_bytes (b :: u) = Z_of_byte b * 256 ^ Z.of_nat (List.length u) + BN_of_bytes u.
Proof.
  unfold BN_of_bytes at 1. cbn [fold_left]. rewrite BN_fold. ring.
Qed.

Lemma BN_range (u : bytes) : 0 <= BN_of_bytes u < 256 ^ Z.of_nat (List.length u).
Proof.
  induction u as [| b u IH].
  - cbv. split; [discriminate | reflexivity].
  - rewrite BN_cons. cbn [List.length]. rewrite Nat2Z.inj_succ, Z.pow_succ_r by lia.
    pose proof (Z_of_byte_range b).
    assert (0 < 256 ^ Z.of_nat (List.length u)) by (apply Z.pow_pos_nonneg; lia).
    nia.
Qed.

Lemma Z_of_byte_inj (b b' : Byte.byte) : Z_of_byte b = Z_of_byte b' -> b = b'.
Proof.
  unfold Z_of_byte. intros H. apply N2Z.inj in H.
  pose proof (Byte.of_to_N b) as E. rewrite H, Byte.of_to_N in E. congruence.
Qed.

(** Two buffers of one length are the same number only when they are the
    same bytes. *)
Lemma BN_inj (u u' : bytes) :
  List.length u = List.length u' -> BN_of_bytes u = BN_of_bytes u' -> u = u'.
Proof.
  revert u'. induction u as [| b u IH]; intros [| b' u'] Hlen Heq;
    try discriminate; [reflexivity |].
  injection Hlen as Hlen. rewrite !BN_cons, <- Hlen in Heq.
  pose proof (BN_range u) as R. pose proof (BN_range u') as R'. rewrite <- Hlen in R'.
  pose proof (Z_of_byte_range b). pose proof (Z_of_byte_range b').
  assert (P : 0 < 256 ^ Z.of_nat (List.length u)) by (apply Z.pow_pos_nonneg; lia).
  assert (Hb : Z_of_byte b = Z_of_byte b') by nia.
  rewrite Hb in Heq. f_equal.
  - apply Z_of_byte_inj; assumption.
  - apply IH; [assumption | lia].
Qed.

Lemma generateComputationOffset_run (s : St) :
  generateComputationOffset s
  = (Ok (BN_of_bytes (tape (world s) 8)), on_world (advance_rng 8) s).
Proof. reflexivity. Qed.

(** ** A submission and its offset *)

Lemma awaited_app (tr tr' : list event) :
  awaited (tr ++ tr') = (awaited tr ++ awaited tr')%list.
Proof. unfold awaited. apply flat_map_app. Qed.

Lemma no_await_refl (s : St) : no_await s s.
Proof. split; reflexivity. Qed.

Lemma no_await_trans (s1 s2 s3 : St) : no_await s1 s2 -> no_await s2 s3 -> no_await s1 s3.
Proof. intros [A B] [A' B']. split; congruence. Qed.

Lemma no_await_emit (e : event) (s : St) :
  awaited [e] = [] -> no_await s (on_world (emit e) s).
Proof.
  intros He. split; [reflexivity |].
  cbn [world on_world emit trace]. rewrite awaited_app, He, app_nil_r. reflexivity.
Qed.

Lemma no_await_advance (n : nat) (s : St) : no_await s (on_world (advance_rng n) s).
Proof. split; reflexivity. Qed.

Lemma getMXEPublicKey_no_await (L : ArciumLib) (s : St) :
  no_await s (snd (getMXEPublicKey L s)).
Proof.
  destruct (mxePublicKey (this s)) as [k |] eqn:Hk.
  - rewrite (getMXEPublicKey_cached L s k Hk). apply no_await_refl.
  - rewrite (getMXEPublicKey_fetch L s Hk).
    destruct (ledger (world s) (mxeConfigPda L s)); cbn [snd];
      split; try reflexivity;
      cbn [world on_world emit trace set_mxePublicKey];
      rewrite ?awaited_app; cbn; rewrite ?app_nil_r; reflexivity.
Qed.

(** [encryptTradeParams] waits on nothing. *)
Lemma encryptTradeParams_no_await (L : ArciumLib) (params : TradeParams) (s : St) :
  no_await s (snd (encryptTradeParams L params s)).
Proof.
  unfold encryptTradeParams. unfold bind at 1.
  pose proof (getMXEPublicKey_no_await L s) as H0.
  destruct (getMXEPublicKey L s) as [[k | e] s0]; cbn [snd] in H0; [| exact H0].
  cbv [bind gets lift randomBytes encrypt_field cipher_encrypt modify ret].
  step_through; cbn [snd]; (eapply no_await_trans; [exact H0 |]);
    repeat first
      [ apply no_await_refl
      | eapply no_await_trans; [| apply no_await_emit; reflexivity]
      | eapply no_await_trans; [| apply no_await_advance] ].
Qed.

(** The closing of a position, step by step: the offset is drawn, the
    toast shown, the offset waited on; the answer of the cluster decides
    between the result and the error. *)
Lemma closePosition_run (s : St) :
  let v := BN_of_bytes (tape (world s) 8) in
  let s1 := on_world (emit (AwaitFinalization v))
              (on_world (emit (ToastInfo "Closing position" "Waiting for MPC computation..."))
                 (on_world (advance_rng 8) s)) in
  closePosition_mutationFn true s
  = match finalization (world s) v with
    | Ok sig =>
        (Ok {| cr_queueSignature := "pending-deployment-" ++ string_of_Z (now (world s));
               cr_finalizeSignature := sig |}, s1)
    | Throw e =>
        (Throw e, on_world (emit (ConsoleError "Failed to close position:" e)) s1)
    end.
Proof.
  unfold closePosition_mutationFn. cbn [negb]. unfold bind at 1.
  rewrite generateComputationOffset_run.
  cbv [bind gets lift modify ret toast_info try_catch awaitComputation console_error throw].
  cbn [world on_world finalization emit advance_rng now].
  destruct (finalization (world s) _); reflexivity.
Qed.

(** The opening of a position: the offset is drawn first; when the
    encryption throws, the submission ends there. *)
Lemma openPosition_run (L : ArciumLib) (params : TradeParams) (s : St) :
  let v := BN_of_bytes (tape (world s) 8) in
  openPosition_mutationFn L true params s
  = match encryptTradeParams L params (on_world (advance_rng 8) s) with
    | (Ok enc, s1) =>
        let s2 := on_world (emit (AwaitFinalization v))
                    (on_world (emit (ToastInfo "Position queued"
                                       "Waiting for MPC computation...")) s1) in
        match finalization (world s1) v with
        | Ok sig =>
            (Ok {| or_queueSignature := "pending-deployment-" ++ string_of_Z (now (world s1));
                   or_finalizeSignature := sig;
                   or_computationOffset := string_of_Z v |}, s2)
        | Throw e => (Throw e, on_world (emit (ConsoleError "Computation failed:" e)) s2)
        end
    | (Throw e, s1) => (Throw e, s1)
    end.
Proof.
  unfold openPosition_mutationFn. cbn [negb]. unfold bind at 1.
  rewrite generateComputationOffset_run. unfold bind at 1.
  destruct (encryptTradeParams L params _) as [[enc | e] s1]; [| reflexivity].
  cbv [bind gets lift modify ret toast_info try_catch awaitComputation console_error throw].
  cbn [world on_world finalization emit now].
  destruct (finalization (world s1) _); reflexivity.
Qed.

(** Every action keeps what a step keeps, and a submission reads 8 bytes
    of the random source at least. *)
Lemma act_evolves (L : ArciumLib) (a : action) (s : St) : evolves s (act L a s).
Proof.
  destruct a as [params | | st]; cbn [act].
  - rewrite openPosition_run. cbv zeta.
    pose proof (encryptTradeParams_evolves L params (on_world (advance_rng 8) s)) as H0.
    destruct (encryptTradeParams L params _) as [[enc | e] s1]; cbn [snd] in H0 |- *.
    + destruct (finalization (world s1) _); cbn [snd];
        (eapply evolves_trans; [apply evolves_advance |]);
        (eapply evolves_trans; [exact H0 |]); evolve.
    + eapply evolves_trans; [apply evolves_advance | exact H0].
  - rewrite closePosition_run. cbv zeta.
    destruct (finalization (world s) _); cbn [snd]; evolve.
  - apply do_step_evolves.
Qed.

Lemma act_all_evolves (L : ArciumLib) (l : list action) (s : St) :
  evolves s (act_all L l s).
Proof.
  unfold act_all. revert s. induction l as [| a l IH]; intros s; simpl.
  - apply evolves_refl.
  - eapply evolves_trans; [apply act_evolves | apply IH].
Qed.

Lemma submission_reads (L : ArciumLib) (a : action) (s : St) :
  (forall st, a <> Method st) ->
  (rng_pos (world s) + 8 <= rng_pos (world (act L a s)))%nat.
Proof.
  intros Hsub. destruct a as [params | | st]; cbn [act]; [| | destruct (Hsub st eq_refl)].
  - rewrite openPosition_run. cbv zeta.
    destruct (encryptTradeParams_evolves L params (on_world (advance_rng 8) s))
      as (_ & _ & _ & H0).
    destruct (encryptTradeParams L params _) as [[enc | e] s1]; cbn [snd] in H0 |- *;
      [destruct (finalization (world s1) _) |];
      cbn [snd world on_world emit advance_rng rng_pos] in H0 |- *; exact H0.
  - rewrite closePosition_run. cbv zeta.
    destruct (finalization (world s) _);
      cbn [snd world on_world emit advance_rng rng_pos]; lia.
Qed.

(** C9, as the code has it: nothing keeps the offset of a submission apart
    from the earlier ones.  On a random source that gives the 8 bytes of
    the first draw again 256 bytes later, the 33rd of 33 closings in a row
    waits on the offset of the first. *)
Lemma offset_reused :
  let tr := trace (world (act_all Toy.lib (repeat SubmitClose 33) Toy.client_ready)) in
  List.length (awaited tr) = 33%nat /\
  nth_error (awaited tr) 0 = Some 12380664868723001774 /\
  nth_error (awaited tr) 32 = Some 12380664868723001774.
Proof. vm_compute. repeat split. Qed.

(** C9, amended. A computation offset is the number of 8 bytes drawn from
    the secure random source, read most significant byte first, a value in
    [0, 2^64).  Every submission draws one: a closing draws it, shows its
    notice and waits on that offset, whatever the cluster answers; an
    opening draws it, then encrypts, and waits on that offset when the
    encryption returned, and gives it back in its result.  The offset of
    any later submission is read at least 8 bytes further on the random
    source, and is the same number exactly when the source gave the same 8
    bytes again: the offsets are as fresh as the random bytes are. *)
Theorem offset_per_submission (L : ArciumLib) (s : St) :
  exists v,
    generateComputationOffset s = (Ok v, on_world (advance_rng 8) s) /\
    v = BN_of_bytes (map (entropy (world s)) (seq (rng_pos (world s)) 8)) /\
    0 <= v < 2 ^ 64 /\
    (awaited (trace (world (act L SubmitClose s)))
     = (awaited (trace (world s)) ++ [v])%list /\
     rng_pos (world (act L SubmitClose s)) = (rng_pos (world s) + 8)%nat /\
     match finalization (world s) v with
     | Ok sig => exists r, fst (closePosition_mutationFn true s) = Ok r /\
                           cr_finalizeSignature r = sig
     | Throw e => fst (closePosition_mutationFn true s) = Throw e
     end) /\
    (forall params,
       match fst (encryptTradeParams L params (on_world (advance_rng 8) s)) with
       | Ok _ =>
           awaited (trace (world (act L (SubmitOpen params) s)))
           = (awaited (trace (world s)) ++ [v])%list /\
           match finalization (world s) v with
           | Ok sig => exists r, fst (openPosition_mutationFn L true params s) = Ok r /\
                                 or_computationOffset r = string_of_Z v /\
                                 or_finalizeSignature r = sig
           | Throw e => fst (openPosition_mutationFn L true params s) = Throw e
           end
       | Throw e =>
           fst (openPosition_mutationFn L true params s) = Throw e /\
           awaited (trace (world (act L (SubmitOpen params) s)))
           = awaited (trace (world s))
       end) /\
    (forall (a : action) (l : list action),
       (forall st, a <> Method st) ->
       exists p',
         (rng_pos (world s) + 8 <= p')%nat /\
         fst (generateComputationOffset (act_all L l (act L a s)))
         = Ok (BN_of_bytes (map (entropy (world s)) (seq p' 8))) /\
         (BN_of_bytes (map (entropy (world s)) (seq p' 8)) = v <->
          map (entropy (world s)) (seq p' 8)
          = map (entropy (world s)) (seq (rng_pos (world s)) 8))).
Proof.
  exists (BN_of_bytes (tape (world s) 8)).
  split; [apply generateComputationOffset_run |].
  split; [reflexivity |]. split.
  { pose proof (BN_range (tape (world s) 8)) as R. rewrite tape_length in R.
    change (256 ^ Z.of_nat 8) with (2 ^ 64) in R. exact R. }
  split; [| split].
  - cbn [act]. rewrite closePosition_run. cbv zeta.
    destruct (finalization (world s) _) as [sig | e];
      cbn [fst snd world on_world emit advance_rng trace rng_pos];
      rewrite ?awaited_app; cbn [awaited flat_map app];
      rewrite ?app_nil_r, <- ?app_assoc; cbn [app];
      (split; [reflexivity |]); (split; [reflexivity |]);
      [eexists; split; reflexivity | reflexivity].
  - intros params. cbn [act]. rewrite openPosition_run. cbv zeta.
    destruct (encryptTradeParams_no_await L params (on_world (advance_rng 8) s))
      as [Hfin Haw].
    destruct (encryptTradeParams L params _) as [[enc | e] s1];
      cbn [fst snd world on_world advance_rng finalization trace] in Hfin, Haw |- *.
    + rewrite Hfin.
      destruct (finalization (world s) _) as [sig | e];
        cbn [fst snd world on_world emit trace];
        rewrite ?awaited_app, Haw; cbn [awaited flat_map app];
        rewrite ?app_nil_r, <- ?app_assoc; cbn [app];
        (split; [reflexivity |]);
        [eexists; repeat split; reflexivity | reflexivity].
    + split; [reflexivity | exact Haw].
  - intros a l Hsub.
    pose proof (submission_reads L a s Hsub) as Hread.
    destruct (act_evolves L a s) as (_ & _ & Hent1 & _).
    destruct (act_all_evolves L l (act L a s)) as (_ & _ & Hent & Hpos).
    exists (rng_pos (world (act_all L l (act L a s)))).
    split; [lia |]. rewrite generateComputationOffset_run. cbn [fst].
    unfold tape. rewrite Hent, Hent1. split; [reflexivity |].
    split; [| intros ->; reflexivity].
    intros Heq. apply BN_inj; [rewrite !length_map, !length_seq; reflexivity | exact Heq].
Qed.

Lemma offset_per_submission_witness :
  fst (generateComputationOffset Toy.client_ready) = Ok 12380664868723001774 /\
  awaited (trace (world (act Toy.lib SubmitClose Toy.client_ready)))
  = [12380664868723001774] /\
  (exists r, fst (openPosition_mutationFn Toy.lib true Toy.params Toy.client_ready) = Ok r /\
             or_computationOffset r = "12380664868723001774") /\
  exists p', (40 <= p')%nat /\
    fst (generateComputationOffset
           (act_all Toy.lib [SubmitClose] (act Toy.lib (SubmitOpen Toy.params) Toy.client_ready)))
    = Ok (BN_of_bytes (map (entropy (world Toy.client_ready)) (seq p' 8))).
Proof.
  destruct (offset_per_submission Toy.lib Toy.client_ready)
    as (v & Hrun & Hv & _ & (Hclose & _) & Hopen & Hlater).
  vm_compute in Hv. subst v.
  split; [rewrite Hrun; reflexivity |].
  split; [exact Hclose |]. split.
  - specialize (Hopen Toy.params).
    assert (Henc : fst (encryptTradeParams Toy.lib Toy.params
                          (on_world (advance_rng 8) Toy.client_ready))
                   = Ok (match fst (encryptTradeParams Toy.lib Toy.params
                                      (on_world (advance_rng 8) Toy.client_ready)) with
                         | Ok e => e
                         | Throw _ => Toy.enc
                         end)) by (vm_compute; reflexivity).
    rewrite Henc in Hopen. destruct Hopen as (_ & Hfin).
    change (finalization (world Toy.client_ready) 12380664868723001774)
      with (@Ok string "signature") in Hfin.
    destruct Hfin as (r & Hr & Hoff & _). exists r. split; [exact Hr |].
    rewrite Hoff. vm_compute. reflexivity.
  - destruct (Hlater (SubmitOpen Toy.params) [SubmitClose]) as (p' & Hp & Hgen & _);
      [discriminate |].
    exists p'. split; [exact Hp | exact Hgen].
Defined.

(** ** The retry loop of the suite *)

Lemma sleeps_app (tr tr' : list test_event) :
  sleeps (tr ++ tr') = (sleeps tr ++ sleeps tr')%list.
Proof. unfold sleeps. apply flat_map_app. Qed.

Lemma fetches_app (tr tr' : list test_event) :
  fetches (tr ++ tr') = (fetches tr + fetches tr')%nat.
Proof. unfold fetches. rewrite filter_app, length_app. reflexivity. Qed.

(** A turn of the loop that finds no key: one fetch, a pause unless it
    was the last attempt, and the loop goes on. *)
Lemma retry_loop_turn (remaining attempt maxRetries : nat) (delay : Z) (w : TestWorld) :
  is_ready (mxe_outcomes w (mxe_calls w)) = false ->
  exists w1,
    retry_loop (S remaining) attempt maxRetries delay w
    = retry_loop remaining (S attempt) maxRetries delay w1 /\
    mxe_outcomes w1 = mxe_outcomes w /\
    mxe_calls w1 = S (mxe_calls w) /\
    fetches (test_trace w1) = S (fetches (test_trace w)) /\
    sleeps (test_trace w1)
    = (sleeps (test_trace w)
       ++ if (attempt <? maxRetries)%nat then [delay] else [])%list.
Proof.
  intros Hnot. cbn [retry_loop].
  unfold bind at 1, try_catch, lib_getMXEPublicKey.
  destruct (mxe_outcomes w (mxe_calls w)) as [key | | e]; [discriminate | |];
    cbv [bind console_log sleep modify ret];
    destruct (attempt <? maxRetries)%nat;
    eexists; (split; [reflexivity |]);
    cbn [mxe_outcomes mxe_calls test_trace test_emit];
    rewrite ?fetches_app, ?sleeps_app; cbn;
    rewrite ?app_nil_r, ?Nat.add_0_r, ?Nat.add_1_r; repeat split.
Qed.

(** When none of the [remaining] attempts finds the key, the loop makes
    them all, pauses between two of them and ends with the error of
    exhaustion. *)
Lemma retry_loop_exhausted (remaining : nat) :
  forall (attempt maxRetries : nat) (delay : Z) (w : TestWorld),
    (attempt + remaining = maxRetries + 1)%nat ->
    (forall i, (i < remaining)%nat ->
               is_ready (mxe_outcomes w (mxe_calls w + i)) = false) ->
    exists w',
      retry_loop remaining attempt maxRetries delay w = (Throw (exhausted maxRetries), w') /\
      mxe_outcomes w' = mxe_outcomes w /\
      mxe_calls w' = (mxe_calls w + remaining)%nat /\
      fetches (test_trace w') = (fetches (test_trace w) + remaining)%nat /\
      sleeps (test_trace w') = (sleeps (test_trace w) ++ repeat delay (remaining - 1))%list.
Proof.
  induction remaining as [| r IH]; intros attempt maxRetries delay w Hsum Hnone.
  - exists w. cbn [retry_loop]. unfold throw, exhausted. simpl repeat.
    rewrite app_nil_r, !Nat.add_0_r. repeat split.
  - pose proof (Hnone 0%nat ltac:(lia)) as H0. rewrite Nat.add_0_r in H0.
    destruct (retry_loop_turn r attempt maxRetries delay w H0)
      as (w1 & -> & Ho1 & Hc1 & Hf1 & Hs1).
    destruct (IH (S attempt) maxRetries delay w1 ltac:(lia)) as (w' & Hrun & Ho & Hc & Hf & Hs).
    { intros i Hi. rewrite Ho1, Hc1.
      replace (S (mxe_calls w) + i)%nat with (mxe_calls w + S i)%nat by lia.
      apply Hnone. lia. }
    exists w'. split; [exact Hrun |].
    rewrite Ho, Hc, Hf, Hs, Ho1, Hc1, Hf1, Hs1, <- app_assoc.
    repeat split; try lia. f_equal.
    destruct (Nat.ltb_spec attempt maxRetries) as [Hlt | Hge].
    + destruct r as [| r']; [lia |]. cbn. rewrite Nat.sub_0_r. reflexivity.
    + assert (r = 0%nat) as -> by lia. reflexivity.
Qed.

(** Whatever the cluster answers, the loop makes at most [remaining]
    fetches; it returns a key only if a fetch gave that key, and throws
    only the error of exhaustion, after every fetch has failed. *)
Lemma retry_loop_cases (remaining : nat) :
  forall (attempt maxRetries : nat) (delay : Z) (w w' : TestWorld) (r : result bytes),
    retry_loop remaining attempt maxRetries delay w = (r, w') ->
    mxe_outcomes w' = mxe_outcomes w /\
    (mxe_calls w' <= mxe_calls w + remaining)%nat /\
    match r with
    | Ok key =>
        exists i, (i < remaining)%nat /\ mxe_calls w' = (mxe_calls w + i + 1)%nat /\
                  mxe_outcomes w (mxe_calls w + i) = KeyReady key
    | Throw e =>
        e = exhausted maxRetries /\
        forall i, (i < remaining)%nat ->
                  is_ready (mxe_outcomes w (mxe_calls w + i)) = false
    end.
Proof.
  induction remaining as [| n IH]; intros attempt maxRetries delay w w' r H.
  - cbn in H. injection H as <- <-. repeat split; try lia; intros; lia.
  - destruct (is_ready (mxe_outcomes w (mxe_calls w))) eqn:Hready.
    + (* the key is there at this turn *)
      cbn [retry_loop] in H. unfold bind at 1, try_catch, lib_getMXEPublicKey in H.
      destruct (mxe_outcomes w (mxe_calls w)) as [key | | e] eqn:Hout; try discriminate.
      cbn in H. injection H as <- <-. cbn. repeat split; try lia.
      exists 0%nat. rewrite !Nat.add_0_r. repeat split; try lia. exact Hout.
    + destruct (retry_loop_turn n attempt maxRetries delay w Hready)
        as (w1 & Hturn & Ho1 & Hc1 & _).
      rewrite Hturn in H. apply IH in H. rewrite Ho1, Hc1 in H.
      destruct H as (Ho & Hc & Hr). split; [exact Ho |]. split; [lia |].
      destruct r as [key | e'].
      * destruct Hr as (i & Hi & Hc' & Hk). exists (S i).
        repeat split; try lia.
        replace (mxe_calls w + S i)%nat with (S (mxe_calls w) + i)%nat by lia.
        exact Hk.
      * destruct Hr as [-> Hnone]. split; [reflexivity |].
        intros [| i] Hi; [rewrite Nat.add_0_r; exact Hready |].
        replace (mxe_calls w + S i)%nat with (S (mxe_calls w) + i)%nat by lia.
        apply Hnone. lia.
Qed.

Lemma load_arciumEnv_run (getArciumEnv : result ArciumEnv) (programId : PublicKey)
      (w : TestWorld) :
  load_arciumEnv getArciumEnv programId w =
  match getArciumEnv with
  | Ok env => (Ok env, w)
  | Throw _ =>
      (Ok (fallback_env programId),
       test_emit (ConsoleLog "Failed to load Arcium env via getArciumEnv, using fallback values") w)
  end.
Proof. destruct getArciumEnv; reflexivity. Qed.

(** C4. The fetch of the key of the cluster fails with an error when the
    account that holds it is absent, and caches nothing.  The suite
    retries it a bounded number of times, 20 times 2000 ms apart in its
    set-up: when every attempt fails it has made exactly that many
    fetches, with a pause between two of them, and ends with the error of
    exhaustion, which is not the error of one failed fetch; it never makes
    more fetches, and returns a key only if a fetch gave that key. *)
Theorem key_fetch_retry :
  (forall (L : ArciumLib) (s : St),
     mxePublicKey (this s) = None ->
     ledger (world s) (mxeConfigPda L s) = NoAccount ->
     fst (getMXEPublicKey L s) = Throw (Error "Could not initialize Arcium encryption") /\
     mxePublicKey (this (snd (getMXEPublicKey L s))) = None) /\
  (forall (maxRetries : nat) (delay : Z) (w : TestWorld),
     (forall i, (i < maxRetries)%nat ->
                is_ready (mxe_outcomes w (mxe_calls w + i)) = false) ->
     exists w',
       getMXEPublicKeyWithRetry maxRetries delay w = (Throw (exhausted maxRetries), w') /\
       fetches (test_trace w') = (fetches (test_trace w) + maxRetries)%nat /\
       sleeps (test_trace w') = (sleeps (test_trace w) ++ repeat delay (maxRetries - 1))%list) /\
  (forall (getArciumEnv : result ArciumEnv) (programId : PublicKey) (w : TestWorld),
     (forall i, (i < 20)%nat ->
                is_ready (mxe_outcomes w (mxe_calls w + i)) = false) ->
     exists w',
       before_arcium getArciumEnv programId w
       = (Throw (Error "Failed to fetch MXE public key after 20 attempts"), w') /\
       fetches (test_trace w') = (fetches (test_trace w) + 20)%nat /\
       sleeps (test_trace w') = (sleeps (test_trace w) ++ repeat 2000 19)%list) /\
  (forall (maxRetries : nat) (delay : Z) (w w' : TestWorld) (r : result bytes),
     getMXEPublicKeyWithRetry maxRetries delay w = (r, w') ->
     (mxe_calls w' <= mxe_calls w + maxRetries)%nat /\
     match r with
     | Ok key => exists i, (i < maxRetries)%nat /\
                           mxe_outcomes w (mxe_calls w + i) = KeyReady key
     | Throw e => e = exhausted maxRetries
     end) /\
  (forall maxRetries : nat,
     exhausted maxRetries <> Error "Could not initialize Arcium encryption").
Proof.
  split; [| split; [| split; [| split]]].
  - intros L s Hk Hno.
    rewrite (getMXEPublicKey_fetch L s Hk), Hno. cbn. split; [reflexivity | exact Hk].
  - intros maxRetries delay w Hnone. unfold getMXEPublicKeyWithRetry.
    destruct (retry_loop_exhausted maxRetries 1 maxRetries delay w ltac:(lia) Hnone)
      as (w' & Hrun & _ & _ & Hf & Hs).
    exists w'. repeat split; assumption.
  - intros getArciumEnv programId w Hnone. unfold before_arcium.
    unfold bind at 1. rewrite load_arciumEnv_run.
    destruct getArciumEnv as [env | e];
      cbv [bind console_log modify];
      match goal with
      | |- context [getMXEPublicKeyWithRetry 20 2000 ?w1] =>
          destruct (retry_loop_exhausted 20 1 20 2000 w1 ltac:(lia))
            as (w' & Hrun & _ & _ & Hf & Hs);
          [ intros i Hi; cbn [test_emit mxe_outcomes mxe_calls]; apply Hnone; exact Hi |]
      end;
      exists w'; unfold getMXEPublicKeyWithRetry; rewrite Hrun;
      (split; [reflexivity |]);
      cbn [test_emit test_trace] in Hf, Hs; rewrite Hs, Hf;
      rewrite !fetches_app, !sleeps_app; cbn;
      rewrite ?app_nil_r, ?Nat.add_0_r; split; reflexivity.
  - intros maxRetries delay w w' r H. unfold getMXEPublicKeyWithRetry in H.
    destruct (retry_loop_cases _ _ _ _ _ _ _ H) as (_ & Hc & Hr).
    split; [exact Hc |]. destruct r as [key | e].
    + destruct Hr as (i & Hi & _ & Hk). exists i. split; assumption.
    + destruct Hr as [-> _]. reflexivity.
  - intros maxRetries. unfold exhausted. cbn. discriminate.
Qed.

Lemma key_fetch_retry_witness :
  fst (getMXEPublicKey Toy.lib Toy.client_empty)
  = Throw (Error "Could not initialize Arcium encryption") /\
  exists w',
    getMXEPublicKeyWithRetry 20 2000 (Toy.test_world (fun _ => KeyMissing))
    = (Throw (Error "Failed to fetch MXE public key after 20 attempts"), w') /\
    fetches (test_trace w') = 20%nat /\
    sleeps (test_trace w') = repeat 2000 19.
Proof.
  destruct key_fetch_retry as (H1 & H2 & _). split.
  - apply (H1 Toy.lib Toy.client_empty); reflexivity.
  - destruct (H2 20%nat 2000 (Toy.test_world (fun _ => KeyMissing)))
      as (w' & Hrun & Hf & Hs); [intros i _; reflexivity |].
    exists w'. split; [exact Hrun |]. split; [exact Hf | exact Hs].
Defined.

(** ** The configuration of the suite *)

(** C8, as the code has it: when [getArciumEnv] throws, the set-up goes on
    with the hardcoded configuration. *)
Lemma fallback_config_received :
  fst (load_arciumEnv (Throw (Error "Arcium environment not found")) Toy.program
         (Toy.test_world (fun _ => KeyMissing)))
  = Ok {| arciumClusterPubkey := "2E4qQsaFWEWFbyKRDEaK2bAWQLFnk9MDRv6PCpViArmN";
          mxeProgramId := Toy.program |}.
Proof. reflexivity. Qed.

(** C8, amended. When the Arcium environment cannot be loaded, the set-up
    of the suite catches the error, writes a line to the console and goes
    on with a hardcoded configuration: the placeholder key of the cluster
    and the program's own id; the caller gets no failure to handle, and
    the set-up ends with those values once the key of the cluster is
    there.  When the environment can be loaded, it is used as it is. *)
Theorem config_fallback (getArciumEnv : result ArciumEnv) (programId : PublicKey)
        (w : TestWorld) :
  load_arciumEnv getArciumEnv programId w =
  match getArciumEnv with
  | Ok env => (Ok env, w)
  | Throw _ =>
      (Ok {| arciumClusterPubkey := "2E4qQsaFWEWFbyKRDEaK2bAWQLFnk9MDRv6PCpViArmN";
             mxeProgramId := programId |},
       test_emit (ConsoleLog "Failed to load Arcium env via getArciumEnv, using fallback values") w)
  end /\
  (forall (e : error) (key : bytes),
     getArciumEnv = Throw e ->
     mxe_outcomes w (mxe_calls w) = KeyReady key ->
     fst (before_arcium getArciumEnv programId w)
     = Ok ({| arciumClusterPubkey := "2E4qQsaFWEWFbyKRDEaK2bAWQLFnk9MDRv6PCpViArmN";
              mxeProgramId := programId |}, key)).
Proof.
  split; [apply load_arciumEnv_run |].
  intros e key -> Hkey. unfold before_arcium.
  unfold bind at 1. rewrite load_arciumEnv_run.
  cbv [bind console_log modify getMXEPublicKeyWithRetry].
  cbn [retry_loop]. unfold bind at 1, try_catch, lib_getMXEPublicKey.
  cbn [test_emit mxe_outcomes mxe_calls]. rewrite Hkey. reflexivity.
Qed.

Lemma config_fallback_witness :
  fst (before_arcium (Throw (Error "Arcium environment not found")) Toy.program
         (Toy.test_world (fun _ => KeyReady (slice 8 40 Toy.account_data))))
  = Ok ({| arciumClusterPubkey := "2E4qQsaFWEWFbyKRDEaK2bAWQLFnk9MDRv6PCpViArmN";
           mxeProgramId := Toy.program |}, slice 8 40 Toy.account_data).
Proof.
  exact (proj2 (config_fallback (Throw (Error "Arcium environment not found")) Toy.program
                  (Toy.test_world (fun _ => KeyReady (slice 8 40 Toy.account_data))))
           (Error "Arcium environment not found") (slice 8 40 Toy.account_data)
           eq_refl eq_refl).
Defined.

(** ** The accuracy of binary64 *)

Lemma fexp_ge (z : Z) : -1074 <= fexp b64_prec b64_emax z.
Proof. unfold fexp. rewrite emin64. lia. Qed.

Lemma fexp_spec (z : Z) : fexp b64_prec b64_emax z = Z.max (z - 53) (-1074).
Proof. unfold fexp. rewrite emin64. reflexivity. Qed.

(** The second shift of a rounding loses nothing: it happens only for a
    carry, which is a power of two. *)
Lemma shr_fexp_exact (m' m2 e' : Z) :
  0 <= m' -> m' <= m2 <= m' + 1 ->
  fexp b64_prec b64_emax (Zdigits2 m' + e') <= e' ->
  shr_m (fst (shr_fexp b64_prec b64_emax m2 e' loc_Exact))
  * 2 ^ (snd (shr_fexp b64_prec b64_emax m2 e' loc_Exact) - e') = m2 /\
  e' <= snd (shr_fexp b64_prec b64_emax m2 e' loc_Exact).
Proof.
  intros Hm' Hm2 Hf.
  destruct (shr_fexp_spec m2 e' loc_Exact ltac:(lia)) as [-> ->].
  rewrite fexp_spec in *.
  destruct (Z.ltb_spec 0 (Z.max (Zdigits2 m2 + e' - 53) (-1074) - e')) as [Hn | Hn].
  - (* a shift: the mantissa went up to a power of two *)
    assert (Hd : Zdigits2 m' < Zdigits2 m2) by lia.
    assert (Hm2' : m2 = m' + 1).
    { destruct (Z.eq_dec m2 m') as [-> | ]; lia. }
    assert (Hpos : 0 < m2) by lia.
    pose proof (Zdigits2_bounds m2 Hpos) as [Hlo _].
    assert (Hd' : Zdigits2 m2 <= Zdigits2 m' + 1).
    { destruct (Z.eq_dec m' 0) as [-> | Hnz].
      - subst m2. cbn. lia.
      - pose proof (Zdigits2_bounds m' ltac:(lia)) as [_ Hhi].
        destruct (Z.le_gt_cases (Zdigits2 m2) (Zdigits2 m' + 1)) as [| Hgt]; [assumption |].
        exfalso.
        assert (2 ^ (Zdigits2 m' + 1) <= 2 ^ (Zdigits2 m2 - 1))
          by (apply Z.pow_le_mono_r; lia).
        pose proof (Zdigits2_nonneg m').
        rewrite Z.pow_add_r in H by lia. lia. }
    assert (Hd2 : Zdigits2 m2 = Zdigits2 m' + 1) by lia.
    assert (Hd1 : 1 <= Zdigits2 m').
    { destruct (Z.eq_dec m' 0) as [-> | Hnz]; [cbn in *; lia |].
      pose proof (Zdigits2_pos m' ltac:(lia)). lia. }
    assert (Hn1 : Z.max (Zdigits2 m2 + e' - 53) (-1074) - e' = 1) by lia.
    rewrite Hn1 in *. 
    replace (e' + 1 - e') with 1 by lia. change (2 ^ 1) with 2.
    split; [| lia].
    assert (Hpow : m2 = 2 ^ Zdigits2 m').
    { destruct (Z.eq_dec m' 0) as [-> | Hnz]; [cbn in *; lia |].
      pose proof (Zdigits2_bounds m' ltac:(lia)) as [_ Hhi].
      rewrite Hd2 in Hlo. replace (Zdigits2 m' + 1 - 1) with (Zdigits2 m') in Hlo by lia.
      lia. }
    rewrite Hpow.
    replace (Zdigits2 m') with (1 + (Zdigits2 m' - 1)) at 1 2 by lia.
    rewrite Z.pow_add_r by lia. change (2 ^ 1) with 2.
    set (x := 2 ^ (Zdigits2 m' - 1)).
    replace (2 * x / 2) with x by (rewrite (Z.mul_comm 2 x), Z.div_mul; lia). lia.
  - replace (e' - e') with 0 by lia. change (2 ^ 0) with 1. lia.
Qed.

(** What a rounding gives, in units of 2^-1074: the mantissa cut at the
    exponent of the format, or the next integer; nothing is lost when the
    mantissa is in place and exact. *)
Lemma binary_round_aux_value (m e : Z) (loc : location) :
  0 <= m ->
  let r := binary_round_aux b64_prec b64_emax false m e loc in
  let E := Z.max e (fexp b64_prec b64_emax (Zdigits2 m + e)) in
  r = S754_infinity false \/
  (exists m2,
     m / 2 ^ (E - e) <= m2 <= m / 2 ^ (E - e) + 1 /\
     (loc = loc_Exact -> E = e -> m2 = m) /\
     units r = m2 * 2 ^ (E + 1074)) /\
  (forall mr er, r = S754_finite false mr er -> -1074 <= er /\ Z.pos mr < 2 ^ 53).
Proof.
  intros Hm r E. subst r.
  pose proof (fexp_ge (Zdigits2 m + e)) as HfE.
  assert (HE : -1074 <= E) by (subst E; lia).
  pose proof (binary_round_aux_cases false m e loc Hm) as Hcases.
  unfold binary_round_aux in *.
  destruct (shr_fexp_spec m e loc Hm) as [Hm1 He1].
  destruct (shr_fexp b64_prec b64_emax m e loc) as [mrs' e'] eqn:Hshr.
  cbn [fst snd] in Hm1, He1.
  assert (He' : e' = E).
  { rewrite He1. subst E.
    destruct (Z.ltb_spec 0 (fexp b64_prec b64_emax (Zdigits2 m + e) - e)); lia. }
  assert (Hm' : shr_m mrs' = m / 2 ^ (E - e)).
  { rewrite Hm1. subst E.
    destruct (Z.ltb_spec 0 (fexp b64_prec b64_emax (Zdigits2 m + e) - e)) as [Hn | Hn].
    - f_equal. f_equal. lia.
    - replace (Z.max e _ - e) with 0 by lia. change (2 ^ 0) with 1.
      rewrite Z.div_1_r. reflexivity. }
  assert (Hm'0 : 0 <= shr_m mrs').
  { rewrite Hm'. apply Z.div_pos; [lia | apply Z.pow_pos_nonneg; subst E; lia]. }
  pose proof (round_nearest_even_bounds (shr_m mrs') (loc_of_shr_record mrs')) as H2.
  set (m2 := round_nearest_even (shr_m mrs') (loc_of_shr_record mrs')) in *.
  assert (Hcanon : fexp b64_prec b64_emax (Zdigits2 (shr_m mrs') + e') <= e').
  { rewrite Hm', He'. rewrite !fexp_spec in *.
    destruct (Z.eq_dec (m / 2 ^ (E - e)) 0) as [-> | Hnz];
      [change (Zdigits2 0) with 0; lia |].
    assert (Hmpos : 0 < m).
    { destruct (Z.eq_dec m 0) as [-> | ]; [rewrite Z.div_0_l in Hnz; [lia |] | lia].
      apply Z.pow_nonzero; subst E; lia. }
    assert (Hk : 0 <= E - e < Zdigits2 m).
    { split; [subst E; lia |].
      destruct (Z.lt_ge_cases (E - e) (Zdigits2 m)) as [| Hge]; [assumption |].
      exfalso. apply Hnz. apply Z.div_small. split; [lia |].
      pose proof (Zdigits2_bounds m Hmpos) as [_ Hhi].
      eapply Z.lt_le_trans; [exact Hhi |]. apply Z.pow_le_mono_r; lia. }
    destruct (Zdigits2_div_pow2 m (E - e) Hmpos Hk) as [_ ->].
    subst E. rewrite !fexp_spec. lia. }
  destruct (shr_fexp_exact (shr_m mrs') m2 e' Hm'0 H2 Hcanon) as [Hval Hle].
  destruct (shr_fexp b64_prec b64_emax m2 e' loc_Exact) as [mrs'' e''].
  cbn [fst snd] in Hval, Hle.
  assert (Hunits : forall mr, shr_m mrs'' = mr -> 0 <= mr ->
                     mr * 2 ^ (e'' + 1074) = m2 * 2 ^ (E + 1074)).
  { intros mr Hmr _. rewrite <- Hval, Hmr, He'.
    rewrite <- Z.mul_assoc, <- Z.pow_add_r by lia. f_equal. f_equal. lia. }
  assert (Hex : loc = loc_Exact -> E = e -> m2 = m).
  { intros -> HEe. subst m2. rewrite Hm', HEe, Z.sub_diag. change (2 ^ 0) with 1.
    rewrite Z.div_1_r.
    unfold shr_fexp in Hshr.
    assert (Hn : fexp b64_prec b64_emax (Zdigits2 m + e) - e <= 0) by (subst E; lia).
    destruct (fexp b64_prec b64_emax (Zdigits2 m + e) - e) as [| p | p]; try lia;
      cbn in Hshr; injection Hshr as <- _; reflexivity. }
  destruct (shr_m mrs'') as [| mr | mr] eqn:Hmr.
  - right. split.
    + exists m2. rewrite <- Hm'. split; [exact H2 |]. split; [exact Hex |].
      cbn [units]. rewrite <- (Hunits 0 eq_refl ltac:(lia)). reflexivity.
    + intros mr er Habs. discriminate Habs.
  - destruct (e'' <=? b64_emax - b64_prec) eqn:Hov.
    + right. split.
      * exists m2. rewrite <- Hm'. split; [exact H2 |]. split; [exact Hex |].
        cbn [units]. apply (Hunits (Z.pos mr) eq_refl). lia.
      * intros mr0 er0 Heq. injection Heq as <- <-. split; [lia |].
        destruct Hcases as [Hc | [Hc | (m0 & e0 & Hc & Hlt)]]; try discriminate.
        injection Hc as <- _. exact Hlt.
    + left. reflexivity.
  - exfalso. 
    assert (0 <= 2 ^ (e'' - e')) by (apply Z.pow_nonneg; lia).
    assert (0 < 2 ^ (e'' - e')) by (apply Z.pow_pos_nonneg; lia).
    nia.
Qed.

(** A cut of [p] at [k] bits, or the next integer, is within [2^k] of [p]. *)
Lemma cut_bounds (p k m2 : Z) :
  0 <= p -> 0 <= k ->
  p / 2 ^ k <= m2 <= p / 2 ^ k + 1 ->
  p - 2 ^ k < m2 * 2 ^ k <= p + 2 ^ k.
Proof.
  intros Hp Hk Hm2.
  assert (HK : 0 < 2 ^ k) by (apply Z.pow_pos_nonneg; lia).
  pose proof (Z.div_mod p (2 ^ k) ltac:(lia)) as Hdm.
  pose proof (Z.mod_pos_bound p (2 ^ k) HK) as Hmod.
  nia.
Qed.

(** A product of two positive doubles that is finite, in units of
    2^-1074: within one part in 2^52 and one unit of the exact product. *)
Lemma mul_units (mx my : positive) (ex ey : Z) :
  -1074 <= ex -> -1074 <= ey ->
  let r := Js.mul (S754_finite false mx ex) (S754_finite false my ey) in
  is_finite r = true ->
  let XY := units (S754_finite false mx ex) * units (S754_finite false my ey) in
  2 ^ 52 * 2 ^ 1074 * (units r - 1) <= (2 ^ 52 + 1) * XY /\
  (2 ^ 52 - 1) * XY <= 2 ^ 52 * 2 ^ 1074 * (units r + 1).
Proof.
  intros Hex Hey r Hfin XY. subst r XY. unfold Js.mul in *. cbn [SFmul xorb] in *.
  cbn [units].
  set (P := Z.pos mx * Z.pos my).
  change (Z.pos (mx * my)) with P in *.
  set (e := ex + ey) in *.
  assert (HP : 0 < P) by (subst P; lia).
  destruct (binary_round_aux_value P e loc_Exact ltac:(lia))
    as [Hinf | [(m2 & Hm2 & Hexact & Hun) _]].
  { rewrite Hinf in Hfin. discriminate. }
  rewrite Hun. clear Hun Hfin.
  rewrite fexp_spec in *.
  set (E := Z.max e (Z.max (Zdigits2 P + e - 53) (-1074))) in *.
  set (k := E - e) in *.
  assert (Hk : 0 <= k) by (subst k E; lia).
  set (T := 2 ^ (e + 2148)).
  set (K := 2 ^ k) in *.
  set (c := 2 ^ 52). set (H := 2 ^ 1074).
  assert (HT : 0 < T) by (apply Z.pow_pos_nonneg; subst e; lia).
  assert (HK : 0 < K) by (apply Z.pow_pos_nonneg; lia).
  assert (Hc : 0 < c) by reflexivity.
  assert (HH : 0 < H) by (apply Z.pow_pos_nonneg; lia).
  assert (HXY : Z.pos mx * 2 ^ (ex + 1074) * (Z.pos my * 2 ^ (ey + 1074)) = P * T).
  { subst P T e. replace (ex + ey + 2148) with ((ex + 1074) + (ey + 1074)) by lia.
    rewrite (Z.pow_add_r 2 (ex + 1074) (ey + 1074)) by lia. ring. }
  rewrite HXY.
  assert (HA : H * (m2 * 2 ^ (E + 1074)) = m2 * K * T).
  { assert (HE : -1074 <= E) by (subst E; lia).
    assert (He : -2148 <= e) by (subst e; lia).
    transitivity (m2 * 2 ^ (1074 + (E + 1074))).
    - subst H. rewrite (Z.pow_add_r 2 1074 (E + 1074)) by lia. ring.
    - subst K T. rewrite <- Z.mul_assoc, <- (Z.pow_add_r 2 k (e + 2148)) by lia.
      f_equal. f_equal. subst k. lia. }
  pose proof (cut_bounds P k m2 ltac:(lia) Hk Hm2) as Hcut. fold K in Hcut.
  assert (Hkey : k = 0 /\ m2 = P \/ c * K * T <= P * T + c * H).
  { destruct (Z.eq_dec k 0) as [Hk0 | Hk0].
    - left. split; [exact Hk0 |]. apply Hexact; [reflexivity | subst k; lia].
    - right.
      destruct (Z.le_gt_cases (-1074) (Zdigits2 P + e - 53)) as [Hn | Hs].
      + (* normal *)
        assert (HkP : k = Zdigits2 P - 53) by (subst k E; lia).
        pose proof (Zdigits2_bounds P HP) as [Hlo _].
        assert (HcK : c * K = 2 ^ (Zdigits2 P - 1)).
        { subst c K. rewrite <- Z.pow_add_r by lia. f_equal. lia. }
        assert (c * K <= P) by lia. nia.
      + (* subnormal *)
        assert (HkE : E = -1074) by (subst k E; lia).
        assert (HKT : K * T = H).
        { subst K T H k. rewrite <- Z.pow_add_r by (subst e; lia). f_equal. lia. }
        nia. }
  set (A := m2 * 2 ^ (E + 1074)) in *.
  assert (HmT1 : m2 * K * T <= (P + K) * T) by (apply Z.mul_le_mono_nonneg_r; lia).
  assert (HmT2 : (P - K) * T <= m2 * K * T) by (apply Z.mul_le_mono_nonneg_r; lia).
  destruct Hkey as [[Hk0 ->] | Hkey].
  - assert (K = 1) by (subst K; rewrite Hk0; reflexivity).
    assert (HAe : H * A = P * T) by (rewrite HA; subst K; nia).
    split; nia.
  - split; nia.
Qed.

(** The difference of two doubles, the larger first, is the rounding of
    their exact difference at the exponent of the smaller. *)
Lemma sub_as_round (mm me : positive) (em ee : Z) :
  valid (S754_finite false mm em) = true ->
  valid (S754_finite false me ee) = true ->
  Js.ltb (S754_finite false me ee) (S754_finite false mm em) = true ->
  exists p : positive,
    Z.pos p = Z.pos mm * 2 ^ (em - ee) - Z.pos me /\ ee <= em /\
    Js.sub (S754_finite false mm em) (S754_finite false me ee)
    = binary_round b64_prec b64_emax false p ee.
Proof.
  intros Vm Ve Hlt.
  destruct (valid_finite _ _ _ Vm) as (Hem & Hdm & Hnm).
  destruct (valid_finite _ _ _ Ve) as (Hee & Hde & _).
  assert (Hcmp : ee < em \/ (ee = em /\ Z.pos me < Z.pos mm)).
  { unfold Js.ltb, SFltb, SFcompare in Hlt.
    destruct (Z.compare_spec ee em) as [Heq | Hl | Hg]; try discriminate.
    - right. split; [exact Heq |].
      change (Pos.compare_cont Eq me mm) with (Pos.compare me mm) in Hlt.
      destruct (Pos.compare_spec me mm); try discriminate. lia.
    - left; exact Hl. }
  unfold Js.sub, SFsub. cbn [cond_Zopp].
  pose proof (shl_align_spec mm em (Z.min em ee)) as [Hvm _].
  pose proof (shl_align_spec me ee (Z.min em ee)) as [Hve _].
  replace (Z.min em ee) with ee in * by lia.
  replace (Z.max 0 (ee - ee)) with 0 in Hve by lia. change (2 ^ 0) with 1 in Hve.
  replace (Z.max 0 (em - ee)) with (em - ee) in Hvm by lia.
  set (D := Z.pos (fst (shl_align mm em ee)) - Z.pos (fst (shl_align me ee ee))).
  assert (HDv : D = Z.pos mm * 2 ^ (em - ee) - Z.pos me) by (subst D; lia).
  assert (HD : 0 < D).
  { rewrite HDv.
    destruct Hcmp as [Hl | [-> Hl]].
    - pose proof (Zdigits2_bounds (Z.pos mm) ltac:(lia)) as [Hlo _].
      pose proof (Zdigits2_bounds (Z.pos me) ltac:(lia)) as [_ Hhi].
      rewrite (Hnm ltac:(lia)) in Hlo. change (2 ^ (53 - 1)) with 4503599627370496 in Hlo.
      assert (Z.pos me < 2 ^ 53).
      { eapply Z.lt_le_trans; [exact Hhi |]. apply Z.pow_le_mono_r; lia. }
      change (2 ^ 53) with 9007199254740992 in *.
      assert (2 ^ 1 <= 2 ^ (em - ee)) by (apply Z.pow_le_mono_r; lia).
      change (2 ^ 1) with 2 in *. nia.
    - rewrite Z.sub_diag. change (2 ^ 0) with 1. lia. }
  destruct D as [| p | p] eqn:HDp; try lia.
  exists p. split; [lia |]. split; [lia |]. reflexivity.
Qed.

(** The rounding of a positive integer at an exponent of the format, when
    it is finite, in units of 2^-1074: within one part in 2^52. *)
Lemma binary_round_units (p : positive) (e : Z) :
  -1074 <= e ->
  let r := binary_round b64_prec b64_emax false p e in
  is_finite r = true ->
  let X := Z.pos p * 2 ^ (e + 1074) in
  (2 ^ 52 - 1) * X <= 2 ^ 52 * units r <= (2 ^ 52 + 1) * X /\
  exists mr er, r = S754_finite false mr er /\ -1074 <= er /\ Z.pos mr < 2 ^ 53 /\
                Zdigits2 (Z.pos p) + e <= Zdigits2 (Z.pos mr) + er.
Proof.
  intros He r Hfin X. subst r X.
  pose proof (binary_round_mag p e) as Hmag.
  unfold binary_round in *.
  change (Z.pos (digits2_pos p)) with (Zdigits2 (Z.pos p)) in *.
  pose proof (Zdigits2_pos (Z.pos p) ltac:(lia)) as Hdp.
  specialize (Hmag ltac:(lia)).
  set (f := fexp b64_prec b64_emax (Zdigits2 (Z.pos p) + e)) in *.
  assert (Hf : f = Z.max (Zdigits2 (Z.pos p) + e - 53) (-1074))
    by (subst f; apply fexp_spec).
  pose proof (shl_align_spec p e f) as [Hv Hez].
  destruct (shl_align p e f) as [mz ez]. cbn [fst snd] in Hv, Hez.
  assert (Hd : Zdigits2 (Z.pos mz) + ez = Zdigits2 (Z.pos p) + e).
  { rewrite Hv, Zdigits2_mul_pow2 by lia. lia. }
  destruct (binary_round_aux_value (Z.pos mz) ez loc_Exact ltac:(lia))
    as [Hinf | [(m2 & Hm2 & Hexact & Hun) Hshape]].
  { rewrite Hinf in Hfin. discriminate. }
  rewrite Hd in *. fold f in Hm2, Hexact, Hun.
  assert (HE : Z.max ez f = f) by lia.
  rewrite HE in *.
  split.
  - rewrite Hun.
    set (c := 2 ^ 52). assert (Hc : 0 < c) by reflexivity.
    destruct (Z.le_gt_cases f e) as [Hle | Hgt].
    + (* the mantissa is in place: nothing is lost *)
      assert (Hezf : ez = f) by lia.
      rewrite (Hexact eq_refl ltac:(lia)), Hv.
      replace (Z.max 0 (e - f)) with (e - f) by lia.
      rewrite <- Z.mul_assoc, <- Z.pow_add_r by lia.
      replace (e - f + (f + 1074)) with (e + 1074) by lia.
      assert (0 < Z.pos p * 2 ^ (e + 1074))
        by (apply Z.mul_pos_pos; [lia | apply Z.pow_pos_nonneg; lia]).
      nia.
    + assert (Heze : ez = e) by lia.
      assert (Hmz : Z.pos mz = Z.pos p).
      { rewrite Hv. replace (Z.max 0 (e - f)) with 0 by lia. change (2 ^ 0) with 1. lia. }
      rewrite Heze, Hmz in *.
      set (k := f - e) in *.
      assert (HkP : k = Zdigits2 (Z.pos p) - 53) by (subst k; lia).
      pose proof (cut_bounds (Z.pos p) k m2 ltac:(lia) ltac:(lia) Hm2) as Hcut.
      set (K := 2 ^ k) in *.
      set (W := 2 ^ (e + 1074)).
      assert (HW : 0 < W) by (apply Z.pow_pos_nonneg; lia).
      assert (HK : 0 < K) by (apply Z.pow_pos_nonneg; lia).
      assert (HcK : c * K <= Z.pos p).
      { pose proof (Zdigits2_bounds (Z.pos p) ltac:(lia)) as [Hlo _].
        subst c K. rewrite <- Z.pow_add_r by lia.
        replace (52 + k) with (Zdigits2 (Z.pos p) - 1) by lia. exact Hlo. }
      assert (HfW : 2 ^ (f + 1074) = K * W).
      { subst K W. rewrite <- Z.pow_add_r by lia. f_equal. subst k. lia. }
      rewrite HfW.
      assert (H1 : m2 * K * W <= (Z.pos p + K) * W)
        by (apply Z.mul_le_mono_nonneg_r; lia).
      assert (H2 : (Z.pos p - K) * W <= m2 * K * W)
        by (apply Z.mul_le_mono_nonneg_r; lia).
      assert (H3 : c * K * W <= Z.pos p * W)
        by (apply Z.mul_le_mono_nonneg_r; lia).
      split; nia.
  - destruct Hmag as [_ Hmag].
    destruct (binary_round_aux b64_prec b64_emax false (Z.pos mz) ez loc_Exact)
      as [s | s | | s mr er] eqn:Hr; try discriminate; cbn [mag_ge] in Hmag;
      try contradiction.
    assert (s = false) as ->.
    { pose proof (binary_round_aux_plus (Z.pos mz) ez loc_Exact ltac:(lia)) as Hs.
      rewrite Hr in Hs. destruct s; [discriminate | reflexivity]. }
    destruct (Hshape mr er eq_refl) as [Her Hmr].
    exists mr, er. repeat split; assumption.
Qed.

Lemma Zdigits2_le (m k : Z) : 0 < m -> 0 <= k -> m < 2 ^ k -> Zdigits2 m <= k.
Proof.
  intros Hm Hk Hlt.
  pose proof (Zdigits2_bounds m Hm) as [Hlo _].
  destruct (Z.le_gt_cases (Zdigits2 m) k) as [| Hgt]; [assumption |].
  exfalso. assert (2 ^ k <= 2 ^ (Zdigits2 m - 1)) by (apply Z.pow_le_mono_r; lia). lia.
Qed.

(** The quotient of a positive double by a double that is at most one
    unit of its exponent above it, when it is finite, in units of 2^-1074:
    within one part in 2^52 of the exact quotient. *)
Lemma div_units (md me : positive) (ed ee : Z) :
  -1074 <= ed -> Z.pos md < 2 ^ 53 ->
  valid (S754_finite false me ee) = true ->
  1 + ee <= Zdigits2 (Z.pos md) + ed ->
  let q := Js.div (S754_finite false md ed) (S754_finite false me ee) in
  is_finite q = true ->
  let D := units (S754_finite false md ed) in
  let Eu := units (S754_finite false me ee) in
  ((2 ^ 52 - 1) * (D * 2 ^ 1074) <= 2 ^ 52 * (units q * Eu) /\
   2 ^ 52 * (units q * Eu) <= (2 ^ 52 + 1) * (D * 2 ^ 1074)) /\
  exists mq eq, q = S754_finite false mq eq /\ -1074 <= eq.
Proof.
  intros Hed Hmd Ve Hmag q Hfin D Eu. subst q D Eu.
  destruct (valid_finite _ _ _ Ve) as (Hee & Hde & _).
  unfold Js.div in *. cbn [SFdiv xorb units] in *.
  unfold SFdiv_core_binary in *.
  set (d1 := Zdigits2 (Z.pos md)) in *. set (d2 := Zdigits2 (Z.pos me)) in *.
  pose proof (Zdigits2_pos (Z.pos md) ltac:(lia)) as Hd1. fold d1 in Hd1.
  pose proof (Zdigits2_pos (Z.pos me) ltac:(lia)) as Hd2. fold d2 in Hd2.
  pose proof (Zdigits2_le (Z.pos md) 53 ltac:(lia) ltac:(lia) Hmd) as Hd1'. fold d1 in Hd1'.
  set (e' := Z.min (fexp b64_prec b64_emax (d1 + ed - (d2 + ee))) (ed - ee)) in *.
  assert (He' : e' = d1 + ed - d2 - ee - 53).
  { subst e'. rewrite fexp_spec. lia. }
  set (sh := ed - ee - e') in *.
  assert (Hsh : sh = 53 - d1 + d2) by (subst sh; lia).
  set (m' := match sh with
             | 0 => Z.pos md
             | Z.pos _ => Z.shiftl (Z.pos md) sh
             | Z.neg _ => 0
             end) in *.
  assert (Hm' : m' = Z.pos md * 2 ^ sh).
  { subst m'. destruct sh as [| p | p] eqn:Hshe;
      [ change (2 ^ 0) with 1; lia
      | rewrite Z.shiftl_mul_pow2 by lia; reflexivity
      | lia ]. }
  assert (Hpos' : 0 < m').
  { rewrite Hm'. apply Z.mul_pos_pos; [lia | apply Z.pow_pos_nonneg; lia]. }
  assert (Hdm : Zdigits2 m' = d1 + sh).
  { rewrite Hm'. apply Zdigits2_mul_pow2; lia. }
  destruct (Zdigits2_quot_ge m' (Z.pos me) Hpos' ltac:(lia) ltac:(fold d2; lia))
    as [Hq Hdq].
  fold d2 in Hdq.
  pose proof (Z_div_mod m' (Z.pos me) ltac:(lia)) as Hdiv.
  unfold Z.div in Hq, Hdq.
  destruct (Z.div_eucl m' (Z.pos me)) as [qz r]. cbn [fst] in Hq, Hdq.
  destruct Hdiv as [Hdiv Hr].
  set (loc := new_location (Z.pos me) r) in *.
  destruct (binary_round_aux_value qz e' loc ltac:(lia))
    as [Hinf | [(m2 & Hm2 & _ & Hun) Hshape]].
  { rewrite Hinf in Hfin. discriminate. }
  rewrite fexp_spec in *.
  set (dq := Zdigits2 qz) in *.
  assert (HE : Z.max e' (Z.max (dq + e' - 53) (-1074)) = dq + e' - 53) by lia.
  rewrite HE in *.
  set (k := dq - 53).
  replace (dq + e' - 53 - e') with k in Hm2 by (subst k; lia).
  pose proof (cut_bounds qz k m2 ltac:(lia) ltac:(subst k; lia) Hm2) as Hcut.
  set (K := 2 ^ k) in *.
  set (c := 2 ^ 52). assert (Hc : 0 < c) by reflexivity.
  assert (HK : 0 < K) by (apply Z.pow_pos_nonneg; subst k; lia).
  assert (HcK : c * K <= qz).
  { pose proof (Zdigits2_bounds qz Hq) as [Hlo _]. fold dq in Hlo.
    subst c K. rewrite <- Z.pow_add_r by (subst k; lia).
    replace (52 + k) with (dq - 1) by (subst k; lia). exact Hlo. }
  split.
  - rewrite Hun.
    set (G1 := 2 ^ (e' + 1074)). set (G2 := 2 ^ (ee + 1074)).
    assert (HG1 : 0 < G1) by (apply Z.pow_pos_nonneg; lia).
    assert (HG2 : 0 < G2) by (apply Z.pow_pos_nonneg; lia).
    assert (Hq' : 2 ^ (dq + e' - 53 + 1074) = K * G1).
    { subst K G1. rewrite <- Z.pow_add_r by (subst k; lia). f_equal. subst k. lia. }
    assert (HD : Z.pos md * 2 ^ (ed + 1074) * 2 ^ 1074 = m' * (G1 * G2)).
    { rewrite Hm'. subst G1 G2.
      rewrite <- !Z.mul_assoc. f_equal.
      rewrite <- !Z.pow_add_r by lia. f_equal. lia. }
    rewrite Hq', HD.
    set (G := G1 * G2) in *.
    assert (HG : 0 < G) by (subst G; apply Z.mul_pos_pos; assumption).
    replace (m2 * (K * G1) * (Z.pos me * G2)) with (m2 * K * Z.pos me * G) by (subst G; ring).
    assert (Hup : c * (m2 * K * Z.pos me) <= (c + 1) * m').
    { assert (m2 * K * Z.pos me <= (qz + K) * Z.pos me)
        by (apply Z.mul_le_mono_nonneg_r; lia).
      assert (c * K * Z.pos me <= qz * Z.pos me)
        by (apply Z.mul_le_mono_nonneg_r; lia).
      nia. }
    assert (Hlo : (c - 1) * m' <= c * (m2 * K * Z.pos me)).
    { assert ((qz - K + 1) * Z.pos me <= m2 * K * Z.pos me)
        by (apply Z.mul_le_mono_nonneg_r; lia).
      assert ((c - 1) * (qz + 1) <= c * (qz - K + 1)) by nia.
      assert ((c - 1) * (qz + 1) * Z.pos me <= c * (qz - K + 1) * Z.pos me)
        by (apply Z.mul_le_mono_nonneg_r; lia).
      nia. }
    split.
    + replace ((c - 1) * (m' * G)) with ((c - 1) * m' * G) by ring.
      replace (c * (m2 * K * Z.pos me * G)) with (c * (m2 * K * Z.pos me) * G) by ring.
      apply Z.mul_le_mono_nonneg_r; lia.
    + replace ((c + 1) * (m' * G)) with ((c + 1) * m' * G) by ring.
      replace (c * (m2 * K * Z.pos me * G)) with (c * (m2 * K * Z.pos me) * G) by ring.
      apply Z.mul_le_mono_nonneg_r; lia.
  - pose proof (binary_round_aux_plus qz e' loc ltac:(lia)) as Hs.
    pose proof (binary_round_aux_mag false qz e' loc Hq ltac:(fold dq; lia)) as Hm.
    destruct (binary_round_aux b64_prec b64_emax false qz e' loc)
      as [s | s | | s mq eq] eqn:Hres; try discriminate.
    + destruct Hm as [Hm | (m & e & Hm & _)]; discriminate.
    + destruct s; [discriminate |].
      exists mq, eq. split; [reflexivity |]. apply (Hshape mq eq eq_refl).
Qed.

(** Three roundings, one after the other. *)
Lemma three_roundings_intro (A D D' Q' Eu Su : Z) :
  0 <= Eu -> 0 <= Su ->
  (2 ^ 52 - 1) * D <= 2 ^ 52 * D' <= (2 ^ 52 + 1) * D ->
  (2 ^ 52 - 1) * (D' * 2 ^ 1074) <= 2 ^ 52 * (Q' * Eu) ->
  2 ^ 52 * (Q' * Eu) <= (2 ^ 52 + 1) * (D' * 2 ^ 1074) ->
  2 ^ 52 * 2 ^ 1074 * (A - 1) <= (2 ^ 52 + 1) * (Q' * Su) ->
  (2 ^ 52 - 1) * (Q' * Su) <= 2 ^ 52 * 2 ^ 1074 * (A + 1) ->
  three_roundings A (D * Su) Eu.
Proof.
  unfold three_roundings.
  change (2 ^ 156) with (2 ^ 52 * 2 ^ 52 * 2 ^ 52).
  change ((2 ^ 52 - 1) ^ 3) with ((2 ^ 52 - 1) * (2 ^ 52 - 1) * (2 ^ 52 - 1)).
  change ((2 ^ 52 + 1) ^ 3) with ((2 ^ 52 + 1) * (2 ^ 52 + 1) * (2 ^ 52 + 1)).
  set (c := 2 ^ 52). set (H := 2 ^ 1074).
  assert (Hc : 1 <= c) by (subst c; lia).
  assert (HH : 0 < H) by (subst H; apply Z.pow_pos_nonneg; lia).
  clearbody c H.
  intros HEu HSu [H1a H1b] H2a H2b H3a H3b.
  split.
  - apply (Z.mul_le_mono_pos_r _ _ H HH).
    assert (S1 : (c - 1) * (c - 1) * Su * H * ((c - 1) * D)
                 <= (c - 1) * (c - 1) * Su * H * (c * D'))
      by (apply Z.mul_le_mono_nonneg_l; [repeat apply Z.mul_nonneg_nonneg; lia | exact H1a]).
    assert (S2 : (c - 1) * c * Su * ((c - 1) * (D' * H))
                 <= (c - 1) * c * Su * (c * (Q' * Eu)))
      by (apply Z.mul_le_mono_nonneg_l; [repeat apply Z.mul_nonneg_nonneg; lia | exact H2a]).
    assert (S3 : c * c * Eu * ((c - 1) * (Q' * Su)) <= c * c * Eu * (c * H * (A + 1)))
      by (apply Z.mul_le_mono_nonneg_l; [repeat apply Z.mul_nonneg_nonneg; lia | exact H3b]).
    lia.
  - apply (Z.mul_le_mono_pos_r _ _ H HH).
    assert (S1 : c * c * Eu * (c * H * (A - 1)) <= c * c * Eu * ((c + 1) * (Q' * Su)))
      by (apply Z.mul_le_mono_nonneg_l; [repeat apply Z.mul_nonneg_nonneg; lia | exact H3a]).
    assert (S2 : (c + 1) * c * Su * (c * (Q' * Eu))
                 <= (c + 1) * c * Su * ((c + 1) * (D' * H)))
      by (apply Z.mul_le_mono_nonneg_l; [repeat apply Z.mul_nonneg_nonneg; lia | exact H2b]).
    assert (S3 : (c + 1) * (c + 1) * Su * H * (c * D')
                 <= (c + 1) * (c + 1) * Su * H * ((c + 1) * D))
      by (apply Z.mul_le_mono_nonneg_l; [repeat apply Z.mul_nonneg_nonneg; lia | exact H1b]).
    lia.
Qed.

(** The amount [(market - entry) / entry * size] of doubles, when it is
    finite, in units of 2^-1074: what three roundings make of the exact
    quotient. *)
Lemma amount_units (mm me ms : positive) (em ee es : Z) :
  valid (S754_finite false mm em) = true ->
  valid (S754_finite false me ee) = true ->
  valid (S754_finite false ms es) = true ->
  Js.ltb (S754_finite false me ee) (S754_finite false mm em) = true ->
  let amount :=
    Js.mul (Js.div (Js.sub (S754_finite false mm em) (S754_finite false me ee))
                   (S754_finite false me ee)) (S754_finite false ms es) in
  is_finite amount = true ->
  three_roundings (units amount)
    ((units (S754_finite false mm em) - units (S754_finite false me ee))
     * units (S754_finite false ms es))
    (units (S754_finite false me ee)).
Proof.
  intros Vm Ve Vs Hlt amount Hfin. subst amount.
  destruct (valid_finite _ _ _ Vm) as (Hem & _ & _).
  destruct (valid_finite _ _ _ Ve) as (Hee & _ & _).
  destruct (valid_finite _ _ _ Vs) as (Hes & _ & _).
  destruct (sub_as_round mm me em ee Vm Ve Hlt) as (p & Hp & Hle & Hsub).
  rewrite Hsub in *.
  assert (HD : units (S754_finite false mm em) - units (S754_finite false me ee)
               = Z.pos p * 2 ^ (ee + 1074)).
  { cbn [units]. rewrite Hp, Z.mul_sub_distr_r, <- Z.mul_assoc.
    rewrite <- (Z.pow_add_r 2 (em - ee) (ee + 1074)) by lia.
    replace (em - ee + (ee + 1074)) with (em + 1074) by lia. reflexivity. }
  rewrite HD.
  set (d := binary_round b64_prec b64_emax false p ee) in *.
  assert (Hdf : is_finite d = true).
  { destruct d as [s | s | | s md ed]; try reflexivity; discriminate Hfin. }
  destruct (binary_round_units p ee ltac:(lia) Hdf)
    as (H1 & md & ed & Hd & Hed & Hmd & Hmag).
  fold d in H1, Hd. rewrite Hd in *.
  pose proof (Zdigits2_pos (Z.pos p) ltac:(lia)) as Hdp.
  set (q := Js.div (S754_finite false md ed) (S754_finite false me ee)) in *.
  assert (Hqf : is_finite q = true).
  { destruct q as [s | s | | s mq eq]; try reflexivity; discriminate Hfin. }
  destruct (div_units md me ed ee Hed Hmd Ve ltac:(lia) Hqf)
    as ((H2a & H2b) & mq & eq & Hq & Heq).
  fold q in H2a, H2b, Hq. rewrite Hq in *.
  destruct (mul_units mq ms eq es Heq (proj1 Hes) Hfin) as (H3a & H3b).
  apply (three_roundings_intro _ _ (units (S754_finite false md ed))
           (units (S754_finite false mq eq))); try assumption.
  - cbn [units]. apply Z.mul_nonneg_nonneg; [lia | apply Z.pow_nonneg; lia].
  - cbn [units]. apply Z.mul_nonneg_nonneg; [lia | apply Z.pow_nonneg; lia].
Qed.

(** ** The PnL of the dashboard *)

Lemma tiny64 : Js.dyadic 1 (-1021) = S754_finite false 4503599627370496 (-1073).
Proof. reflexivity. Qed.

(** A double from 2^-1021 on: positive, of magnitude -1020 at least. *)
Lemma size_shape (size : number) :
  valid size = true -> is_finite size = true ->
  leb (Js.dyadic 1 (-1021)) size = true ->
  exists ms es, size = S754_finite false ms es /\ -1020 <= Zdigits2 (Z.pos ms) + es.
Proof.
  intros V F H. rewrite tiny64 in H. unfold leb, SFleb, SFcompare in H.
  destruct size as [s | s | | s ms es]; try discriminate.
  destruct s; try discriminate.
  exists ms, es. split; [reflexivity |].
  destruct (valid_finite _ _ _ V) as (He & Hd & Hn).
  destruct (Z.compare_spec (-1073) es) as [Heq | Hl | Hg]; try discriminate.
  - subst es.
    change (Pos.compare_cont Eq 4503599627370496 ms)
      with (Pos.compare 4503599627370496 ms) in H.
    assert (Hms : 2 ^ 52 <= Z.pos ms).
    { change (2 ^ 52) with 4503599627370496.
      destruct (Pos.compare_spec 4503599627370496 ms); try discriminate; lia. }
    pose proof (Zdigits2_ge (Z.pos ms) 52 ltac:(lia) ltac:(lia) Hms). lia.
  - rewrite (Hn ltac:(lia)). lia.
Qed.

(** A positive double below a finite one, and that one, are finite and
    positive. *)
Lemma prices_shape (entry market : number) :
  is_finite market = true ->
  Js.ltb Js.zero entry = true ->
  Js.ltb entry market = true ->
  exists me ee mm em,
    entry = S754_finite false me ee /\ market = S754_finite false mm em.
Proof.
  unfold Js.ltb, SFltb, SFcompare, Js.zero. intros F H0 H1.
  destruct entry as [s | s | | s me ee]; try discriminate;
    destruct s; try discriminate;
    destruct market as [s' | s' | | s' mm em]; try discriminate;
    destruct s'; try discriminate.
  exists me, ee, mm, em. split; reflexivity.
Qed.

Lemma plus_nonzero (k : Z) (x : number) :
  sign_plus x = true -> mag_ge k x ->
  Js.ltb Js.zero x = true /\ profit_loss x = (x, Js.zero) /\
  profit_loss (Js.neg x) = (Js.zero, x).
Proof.
  intros Hs Hm.
  destruct x as [s | s | | s m e]; cbn [mag_ge sign_plus] in *;
    try contradiction; destruct s; try discriminate; repeat split.
Qed.

(** The pair of a PnL that is not negative, and of its opposite. *)
Lemma plus_profit_loss (x : number) :
  sign_plus x = true ->
  profit_loss x = (x, Js.zero) /\ profit_loss (Js.neg x) = (Js.zero, x).
Proof.
  intros Hs.
  destruct x as [s | s | | s m e]; cbn [sign_plus] in Hs; try discriminate;
    destruct s; try discriminate; split; reflexivity.
Qed.

(** A positive size keeps the sign of what it multiplies. *)
Lemma mul_plus_size (k : Z) (x size : number) :
  sign_plus x = true -> mag_ge k x -> Js.ltb Js.zero size = true ->
  sign_plus (Js.mul x size) = true.
Proof.
  intros Hx Hk Hsize.
  destruct size as [s | s | | s ms es]; try discriminate; destruct s; try discriminate.
  - destruct x as [sx | sx | | sx mx ex]; cbn [sign_plus mag_ge] in *;
      try contradiction; try discriminate; destruct sx; try discriminate; reflexivity.
  - eapply mul_plus; [exact Hx | reflexivity].
Qed.

(** C7, as the code has it: the PnL of the dashboard is a product of
    doubles.  For a long position entered at 100, of size 100, a price of
    107 gives the double next above 7 where the exact formula gives 7; and
    for a short position of the smallest positive size a price that went up
    from 100 to 110 leaves a loss of zero, not a loss above zero. *)
Lemma pnl_in_doubles :
  let long :=
    {| pos_id := "pos-1"; pos_side := Long;
       pos_size := Js.of_Z 100;
       pos_collateral := Js.of_Z 100; pos_leverage := Js.of_Z 10;
       pos_entryPrice := Js.of_Z 100; pos_currentPrice := Js.of_Z 100;
       pos_liquidationPrice := Js.of_Z 90; pos_pnl := Js.zero;
       pos_pnlPercent := Js.zero; pos_isEncrypted := true;
       pos_timestamp := Js.of_Z 1700000000000 |} in
  let short :=
    {| pos_id := "pos-2"; pos_side := Short;
       pos_size := S754_finite false 1 (-1074);
       pos_collateral := Js.of_Z 100; pos_leverage := Js.of_Z 10;
       pos_entryPrice := Js.of_Z 100; pos_currentPrice := Js.of_Z 100;
       pos_liquidationPrice := Js.of_Z 90; pos_pnl := Js.zero;
       pos_pnlPercent := Js.zero; pos_isEncrypted := true;
       pos_timestamp := Js.of_Z 1700000000000 |} in
  (Js.of_Z 7 = S754_finite false 7881299347898368 (-50) /\
   profit (position_pnl (Js.of_Z 107) long) = S754_finite false 7881299347898369 (-50)) /\
  (valid (pos_size short) = true /\
   Js.ltb Js.zero (pos_size short) = true /\
   Js.ltb (pos_entryPrice short) (Js.of_Z 110) = true /\
   position_pnl (Js.of_Z 110) short = S754_zero true /\
   profit (position_pnl (Js.of_Z 110) short) = Js.zero /\
   loss (position_pnl (Js.of_Z 110) short) = Js.zero /\
   Js.ltb Js.zero (loss (position_pnl (Js.of_Z 110) short)) = false).
Proof. vm_compute. repeat split. Qed.

(** C7, amended. For the prices and the size of a position as doubles,
    with a positive entry price, a current price above it and a positive
    size, let the amount be the double
    [(currentPrice - entryPrice) / entryPrice * size], each operation
    rounded as JavaScript does.  The amount is not negative and not [NaN];
    the PnL of a long position is the amount and that of a short position
    its opposite, so that a long position has the amount as its profit and
    no loss, and a short position the amount as its loss and no profit.
    The amount is above zero for every size from 2^-1021 on; below it the
    product can round to zero.  Whenever it is finite, the amount is what
    three roundings make of the exact quotient
    [(currentPrice - entryPrice) * size / entryPrice] of the rationals the
    doubles stand for: within a factor of [(1 - 2^-52)^3] and
    [(1 + 2^-52)^3] of it, up to one unit of 2^-1074. *)
Theorem pnl_profit_or_loss (pos : Position) (marketPrice : number) :
  valid (pos_entryPrice pos) = true ->
  valid marketPrice = true ->
  is_finite marketPrice = true ->
  Js.ltb Js.zero (pos_entryPrice pos) = true ->
  Js.ltb (pos_entryPrice pos) marketPrice = true ->
  Js.ltb Js.zero (pos_size pos) = true ->
  let amount :=
    Js.mul (Js.div (Js.sub marketPrice (pos_entryPrice pos)) (pos_entryPrice pos))
           (pos_size pos) in
  sign_plus amount = true /\
  match pos_side pos with
  | Long =>
      position_pnl marketPrice pos = amount /\
      profit (position_pnl marketPrice pos) = amount /\
      loss (position_pnl marketPrice pos) = Js.zero
  | Short =>
      position_pnl marketPrice pos = Js.neg amount /\
      profit (position_pnl marketPrice pos) = Js.zero /\
      loss (position_pnl marketPrice pos) = amount
  end /\
  (valid (pos_size pos) = true ->
   is_finite (pos_size pos) = true ->
   leb (Js.dyadic 1 (-1021)) (pos_size pos) = true ->
   Js.ltb Js.zero amount = true) /\
  (valid (pos_size pos) = true ->
   is_finite (pos_size pos) = true ->
   is_finite amount = true ->
   three_roundings (units amount)
     ((units marketPrice - units (pos_entryPrice pos)) * units (pos_size pos))
     (units (pos_entryPrice pos))).
Proof.
  intros Ve Vm Fm H0 Hlt Hsize amount. subst amount.
  destruct (prices_shape _ _ Fm H0 Hlt) as (me & ee & mm & em & He & Hm).
  rewrite He, Hm in *.
  set (amount := Js.mul (Js.div (Js.sub (S754_finite false mm em) (S754_finite false me ee))
                           (S754_finite false me ee)) (pos_size pos)).
  destruct (valid_finite _ _ _ Ve) as (_ & Hde & _).
  destruct (sub_mag mm me em ee Vm Ve Hlt) as [S1 M1].
  destruct (div_mag _ _ (1 + ee) me ee S1 M1 eq_refl ltac:(lia)) as [S2 M2].
  pose proof (mul_plus_size _ _ _ S2 M2 Hsize) as S3. fold amount in S3.
  destruct (plus_profit_loss amount S3) as [Hlong Hshort].
  split; [exact S3 |]. split.
  - unfold profit, loss, position_pnl. rewrite He.
    destruct (pos_side pos).
    + fold amount. rewrite Hlong. repeat split.
    + rewrite mul_neg_l. fold amount. rewrite Hshort. repeat split.
  - split.
    + intros Vs Fs Hmin.
      destruct (size_shape _ Vs Fs Hmin) as (ms & es & Hs & Hmag).
      destruct (mul_mag _ _ _ ms es S2 M2 Hs ltac:(lia)) as [_ M3].
      fold amount in M3.
      destruct (plus_nonzero _ amount S3 M3) as (Hpos & _). exact Hpos.
    + intros Vs Fs Fa. subst amount.
      destruct (pos_size pos) as [s | s | | s ms es]; try discriminate.
      destruct s; [discriminate |].
      apply amount_units; assumption.
Qed.

Lemma pnl_profit_or_loss_witness :
  (profit (position_pnl (Js.of_Z 110) (Toy.position Long)) = Js.of_Z 100 /\
   loss (position_pnl (Js.of_Z 110) (Toy.position Long)) = Js.zero) /\
  (profit (position_pnl (Js.of_Z 110) (Toy.position Short)) = Js.zero /\
   loss (position_pnl (Js.of_Z 110) (Toy.position Short)) = Js.of_Z 100 /\
   Js.ltb Js.zero (loss (position_pnl (Js.of_Z 110) (Toy.position Short))) = true) /\
  three_roundings (units (Js.of_Z 100))
    ((units (Js.of_Z 110) - units (Js.of_Z 100)) * units (Js.of_Z 1000))
    (units (Js.of_Z 100)).
Proof.
  destruct (pnl_profit_or_loss (Toy.position Long) (Js.of_Z 110)
              eq_refl eq_refl eq_refl eq_refl eq_refl eq_refl)
    as (_ & (_ & Hp & Hl) & _ & Hacc).
  destruct (pnl_profit_or_loss (Toy.position Short) (Js.of_Z 110)
              eq_refl eq_refl eq_refl eq_refl eq_refl eq_refl)
    as (_ & (_ & Hp' & Hl') & Hpos & _).
  split; [split; [rewrite Hp; vm_compute; reflexivity | exact Hl] |].
  split.
  - split; [exact Hp' |].
    split; [rewrite Hl'; vm_compute; reflexivity |].
    rewrite Hl'. apply Hpos; reflexivity.
  - apply (Hacc eq_refl eq_refl eq_refl).
Defined.

(** ** More on the key of the cluster *)

Lemma mxeConfigPda_same (L : ArciumLib) (s s' : St) :
  programId (this s') = programId (this s) -> mxeConfigPda L s' = mxeConfigPda L s.
Proof. unfold mxeConfigPda. intros ->. reflexivity. Qed.

(** X1. A fetch of the key of the cluster that finds no account, or whose
    read of the ledger fails, throws one and the same error whatever the
    cause, after writing the cause to the console; it has read the ledger
    once, has cached nothing and has changed nothing else of the client.
    Failure is not remembered: once the account is there, the next call
    returns bytes 8 to 40 of it. *)
Theorem key_fetch_failure (L : ArciumLib) (s : St) :
  mxePublicKey (this s) = None ->
  is_account (ledger (world s) (mxeConfigPda L s)) = false ->
  let s1 := snd (getMXEPublicKey L s) in
  fst (getMXEPublicKey L s) = Throw (Error "Could not initialize Arcium encryption") /\
  this s1 = this s /\
  rng_pos (world s1) = rng_pos (world s) /\
  trace (world s1) =
    (trace (world s)
     ++ [GetAccountInfo (mxeConfigPda L s);
         ConsoleError "Failed to fetch MXE public key:"
           (fetch_failure (ledger (world s) (mxeConfigPda L s)))])%list /\
  (forall (l : PublicKey -> rpc_reply) (data : bytes),
     l (mxeConfigPda L s) = Account data ->
     fst (getMXEPublicKey L (on_world (set_ledger l) s1)) = Ok (slice 8 40 data)).
Proof.
  intros Hk Hno s1. subst s1.
  rewrite (getMXEPublicKey_fetch L s Hk).
  destruct (ledger (world s) (mxeConfigPda L s)) as [e | | data] eqn:Hl;
    try discriminate; cbn [fst snd fetch_failure];
    (split; [reflexivity |]); (split; [reflexivity |]); (split; [reflexivity |]);
    (split; [cbn; rewrite <- app_assoc; reflexivity |]);
    intros l data Hdata;
    match goal with
    | |- fst (getMXEPublicKey L ?s2) = _ =>
        rewrite (getMXEPublicKey_fetch L s2 Hk);
        replace (mxeConfigPda L s2) with (mxeConfigPda L s) by reflexivity;
        cbn [world on_world set_ledger ledger emit]; rewrite Hdata; reflexivity
    end.
Qed.

Lemma key_fetch_failure_witness :
  fst (getMXEPublicKey Toy.lib Toy.client_empty)
  = Throw (Error "Could not initialize Arcium encryption") /\
  fst (getMXEPublicKey Toy.lib
         (on_world (set_ledger Toy.ledger_ready)
            (snd (getMXEPublicKey Toy.lib Toy.client_empty))))
  = Ok (slice 8 40 Toy.account_data).
Proof.
  destruct (key_fetch_failure Toy.lib Toy.client_empty eq_refl eq_refl)
    as (Hfail & _ & _ & _ & Hnext).
  split; [exact Hfail |].
  apply Hnext. reflexivity.
Defined.

Lemma slice_length (a b : nat) (u : bytes) :
  List.length (slice a b u) = Nat.min (b - a) (List.length u - a).
Proof. unfold slice. rewrite length_firstn, length_skipn. reflexivity. Qed.

(** X2. When the account of the cluster is there, the fetch succeeds
    whatever the account holds: the key is bytes 8 to 40 of its data, cached
    as it is.  Its length is not checked: the key has 32 bytes exactly when
    the data has 40 or more, and shorter data gives a shorter key, down to
    the empty one. *)
Theorem key_from_account (L : ArciumLib) (s : St) (data : bytes) :
  mxePublicKey (this s) = None ->
  ledger (world s) (mxeConfigPda L s) = Account data ->
  let key := slice 8 40 data in
  fst (getMXEPublicKey L s) = Ok key /\
  mxePublicKey (this (snd (getMXEPublicKey L s))) = Some key /\
  List.length key = Nat.min 32 (List.length data - 8) /\
  (List.length key = 32%nat <-> (40 <= List.length data)%nat) /\
  ((List.length data <= 8)%nat -> key = []).
Proof.
  intros Hk Hacc key.
  rewrite (getMXEPublicKey_fetch L s Hk), Hacc. cbn [fst snd].
  split; [reflexivity |]. split; [reflexivity |].
  pose proof (slice_length 8 40 data) as Hlen. fold key in Hlen.
  change (40 - 8)%nat with 32%nat in Hlen.
  split; [exact Hlen |]. split; [lia |].
  intros Hshort. apply length_zero_iff_nil. lia.
Qed.

Lemma key_from_account_witness :
  let short := on_world (set_ledger (fun _ => Account (firstn 10 Toy.account_data)))
                 Toy.client_empty in
  fst (getMXEPublicKey Toy.lib short) = Ok (firstn 2 (skipn 8 Toy.account_data)) /\
  mxePublicKey (this (snd (getMXEPublicKey Toy.lib short)))
  = Some (firstn 2 (skipn 8 Toy.account_data)).
Proof.
  intros short.
  destruct (key_from_account Toy.lib short (firstn 10 Toy.account_data) eq_refl eq_refl)
    as (Hrun & Hcache & _).
  split; [exact Hrun | exact Hcache].
Defined.

(** ** The shape of what [encryptTradeParams] returns *)

Lemma created_keys (L : ArciumLib) (pid : PublicKey) (w : World) (sts : list step) :
  let s := do_steps L sts (createArciumClient L pid w) in
  programId (this s) = pid /\
  privateKey (this s) = tape w 32 /\
  publicKey (this s) = x25519_getPublicKey L (tape w 32).
Proof.
  intros s.
  destruct (do_steps_evolves L sts (createArciumClient L pid w)) as ((K1 & K2 & K3) & _).
  fold s in K1, K2, K3. rewrite K1, K2, K3. repeat split.
Qed.

Lemma ciphertext_length (L : ArciumLib) (HL : cipher_contract L)
      (secret nonce : bytes) (v : Z) (cts : list (list Z)) :
  rescue_encrypt L secret [v] nonce = Ok cts ->
  List.length (Uint8Array_of (nth 0 cts [])) = 32%nat.
Proof.
  intros Henc.
  destruct (encrypt_shape L HL _ _ _ _ Henc) as [Hlen Hshape].
  destruct cts as [| ct [| ? ?]]; try discriminate.
  inversion Hshape as [| ? ? [H32 _] _]; subst.
  unfold Uint8Array_of. rewrite length_map. exact H32.
Qed.

(** X3. What a client made by [createArciumClient] returns from
    [encryptTradeParams], however it was used before: a nonce of 16 bytes;
    the public key of the key pair drawn when the client was made, which
    is the pair whose private key the shared secret of the four calls is
    derived from; and, for a cipher that keeps its contract, four
    ciphertexts of 32 bytes each. *)
Theorem encrypted_shape (L : ArciumLib) (HL : cipher_contract L)
        (pid : PublicKey) (w : World) (sts : list step)
        (params : TradeParams) (s1 : St) (enc : EncryptedTradeParams) :
  let s := do_steps L sts (createArciumClient L pid w) in
  encryptTradeParams L params s = (Ok enc, s1) ->
  List.length (enc_nonce enc) = 16%nat /\
  List.length (enc_side enc) = 32%nat /\
  List.length (enc_sizeUsd enc) = 32%nat /\
  List.length (enc_collateral enc) = 32%nat /\
  List.length (enc_entryPrice enc) = 32%nat /\
  enc_publicKey enc = x25519_getPublicKey L (tape w 32) /\
  exists k secret pre a b c d,
    mxePublicKey (this s1) = Some k /\
    x25519_getSharedSecret L (tape w 32) k = Ok secret /\
    encrypt_calls pre = [] /\
    trace (world s1)
    = (trace (world s) ++ pre ++ four_calls secret (enc_nonce enc) a b c d)%list.
Proof.
  intros s H.
  destruct (created_keys L pid w sts) as (_ & Hsk & Hpk). fold s in Hsk, Hpk.
  destruct (encryptTradeParams_inv L params s s1 enc H)
    as (k & s0 & secret & vsize & vcoll & vprice & c1 & c2 & c3 & c4 &
        Hk & Hs & _ & _ & _ & E1 & E2 & E3 & E4 & -> & Hthis & _ & Hext).
  destruct (getMXEPublicKey_frame L s s0 (Ok k) Hk)
    as ((_ & K2 & K3) & _ & Hcache & _ & pre & (_ & _ & _ & _ & Htr) & Hpre & _).
  destruct Hext as (_ & _ & _ & _ & Htr1).
  cbn [enc_nonce enc_side enc_sizeUsd enc_collateral enc_entryPrice enc_publicKey].
  split; [apply tape_length |].
  split; [eapply ciphertext_length; eassumption |].
  split; [eapply ciphertext_length; eassumption |].
  split; [eapply ciphertext_length; eassumption |].
  split; [eapply ciphertext_length; eassumption |].
  split; [rewrite K3; exact Hpk |].
  exists k, secret, pre, (side_code (tp_side params)), vsize, vcoll, vprice.
  split; [rewrite Hthis; apply Hcache; reflexivity |].
  split; [rewrite <- Hsk, <- K2; exact Hs |].
  split; [exact Hpre |].
  rewrite Htr1, Htr, <- app_assoc. reflexivity.
Qed.

Lemma encrypted_shape_witness :
  List.length (enc_nonce Toy.enc) = 16%nat /\
  List.length (enc_sizeUsd Toy.enc) = 32%nat /\
  enc_publicKey Toy.enc
  = x25519_getPublicKey Toy.lib (tape (Toy.world_with Toy.ledger_ready) 32).
Proof.
  destruct (encrypted_shape Toy.lib toy_contract Toy.program
              (Toy.world_with Toy.ledger_ready) [] Toy.params Toy.after Toy.enc toy_run)
    as (Hn & _ & Hsz & _ & _ & Hpk & _).
  split; [exact Hn |]. split; [exact Hsz | exact Hpk].
Defined.

(** ** Amounts of any sign *)

Lemma mul_mantissa (x y : number) (s : bool) (m : positive) (e : Z) :
  Js.mul x y = S754_finite s m e -> Z.pos m < 2 ^ 53.
Proof.
  unfold Js.mul.
  destruct x as [sx | sx | | sx mx ex], y as [sy | sy | | sy my ey]; cbn [SFmul];
    try discriminate.
  intros H.
  destruct (binary_round_aux_cases (xorb sx sy) (Z.pos (mx * my)) (ex + ey) loc_Exact
              ltac:(lia)) as [Hr | [Hr | (m' & e' & Hr & Hm')]];
    rewrite Hr in H; try discriminate.
  injection H as _ <- _. exact Hm'.
Qed.

(** [BigInt(Math.floor(x * 1_000_000))] for any [x]: the integer part of
    the product when it is finite, a [RangeError] when it is not. *)
Lemma scale6_cases (x : number) :
  match scale6 x with
  | Ok v => floorZ (Js.mul x (Js.of_Z 1000000)) = Some v
  | Throw e =>
      e = RangeError not_an_integer /\ is_finite (Js.mul x (Js.of_Z 1000000)) = false
  end.
Proof.
  unfold scale6.
  destruct (floorZ (Js.mul x (Js.of_Z 1000000))) as [v |] eqn:Hfl.
  - rewrite (BigInt_Math_floor _ v); [reflexivity | | exact Hfl].
    intros s m e Heq. eapply mul_mantissa. exact Heq.
  - destruct (Js.mul x (Js.of_Z 1000000)); try discriminate; cbn; split; reflexivity.
Qed.

Lemma scale6_of_finite (x : number) :
  is_finite (Js.mul x (Js.of_Z 1000000)) = true ->
  exists v, scale6 x = Ok v /\ floorZ (Js.mul x (Js.of_Z 1000000)) = Some v.
Proof.
  intros Hfin. pose proof (scale6_cases x) as H.
  destruct (scale6 x) as [v | e].
  - exists v. split; [reflexivity | exact H].
  - destruct H as [_ H]. congruence.
Qed.

Lemma floorZ_negative (y : number) (v : Z) :
  floorZ y = Some v -> Js.ltb y Js.zero = true -> v < 0.
Proof.
  intros Hfl Hlt.
  destruct y as [s | s | | s m e]; try discriminate.
  destruct s; [| discriminate].
  assert (Hv : v = if 0 <=? e then Z.neg m * 2 ^ e else Z.neg m / 2 ^ (- e))
    by (unfold floorZ in Hfl; congruence).
  rewrite Hv. destruct (Z.leb_spec 0 e).
  - apply Z.mul_neg_pos; [lia | apply Z.pow_pos_nonneg; lia].
  - apply Z.div_lt_upper_bound; [apply Z.pow_pos_nonneg; lia | lia].
Qed.

(** X4. [encryptTradeParams] does not check the sign of an amount.  For a
    client that holds the key of the cluster, whenever the three products
    [x * 1_000_000] are finite the conversions succeed, also for negative
    amounts, which are rounded towards minus infinity to an integer below
    zero; the side is then submitted to the cipher, and once the cipher has
    returned for it, so is the integer of the size, negative or not. *)
Theorem amounts_not_validated (L : ArciumLib) (params : TradeParams) (s : St)
        (secret : bytes) :
  shared_secret L (this s) = Some secret ->
  (forall x, In x [tp_sizeUsd params; tp_collateral params; tp_entryPrice params] ->
             is_finite (Js.mul x (Js.of_Z 1000000)) = true) ->
  let nonce := tape (world s) 16 in
  let s1 := snd (encryptTradeParams L params s) in
  exists vsize vcoll vprice,
    floorZ (Js.mul (tp_sizeUsd params) (Js.of_Z 1000000)) = Some vsize /\
    floorZ (Js.mul (tp_collateral params) (Js.of_Z 1000000)) = Some vcoll /\
    floorZ (Js.mul (tp_entryPrice params) (Js.of_Z 1000000)) = Some vprice /\
    (Js.ltb (Js.mul (tp_sizeUsd params) (Js.of_Z 1000000)) Js.zero = true -> vsize < 0) /\
    In (CipherEncrypt secret [side_code (tp_side params)] nonce) (trace (world s1)) /\
    (is_ok (rescue_encrypt L secret [side_code (tp_side params)] nonce) = true ->
     In (CipherEncrypt secret [vsize] nonce) (trace (world s1))).
Proof.
  intros Hsec Hfin nonce s1.
  destruct (shared_secret_elim L _ _ Hsec) as (k & Hk & Hs).
  destruct (scale6_of_finite _ (Hfin _ (or_introl eq_refl))) as (v1 & H1 & F1).
  destruct (scale6_of_finite _ (Hfin _ (or_intror (or_introl eq_refl)))) as (v2 & H2 & F2).
  destruct (scale6_of_finite _ (Hfin _ (or_intror (or_intror (or_introl eq_refl)))))
    as (v3 & H3 & F3).
  exists v1, v2, v3. repeat (split; [assumption |]).
  split; [apply floorZ_negative; exact F1 |].
  subst s1. destruct (encryptTradeParams L params s) as [r s1] eqn:Hrun.
  unfold encryptTradeParams in Hrun. unfold bind at 1 in Hrun.
  rewrite (getMXEPublicKey_cached L s k Hk) in Hrun.
  cbv [bind gets lift randomBytes encrypt_field cipher_encrypt modify ret] in Hrun.
  rewrite Hs, H1, H2, H3 in Hrun. cbn [world on_world advance_rng emit trace] in Hrun.
  fold nonce in Hrun.
  destruct (rescue_encrypt L secret [side_code (tp_side params)] nonce) as [c0 | e0];
    [destruct (rescue_encrypt L secret [v1] nonce) as [c1 | e1];
     [destruct (rescue_encrypt L secret [v2] nonce) as [c2 | e2];
      [destruct (rescue_encrypt L secret [v3] nonce) as [c3 | e3] |] |] |];
    injection Hrun as <- <-;
    cbn [snd world trace this on_world emit is_ok];
    (split; [| try discriminate; intros _]);
    rewrite !in_app_iff; cbn [In]; tauto.
Qed.

Lemma amounts_not_validated_witness :
  let params := {| tp_side := Short; tp_sizeUsd := Js.neg (Js.dyadic 5 (-2));
                   tp_collateral := Js.of_Z 100; tp_entryPrice := Js.of_Z 100 |} in
  let s := snd (getMXEPublicKey Toy.lib Toy.client_ready) in
  let secret := (tape (Toy.world_with Toy.ledger_ready) 32
                 ++ slice 8 40 Toy.account_data)%list in
  scale6 (tp_sizeUsd params) = Ok (-1250000) /\
  In (CipherEncrypt secret [-1250000] (tape (world s) 16))
    (trace (world (snd (encryptTradeParams Toy.lib params s)))).
Proof.
  intros params s secret.
  split; [reflexivity |].
  destruct (amounts_not_validated Toy.lib params s secret) as
    (vsize & vcoll & vprice & F1 & _ & _ & _ & _ & Hin).
  - vm_compute. reflexivity.
  - intros x [<- | [<- | [<- | []]]]; reflexivity.
  - vm_compute in F1. injection F1 as <-.
    apply Hin. reflexivity.
Defined.

(** ** When [encryptTradeParams] throws *)

Lemma floorZ_finite (y : number) (v : Z) : floorZ y = Some v -> is_finite y = true.
Proof. destruct y; try discriminate; reflexivity. Qed.

Lemma scale6_throws (x : number) :
  is_finite (Js.mul x (Js.of_Z 1000000)) = false ->
  scale6 x = Throw (RangeError not_an_integer).
Proof.
  intros Hinf. pose proof (scale6_cases x) as H.
  destruct (scale6 x) as [v | e].
  - apply floorZ_finite in H. congruence.
  - destruct H as [-> _]. reflexivity.
Qed.

Lemma scale6_error (x : number) (e : error) :
  scale6 x = Throw e -> e = RangeError not_an_integer.
Proof.
  intros H. pose proof (scale6_cases x) as Hc. rewrite H in Hc. apply Hc.
Qed.

Lemma encryptTradeParams_no_key (L : ArciumLib) (params : TradeParams) (s : St) :
  mxePublicKey (this s) = None ->
  is_account (ledger (world s) (mxeConfigPda L s)) = false ->
  encryptTradeParams L params s
  = (Throw (Error "Could not initialize Arcium encryption"),
     on_world (emit (ConsoleError "Failed to fetch MXE public key:"
                       (fetch_failure (ledger (world s) (mxeConfigPda L s)))))
       (on_world (emit (GetAccountInfo (mxeConfigPda L s))) s)).
Proof.
  intros Hk Hno. unfold encryptTradeParams. unfold bind at 1.
  rewrite (getMXEPublicKey_fetch L s Hk).
  destruct (ledger (world s) (mxeConfigPda L s)); try discriminate; reflexivity.
Qed.

Lemma encryptTradeParams_not_finite (L : ArciumLib) (params : TradeParams) (s : St)
      (secret : bytes) :
  shared_secret L (this s) = Some secret ->
  (exists x, In x [tp_sizeUsd params; tp_collateral params; tp_entryPrice params] /\
             is_finite (Js.mul x (Js.of_Z 1000000)) = false) ->
  encryptTradeParams L params s
  = (Throw (RangeError not_an_integer), on_world (advance_rng 16) s).
Proof.
  intros Hsec (x & Hx & Hinf).
  destruct (shared_secret_elim L _ _ Hsec) as (k & Hk & Hs).
  unfold encryptTradeParams. unfold bind at 1.
  rewrite (getMXEPublicKey_cached L s k Hk).
  cbv [bind gets lift randomBytes encrypt_field cipher_encrypt modify ret].
  rewrite Hs.
  destruct (scale6 (tp_sizeUsd params)) as [v1 | e1] eqn:H1;
    [| rewrite (scale6_error _ _ H1); reflexivity].
  destruct (scale6 (tp_collateral params)) as [v2 | e2] eqn:H2;
    [| rewrite (scale6_error _ _ H2); reflexivity].
  destruct (scale6 (tp_entryPrice params)) as [v3 | e3] eqn:H3;
    [| rewrite (scale6_error _ _ H3); reflexivity].
  exfalso. apply scale6_throws in Hinf.
  destruct Hx as [<- | [<- | [<- | []]]]; congruence.
Qed.

(** X5. The two ways [encryptTradeParams] throws before it reaches the
    cipher.  Without the key of the cluster (no account, or no answer of
    the ledger) it throws the error of the fetch, has drawn no nonce and
    has not called the cipher.  With the key, when one of the three
    products [x * 1_000_000] is not finite ([NaN] or an infinity) it throws
    the [RangeError] of [BigInt]: the nonce of 16 bytes is drawn and
    lost, the cipher is not called, and nothing else has changed. *)
Theorem encrypt_throws_before_cipher (L : ArciumLib) (params : TradeParams) (s : St) :
  let r := encryptTradeParams L params s in
  (mxePublicKey (this s) = None ->
   is_account (ledger (world s) (mxeConfigPda L s)) = false ->
   fst r = Throw (Error "Could not initialize Arcium encryption") /\
   rng_pos (world (snd r)) = rng_pos (world s) /\
   encrypt_calls (trace (world (snd r))) = encrypt_calls (trace (world s))) /\
  (forall secret : bytes,
     shared_secret L (this s) = Some secret ->
     (exists x, In x [tp_sizeUsd params; tp_collateral params; tp_entryPrice params] /\
                is_finite (Js.mul x (Js.of_Z 1000000)) = false) ->
     r = (Throw (RangeError not_an_integer), on_world (advance_rng 16) s)).
Proof.
  intros r. subst r. split.
  - intros Hk Hno. rewrite (encryptTradeParams_no_key L params s Hk Hno).
    cbn [fst snd world on_world emit trace rng_pos].
    split; [reflexivity |]. split; [reflexivity |].
    rewrite !encrypt_calls_app. cbn. rewrite !app_nil_r. reflexivity.
  - apply encryptTradeParams_not_finite.
Qed.

Lemma encrypt_throws_before_cipher_witness :
  fst (encryptTradeParams Toy.lib Toy.params Toy.client_empty)
  = Throw (Error "Could not initialize Arcium encryption") /\
  (let s := snd (getMXEPublicKey Toy.lib Toy.client_ready) in
   encryptTradeParams Toy.lib
     {| tp_side := Long; tp_sizeUsd := S754_nan;
        tp_collateral := Js.of_Z 100; tp_entryPrice := Js.of_Z 100 |} s
   = (Throw (RangeError not_an_integer), on_world (advance_rng 16) s)).
Proof.
  split.
  - apply (proj1 (encrypt_throws_before_cipher Toy.lib Toy.params Toy.client_empty));
      reflexivity.
  - intros s.
    apply (proj2 (encrypt_throws_before_cipher Toy.lib _ s)
             (tape (Toy.world_with Toy.ledger_ready) 32
              ++ slice 8 40 Toy.account_data)%list).
    + vm_compute. reflexivity.
    + exists S754_nan. split; [left; reflexivity | reflexivity].
Defined.

(** ** What [decryptPosition] does to the world *)

Lemma decrypt_calls_app (tr tr' : list event) :
  decrypt_calls (tr ++ tr') = (decrypt_calls tr ++ decrypt_calls tr')%list.
Proof. apply filter_app. Qed.

(** [getMXEPublicKey] calls the cipher in neither direction. *)
Lemma getMXEPublicKey_no_cipher (L : ArciumLib) (s s0 : St) (r : result bytes) :
  getMXEPublicKey L s = (r, s0) ->
  exists pre,
    trace (world s0) = (trace (world s) ++ pre)%list /\
    encrypt_calls pre = [] /\ decrypt_calls pre = [].
Proof.
  intros H. destruct (mxePublicKey (this s)) as [k |] eqn:Hk.
  - rewrite (getMXEPublicKey_cached L s k Hk) in H. injection H as <- <-.
    exists []. rewrite app_nil_r. repeat split.
  - rewrite (getMXEPublicKey_fetch L s Hk) in H.
    destruct (ledger (world s) (mxeConfigPda L s)); injection H as <- <-;
      eexists; cbn [world on_world set_mxePublicKey emit trace];
      rewrite <- ?app_assoc; (split; [reflexivity |]); split; reflexivity.
Qed.

(** X6. [decryptPosition] draws nothing from the random source, keeps the
    keys of the client and never encrypts.  Its calls into the cipher are
    decryptions of one ciphertext each, under one secret and the nonce it
    was given, in the order side, size, collateral, entry price, leverage,
    up to the first that throws; when it returns there were exactly these
    five, under the secret the client shares with the cluster. *)
Theorem decryptPosition_effects (L : ArciumLib) (data : EncryptedPosition)
        (nonce : bytes) (s s1 : St) (r : result DecryptedPosition) :
  decryptPosition L data nonce s = (r, s1) ->
  rng_pos (world s1) = rng_pos (world s) /\
  same_keys (this s) (this s1) /\
  exists new secret n,
    trace (world s1) = (trace (world s) ++ new)%list /\
    encrypt_calls new = [] /\
    decrypt_calls new = firstn n (five_calls secret nonce data) /\
    (forall pos, r = Ok pos ->
       shared_secret L (this s1) = Some secret /\ n = 5%nat).
Proof.
  unfold decryptPosition. unfold bind at 1.
  destruct (getMXEPublicKey L s) as [[k | e] s0] eqn:Hk.
  2: { intros H. injection H as <- <-.
       destruct (getMXEPublicKey_frame L s s0 _ Hk) as (K & Hpos & _).
       destruct (getMXEPublicKey_no_cipher L s s0 _ Hk) as (pre & Htr & He & Hd).
       split; [exact Hpos |]. split; [exact K |].
       exists pre, [], 0%nat.
       split; [exact Htr |]. split; [exact He |]. split; [exact Hd |].
       intros pos Habs; discriminate Habs. }
  destruct (getMXEPublicKey_frame L s s0 _ Hk) as (K & Hpos & Hcache & _).
  destruct (getMXEPublicKey_no_cipher L s s0 _ Hk) as (pre & Htr & He & Hd).
  specialize (Hcache k eq_refl).
  cbv [bind gets lift decrypt_field cipher_decrypt modify ret].
  destruct (x25519_getSharedSecret L (privateKey (this s0)) k) as [secret | e] eqn:Hs.
  2: { intros H. injection H as <- <-.
       split; [exact Hpos |]. split; [exact K |].
       exists pre, [], 0%nat.
       split; [exact Htr |]. split; [exact He |]. split; [exact Hd |].
       intros pos Habs; discriminate Habs. }
  set (calls := five_calls secret nonce data).
  assert (Hfin : forall (n : nat) (s2 : St) (r2 : result DecryptedPosition),
             this s2 = this s0 ->
             rng_pos (world s2) = rng_pos (world s0) ->
             trace (world s2) = (trace (world s0) ++ firstn n calls)%list ->
             (forall pos, r2 = Ok pos -> n = 5%nat) ->
             rng_pos (world s2) = rng_pos (world s) /\
             same_keys (this s) (this s2) /\
             exists new secret0 n0,
               trace (world s2) = (trace (world s) ++ new)%list /\
               encrypt_calls new = [] /\
               decrypt_calls new = firstn n0 (five_calls secret0 nonce data) /\
               (forall pos, r2 = Ok pos ->
                  shared_secret L (this s2) = Some secret0 /\ n0 = 5%nat)).
  { intros n s2 r2 Hthis Hrng Htr2 Hok.
    split; [congruence |]. split; [rewrite Hthis; exact K |].
    exists (pre ++ firstn n calls)%list, secret, n.
    split; [rewrite Htr2, Htr, <- app_assoc; reflexivity |].
    assert (Hcalls : forall m, encrypt_calls (firstn m calls) = [] /\
                               decrypt_calls (firstn m calls) = firstn m calls).
    { intros m. do 6 (destruct m as [| m]; [split; reflexivity |]). split; reflexivity. }
    destruct (Hcalls n) as [He' Hd'].
    split; [rewrite encrypt_calls_app, He, He'; reflexivity |].
    split; [rewrite decrypt_calls_app, Hd, Hd'; reflexivity |].
    intros pos Hpos'. split; [| eapply Hok; exact Hpos'].
    rewrite Hthis. eapply shared_secret_intro; eassumption. }
  destruct (rescue_decrypt L secret [Array_from (ct_side data)] nonce);
    [| intros H; injection H as <- <-; apply (Hfin 1%nat);
       [reflexivity | reflexivity | reflexivity | discriminate]].
  destruct (rescue_decrypt L secret [Array_from (ct_sizeUsd data)] nonce);
    [| intros H; injection H as <- <-; apply (Hfin 2%nat);
       [reflexivity | reflexivity | cbn; rewrite <- !app_assoc; reflexivity | discriminate]].
  destruct (rescue_decrypt L secret [Array_from (ct_collateral data)] nonce);
    [| intros H; injection H as <- <-; apply (Hfin 3%nat);
       [reflexivity | reflexivity | cbn; rewrite <- !app_assoc; reflexivity | discriminate]].
  destruct (rescue_decrypt L secret [Array_from (ct_entryPrice data)] nonce);
    [| intros H; injection H as <- <-; apply (Hfin 4%nat);
       [reflexivity | reflexivity | cbn; rewrite <- !app_assoc; reflexivity | discriminate]].
  destruct (rescue_decrypt L secret [Array_from (ct_leverage data)] nonce);
    intros H; injection H as <- <-; apply (Hfin 5%nat);
    solve [reflexivity | cbn; rewrite <- !app_assoc; reflexivity | discriminate | intros; reflexivity].
Qed.

Lemma decryptPosition_effects_witness :
  exists s1 new secret,
    snd (decryptPosition Toy.lib (as_position Toy.enc (enc_side Toy.enc))
           (enc_nonce Toy.enc) Toy.after) = s1 /\
    rng_pos (world s1) = rng_pos (world Toy.after) /\
    trace (world s1) = (trace (world Toy.after) ++ new)%list /\
    decrypt_calls new
    = five_calls secret (enc_nonce Toy.enc) (as_position Toy.enc (enc_side Toy.enc)).
Proof.
  destruct (decryptPosition Toy.lib (as_position Toy.enc (enc_side Toy.enc))
              (enc_nonce Toy.enc) Toy.after) as [r s1] eqn:Hrun.
  destruct (decryptPosition_effects Toy.lib _ _ _ _ _ Hrun)
    as (Hrng & _ & new & secret & n & Htr & _ & Hd & Hok).
  assert (Hr : exists pos, r = Ok pos).
  { replace r with (fst (decryptPosition Toy.lib (as_position Toy.enc (enc_side Toy.enc))
                           (enc_nonce Toy.enc) Toy.after)) by (rewrite Hrun; reflexivity).
    eexists. vm_compute. reflexivity. }
  destruct Hr as (pos & Hr). destruct (Hok pos Hr) as [_ ->].
  exists s1, new, secret. repeat split; assumption.
Defined.

(** ** The mutations of the data access layer *)

(** X7. How the mutation that opens a position fails.  When the wallet,
    the program or the client is missing it throws at once and nothing has
    happened.  When the key of the cluster cannot be fetched it throws the
    error of the fetch: the 8 bytes of the offset are drawn and lost, and
    there is no call of the cipher, no toast and no wait for a
    finalization.  When an amount is not finite it throws the [RangeError]
    of the conversion after 24 random bytes, with nothing else done.  When
    the finalization fails, its error is written to the console and thrown
    again as it is. *)
Theorem open_position_failures (L : ArciumLib) (params : TradeParams) (s : St) :
  openPosition_mutationFn L false params s
  = (Throw (Error "Wallet not connected or Arcium not initialized"), s) /\
  (mxePublicKey (this s) = None ->
   is_account (ledger (world s) (mxeConfigPda L s)) = false ->
   let r := openPosition_mutationFn L true params s in
   fst r = Throw (Error "Could not initialize Arcium encryption") /\
   rng_pos (world (snd r)) = (rng_pos (world s) + 8)%nat /\
   exists new,
     trace (world (snd r)) = (trace (world s) ++ new)%list /\
     filter (fun e => is_encrypt e || is_toast e || is_await e) new = []) /\
  (forall secret : bytes,
     shared_secret L (this s) = Some secret ->
     (exists x, In x [tp_sizeUsd params; tp_collateral params; tp_entryPrice params] /\
                is_finite (Js.mul x (Js.of_Z 1000000)) = false) ->
     openPosition_mutationFn L true params s
     = (Throw (RangeError not_an_integer), on_world (advance_rng 24) s)) /\
  (forall (enc : EncryptedTradeParams) (s1 : St) (e : error),
     encryptTradeParams L params (on_world (advance_rng 8) s) = (Ok enc, s1) ->
     finalization (world s1) (BN_of_bytes (tape (world s) 8)) = Throw e ->
     let r := openPosition_mutationFn L true params s in
     fst r = Throw e /\
     trace (world (snd r))
     = (trace (world s1)
        ++ [ToastInfo "Position queued" "Waiting for MPC computation...";
            AwaitFinalization (BN_of_bytes (tape (world s) 8));
            ConsoleError "Computation failed:" e])%list).
Proof.
  split; [reflexivity |]. split; [| split].
  - intros Hk Hno r. subst r. rewrite openPosition_run. cbv zeta.
    rewrite (encryptTradeParams_no_key L params (on_world (advance_rng 8) s) Hk Hno).
    cbn [fst snd world on_world emit trace rng_pos advance_rng].
    split; [reflexivity |]. split; [reflexivity |].
    eexists. rewrite <- !app_assoc. split; reflexivity.
  - intros secret Hsec Hx. rewrite openPosition_run. cbv zeta.
    rewrite (encryptTradeParams_not_finite L params (on_world (advance_rng 8) s)
               secret Hsec Hx).
    unfold on_world, advance_rng. cbn. rewrite <- Nat.add_assoc. reflexivity.
  - intros enc s1 e Henc Hfin r. subst r. rewrite openPosition_run. cbv zeta.
    rewrite Henc, Hfin. cbn [fst snd world on_world emit trace].
    split; [reflexivity |]. rewrite <- !app_assoc. reflexivity.
Qed.

Lemma open_position_failures_witness :
  let r := openPosition_mutationFn Toy.lib true Toy.params Toy.client_empty in
  fst r = Throw (Error "Could not initialize Arcium encryption") /\
  rng_pos (world (snd r)) = 40%nat.
Proof.
  intros r.
  destruct (proj1 (proj2 (open_position_failures Toy.lib Toy.params Toy.client_empty))
              eq_refl eq_refl) as (Hr & Hrng & _).
  split; [exact Hr | exact Hrng].
Defined.



(** X9. The mutation that closes a position needs neither the key of the
    cluster nor the cipher.  When the wallet, the program or the client is
    missing it throws at once and nothing has happened.  Otherwise it
    draws the 8 bytes of a new computation offset, shows one toast and
    waits for the finalization of that offset, without reading the ledger
    and without encrypting anything; it returns the signature of the
    finalization, or writes its error to the console and throws it again
    as it is. *)
Theorem close_position_flow (s : St) :
  closePosition_mutationFn false s
  = (Throw (Error "Wallet not connected or Arcium not initialized"), s) /\
  (let offset := BN_of_bytes (tape (world s) 8) in
   let r := closePosition_mutationFn true s in
   this (snd r) = this s /\
   rng_pos (world (snd r)) = (rng_pos (world s) + 8)%nat /\
   (exists tail,
      trace (world (snd r))
      = (trace (world s)
         ++ [ToastInfo "Closing position" "Waiting for MPC computation...";
             AwaitFinalization offset] ++ tail)%list /\
      match finalization (world s) offset with
      | Ok sig =>
          tail = [] /\
          fst r = Ok {| cr_queueSignature :=
                          "pending-deployment-" ++ string_of_Z (now (world s));
                        cr_finalizeSignature := sig |}
      | Throw e =>
          tail = [ConsoleError "Failed to close position:" e] /\ fst r = Throw e
      end)).
Proof.
  split; [reflexivity |].
  intros offset r. subst r. rewrite closePosition_run. cbv zeta. fold offset.
  destruct (finalization (world s) offset) as [sig | e];
    cbn [fst snd this world on_world rng_pos trace emit advance_rng];
    (split; [reflexivity |]); (split; [reflexivity |]);
    eexists; rewrite <- !app_assoc; (split; [reflexivity |]); split; reflexivity.
Qed.

Lemma close_position_flow_witness :
  exists sig,
    fst (closePosition_mutationFn true Toy.client_empty)
    = Ok {| cr_queueSignature := "pending-deployment-1700000000000";
            cr_finalizeSignature := sig |} /\
    rng_pos (world (snd (closePosition_mutationFn true Toy.client_empty))) = 40%nat.
Proof.
  destruct (proj2 (close_position_flow Toy.client_empty)) as (_ & Hrng & tail & _ & Hfin).
  exists "signature". split; [| exact Hrng].
  exact (proj2 Hfin).
Defined.
